(** * async-server: the poll(2) registry, the circular io_buffer and the
    connection life cycle of [async_server.c], embedded shallowly.

    Sources: [lib/as_server.h] (types and the inline helpers),
    [src/async_server.c] (everything else), [lib/tcpserver.h] and
    [src/tcpserver.c] (socket wrappers).

    Conventions.
    - [size_t] is a 64-bit unsigned integer: a [Z] in [0, 2^64) with the
      wrap-around written [wrap64]; [int] results are produced by [to_int].
    - [unsigned int] loop counters never overflow in the code (every
      increment is guarded by a comparison with [polled]); they are [nat]
      inside the loops and [Z] in the structures.
    - a [char *] storage area is a [list byte]; a [struct pollfd] array is
      a [list pollfd].
    - everything the operating system or the allocator decides (the result
      of [send], [poll], [accept], [calloc], [realloc]) is an explicit
      argument of the function that asks for it. *)

From Stdlib Require Import ZArith Lia Bool.
From Stdlib Require Import Init.Byte.
From stdpp Require Import base option list gmap.

Local Open Scope Z_scope.

(** ** C integers *)

Module CInt.

Definition SIZE_MOD : Z := 2 ^ 64.
Definition UINT_MOD : Z := 2 ^ 32.

(** arithmetic on [size_t] wraps modulo [2^64] *)
Definition wrap64 (x : Z) : Z := x mod SIZE_MOD.

(** conversion of a [size_t] value to [int] (two's complement, low 32 bits) *)
Definition to_int (x : Z) : Z := (x + 2 ^ 31) mod UINT_MOD - 2 ^ 31.

End CInt.

(** ** The circular io_buffer *)

Module Iobuff.
Import CInt.

(** [struct io_buffer] *)
Record io_buffer : Type := mk_io_buffer {
  buffer : list byte;   (* the storage behind [char *buffer] *)
  size : Z;             (* size of the buffer *)
  head : Z;             (* offset to write data *)
  tail : Z              (* offset to read data *)
}.

(** [size_roundup]: next power of two, by smearing the top bit down. *)
Definition size_roundup (size : Z) : Z :=
  let new_size := size in
  if Z.land new_size (wrap64 (new_size - 1)) =? 0 then new_size
  else
    let new_size := Z.lor new_size (Z.shiftr new_size 1) in
    let new_size := Z.lor new_size (Z.shiftr new_size 2) in
    let new_size := Z.lor new_size (Z.shiftr new_size 4) in
    let new_size := Z.lor new_size (Z.shiftr new_size 8) in
    let new_size := Z.lor new_size (Z.shiftr new_size 16) in
    let new_size := Z.lor new_size (Z.shiftr new_size 32) in
    wrap64 (new_size + 1).

(** [min] *)
Definition min (a b : Z) : Z := if a <? b then a else b.

(** [memcpy(dst + off, src, n)]: the first [n] bytes of [src] overwrite
    [dst] from offset [off]. A copy that would leave [dst] is undefined
    in C; here the bytes falling outside are dropped. *)
Definition memcpy (dst : list byte) (off : Z) (src : list byte) (n : Z)
  : list byte :=
  list_inserts (Z.to_nat off) (take (Z.to_nat n) src) dst.

(** [iobuff_alloc]: [calloc] of header plus storage; [None] is the
    [NULL] returned when [calloc] fails. The record holds the bytes of
    the storage and the cursors; where the storage lies is kept beside
    it, in [Placed.io_buffer]: the storage set up here sits inside the
    header's block, so [realloc] and [free] receive a pointer [calloc]
    never returned ([Placed.iobuff_alloc], [Placed.iobuff_append]). *)
Definition iobuff_alloc (calloc_ok : bool) (size : Z) : option io_buffer :=
  if calloc_ok then
    Some {| buffer := replicate (Z.to_nat (size_roundup (wrap64 (size * 1)))) x00;
            size := size; head := 0; tail := 0 |}
  else None.

(** [iobuff_empty] *)
Definition iobuff_empty (b : io_buffer) : bool := head b =? tail b.

(** [iobuff_full] *)
Definition iobuff_full (b : io_buffer) : bool :=
  wrap64 (head b - tail b) =? size b.

(** [iobuff_space]: the ternary is evaluated on [size_t], the result is
    returned as [int]. *)
Definition iobuff_space (b : io_buffer) : Z :=
  to_int (if tail b <=? head b
          then wrap64 (size b - wrap64 (head b - tail b))
          else wrap64 (tail b - head b)).

(** What [realloc] answers: [NULL], or a block whose bytes beyond the old
    size are indeterminate ([fresh i] is the byte found at offset [i]). *)
Inductive realloc_result : Type :=
| ReallocNull
| ReallocBlock (fresh : nat -> byte).

(** [realloc(old, new_size)] when it succeeds, for storage that is a
    block of its own: the common prefix is kept, the rest is whatever
    the allocator hands out. *)
Definition realloc (old : list byte) (new_size : Z) (fresh : nat -> byte)
  : list byte :=
  let n := Z.to_nat new_size in
  take n old ++ (fresh <$> seq (Datatypes.length old) (n - Datatypes.length old)).

(** the copy that ends [iobuff_append] (the part after the growth
    decision): at most two chunks, the second one at the start of the
    storage; then [head] advances *)
Definition append_copy (b : io_buffer) (data : list byte) (length : Z)
  : Z * io_buffer :=
  let whead := Z.land (head b) (wrap64 (size b - 1)) in
  let wtail := Z.land (tail b) (wrap64 (size b - 1)) in
  if wtail <=? whead then
    let first_chunk := min length (wrap64 (size b - whead)) in
    let second_chunk := min (wrap64 (length - first_chunk)) wtail in
    let total := wrap64 (first_chunk + second_chunk) in
    let buf := memcpy (buffer b) whead data first_chunk in
    let buf := memcpy buf 0 (drop (Z.to_nat first_chunk) data) second_chunk in
    (total, {| buffer := buf; size := size b;
               head := wrap64 (head b + total); tail := tail b |})
  else
    let chunk := min length (wrap64 (wtail - whead)) in
    let buf := memcpy (buffer b) whead data chunk in
    (chunk, {| buffer := buf; size := size b;
               head := wrap64 (head b + chunk); tail := tail b |}).

(** the buffer after [realloc] answered with a block; [realloc] only
    answers for storage that is a block of its own *)
Definition regrown (b : io_buffer) (new_size : Z) (fresh : nat -> byte) : io_buffer :=
  {| buffer := realloc (buffer b) new_size fresh;
     size := new_size; head := head b; tail := tail b |}.

(** [iobuff_append] on a buffer whose storage is a block of its own.
    Returns the number of bytes appended and the buffer afterwards.
    [Placed.iobuff_append] is the function for either place of the
    storage; the two agree except where [realloc] is reached with the
    storage inside the header's block. *)
Definition iobuff_append (re : realloc_result) (b : io_buffer)
    (data : list byte) (length : Z) (can_reallocate : bool)
  : Z * io_buffer :=
  if (length =? 0) || iobuff_full b then (0, b)
  else
    let free_space := wrap64 (iobuff_space b) in
    if (free_space <? length) && can_reallocate then
      let new_size := wrap64 (size b + length) in
      let new_size := size_roundup new_size in
      match re with
      | ReallocNull => (0, b)
      | ReallocBlock fresh => append_copy (regrown b new_size fresh) data length
      end
    else append_copy b data length.
(* after a successful [realloc] the code also recomputes
   [free_space = size - (head - tail)]; the value is not used again *)

(** What [send(2)] was given. *)
Inductive handed : Type :=
| NotCalled
| Bytes (l : list byte)           (* a contiguous run of bytes *)
| OutOfStorage (off len : Z).     (* [len] bytes from [buffer + off], which
                                     run past the end of the storage *)

(** [send(fd, region + off, len, 0)] reads [len] bytes at offset [off]. *)
Definition send_arg (region : list byte) (off len : Z) : handed :=
  if off + len <=? Z.of_nat (Datatypes.length region)
  then Bytes (take (Z.to_nat len) (drop (Z.to_nat off) region))
  else OutOfStorage off len.

(** The result of one [iobuff_send]. *)
Record send_outcome : Type := mk_send_outcome {
  ret : Z;               (* the [ssize_t] returned *)
  given : handed;        (* what the send primitive received *)
  after : io_buffer      (* the buffer afterwards *)
}.

(** [iobuff_send]. [calloc_ok] is whether the temporary region can be
    allocated, [sent] is what [send(2)] returns. The descriptor
    [client->info->fd] only names the socket and is left out. *)
Definition iobuff_send (calloc_ok : bool) (sent : Z) (b : io_buffer)
  : send_outcome :=
  let length := wrap64 (head b - tail b) in
  if length =? 0 then mk_send_outcome 0 NotCalled b
  else
    let whead := Z.land (head b) (wrap64 (size b - 1)) in
    let wtail := Z.land (tail b) (wrap64 (size b - 1)) in
    if head b <? tail b then
      if calloc_ok then
        let buffer_wrap := replicate (Z.to_nat (size b)) x00 in
        let tail_size := wrap64 (size b - wtail) in
        let buffer_wrap :=
          memcpy buffer_wrap 0 (drop (Z.to_nat wtail) (buffer b)) tail_size in
        let buffer_wrap := memcpy buffer_wrap tail_size (buffer b) whead in
        let arg := send_arg buffer_wrap 0 length in
        if sent <? 0 then mk_send_outcome (-1) arg b
        else mk_send_outcome sent arg
               {| buffer := buffer b; size := size b; head := head b;
                  tail := wrap64 (tail b + sent) |}
      else mk_send_outcome (-1) NotCalled b
    else
      let arg := send_arg (buffer b) wtail length in
      if sent <? 0 then mk_send_outcome (-1) arg b
      else mk_send_outcome sent arg
             {| buffer := buffer b; size := size b; head := head b;
                tail := wrap64 (tail b + sent) |}.

(** The pending bytes, oldest first: the byte at cursor [tail + i] lives
    at index [(tail + i) & (size - 1)] of the storage. This is the
    sequence a reader of the ring is owed; it is not a function of the
    source. *)
Definition pending (b : io_buffer) : list (option byte) :=
  (fun i : nat =>
     buffer b !! Z.to_nat (Z.land (wrap64 (tail b + Z.of_nat i))
                                  (wrap64 (size b - 1))))
  <$> seq 0 (Z.to_nat (wrap64 (head b - tail b))).

End Iobuff.

(** ** The readiness registry: [struct pollfds] *)

Module Pollfds.
Import CInt.

(** [struct pollfd] of poll(2) *)
Record pollfd : Type := mk_pollfd {
  fd : Z;
  events : Z;       (* requested events *)
  revents : Z       (* returned events *)
}.

(** [struct pollfds] *)
Record pollfds : Type := mk_pollfds {
  fds : list pollfd;    (* array of pollfd structs *)
  polled : Z;           (* number of file descriptors being polled *)
  length : Z;           (* total number of file descriptors *)
  timeout : Z           (* timeout for poll(2) in milliseconds *)
}.

(** the initializer [{ .fd = -1, .events = 0, .revents = 0 }] *)
Definition cleared : pollfd := mk_pollfd (-1) 0 0.

(** the array read [fds[i]]; the code never reads past [length] slots
    when [polled <= length], and a read outside yields [cleared] here *)
Definition slot (l : list pollfd) (i : nat) : pollfd := default cleared (l !! i).

(** [fds[i].fd = v] *)
Definition set_fd (l : list pollfd) (i : nat) (v : Z) : list pollfd :=
  <[i := mk_pollfd v (events (slot l i)) (revents (slot l i))]> l.

(** [create_pollfds]: [None] is [NULL]. [calloc] zeroes the array, the
    loop then marks every slot invalid. *)
Definition create_pollfds (malloc_ok calloc_ok : bool) (max_descs : Z)
  : option pollfds :=
  if malloc_ok then
    if calloc_ok then
      let n := Z.to_nat max_descs in
      let zeroed := replicate n (mk_pollfd 0 0 0) in
      Some {| fds := foldl (fun l idx => set_fd l idx (-1)) zeroed (seq 0 n);
              polled := 0;
              length := max_descs mod UINT_MOD;
              timeout := -1 |}
    else None
  else None.

(** the scan [for (; desc_idx < polled; desc_idx++) if (fds[desc_idx].fd == fd) ...]
    with [todo] slots left to visit: the index at which the scan stops,
    which is the first match or else the bound *)
Fixpoint find_fd (l : list pollfd) (fd0 : Z) (desc_idx todo : nat) : nat :=
  match todo with
  | O => desc_idx
  | S todo' =>
      if fd (slot l desc_idx) =? fd0 then desc_idx
      else find_fd l fd0 (S desc_idx) todo'
  end.

(** [add_event]: the returned [int] and the registry afterwards *)
Definition add_event (p : pollfds) (fd0 : Z) (events0 : Z) : Z * pollfds :=
  if polled p =? length p then (-1, p)
  else
    let desc_idx := find_fd (fds p) fd0 0 (Z.to_nat (polled p)) in
    if Z.of_nat desc_idx <? polled p then
      (* found inside the loop: update the events, return 0 *)
      let e := slot (fds p) desc_idx in
      (0, {| fds := <[desc_idx := mk_pollfd (fd e) events0 0]> (fds p);
             polled := polled p; length := length p; timeout := timeout p |})
    else
      let new_fd := mk_pollfd fd0 events0 0 in
      (0, {| fds := <[Z.to_nat (polled p) := new_fd]> (fds p);
             polled := (polled p + 1) mod UINT_MOD;
             length := length p; timeout := timeout p |}).

(** the packing loop of [remove_event]:
    [for (idx = desc_idx; idx < polled; idx++)] with [todo] slots left *)
Fixpoint pack (l : list pollfd) (idx desc_idx todo : nat) : list pollfd :=
  match todo with
  | O => l
  | S todo' =>
      if fd (slot l idx) <? 0 then pack l (S idx) desc_idx todo'
      else
        let l := <[desc_idx := slot l idx]> l in
        let l := set_fd l idx (-1) in
        pack l (S idx) (S desc_idx) todo'
  end.

(** [remove_event] *)
Definition remove_event (p : pollfds) (fd0 : Z) : pollfds :=
  if polled p =? 0 then p
  else
    let desc_idx := find_fd (fds p) fd0 0 (Z.to_nat (polled p)) in
    if Z.of_nat desc_idx =? polled p then p
    else
      let l := <[desc_idx := cleared]> (fds p) in
      let l := pack l desc_idx desc_idx (Z.to_nat (polled p) - desc_idx) in
      {| fds := l; polled := (polled p - 1) mod UINT_MOD;
         length := length p; timeout := timeout p |}.

(** [polled_fds], [total_fds], [set_timeout] *)
Definition polled_fds (p : pollfds) : Z := polled p.
Definition total_fds (p : pollfds) : Z := length p.
Definition set_timeout (p : pollfds) (t : Z) : pollfds :=
  {| fds := fds p; polled := polled p; length := length p; timeout := t |}.

(** [poll_events]: poll(2) returns [result]; on success it has written
    the observed mask of each of the first [polled] slots, [observed i]
    for slot [i]. *)
Definition poll_events (result : Z) (observed : nat -> Z) (p : pollfds)
  : Z * pollfds :=
  if result <? 0 then (result, p)
  else
    (result,
     {| fds := imap (fun i e =>
                       if Z.of_nat i <? polled p
                       then mk_pollfd (fd e) (events e) (observed i)
                       else e) (fds p);
        polled := polled p; length := length p; timeout := timeout p |}).

(** [check_flag] *)
Definition check_flag (p : pollfds) (idx : nat) (flag : Z) : Z :=
  if Z.land (revents (slot (fds p) idx)) flag =? flag then 1 else 0.

(** the watched entries: the first [polled] slots *)
Definition watched (p : pollfds) : list pollfd :=
  take (Z.to_nat (polled p)) (fds p).

End Pollfds.

(** ** Connections and the dispatch loop *)

Module Server.
Import CInt.

(** the macros of [as_server.h], [tcpserver.h] and <poll.h> *)
Definition BUFFER_SIZE : Z := 1024.
Definition MAX_CLIENTS : Z := 1024.
Definition INVALID_FD : Z := -1.
Definition POLLIN : Z := 1.
Definition POLLPRI : Z := 2.
Definition POLLOUT : Z := 4.
Definition POLLHUP : Z := 16.

(** a [struct io_buffer *] field of a client context *)
Inductive bufref : Type :=
| BufNull                 (* NULL *)
| BufInside               (* the header [client_alloc] carves out of the
                             context's own chunk *)
| BufAt (p : nat).        (* a block obtained from [iobuff_alloc] *)

(** [struct client_context], with the descriptor of its [client_info] *)
Record client_context : Type := mk_client_context {
  info_fd : Z;              (* info->fd *)
  input : bufref;           (* input buffer *)
  output : bufref;          (* output buffer *)
  event_handler : nat;      (* event callback, by name *)
  status : Z;               (* connection status, user-defined *)
  user_data : Z             (* user data (optional) *)
}.

(** what a heap block holds *)
Inductive block : Type :=
| BClient (c : client_context)
| BBuffer (b : Iobuff.io_buffer).

(** [struct server_context] together with the heap its pointers point
    into and the set of open socket descriptors. *)
Record server_context : Type := mk_server_context {
  listener_fd : Z;                  (* info.fd *)
  polled : Pollfds.pollfds;         (* the registry *)
  contexts : gmap Z nat;            (* hash table: descriptor -> context *)
  server_handler : nat;             (* event callback, by name *)
  heap : gmap nat block;            (* live allocations *)
  sockets : gset Z                  (* descriptors not yet closed *)
}.

Definition with_polled (s : server_context) (p : Pollfds.pollfds) : server_context :=
  mk_server_context (listener_fd s) p (contexts s) (server_handler s) (heap s) (sockets s).
Definition with_contexts (s : server_context) (t : gmap Z nat) : server_context :=
  mk_server_context (listener_fd s) (polled s) t (server_handler s) (heap s) (sockets s).
Definition with_heap (s : server_context) (h : gmap nat block) : server_context :=
  mk_server_context (listener_fd s) (polled s) (contexts s) (server_handler s) h (sockets s).
Definition with_sockets (s : server_context) (o : gset Z) : server_context :=
  mk_server_context (listener_fd s) (polled s) (contexts s) (server_handler s) (heap s) o.

(** Modelled from the spec: the descriptor-keyed associative lookup of
    [htable.h], which is not among the sources. Section 6 of the
    specification gives insert(key, value), remove(key) and get(key) on
    raw integer descriptors; insertion can fail, and whether it does is
    the collaborator's decision ([ok]). *)
Definition htable_insert (ok : bool) (t : gmap Z nat) (key : Z) (value : nat)
  : Z * gmap Z nat :=
  if ok then (0, <[key := value]> t) else (-1, t).
Definition htable_remove (t : gmap Z nat) (key : Z) : gmap Z nat := delete key t.
Definition htable_get (t : gmap Z nat) (key : Z) : option nat := t !! key.

(** a call either returns or stops the process (a failed [assert], a
    NULL or dangling pointer dereferenced) *)
Inductive outcome (A : Type) : Type :=
| Returns (a : A) (s : server_context)
| Aborts (s : server_context).
Arguments Returns {A} a s.
Arguments Aborts {A} s.

(** the value returned, if the call returns, and the server it leaves *)
Definition returned {A : Type} (o : outcome A) : option A :=
  match o with
  | Returns a _ => Some a
  | Aborts _ => None
  end.
Definition final {A : Type} (o : outcome A) : server_context :=
  match o with
  | Returns _ s => s
  | Aborts s => s
  end.

(** [free(p)] *)
Definition free (s : server_context) (p : nat) : server_context :=
  with_heap s (delete p (heap s)).

(** [client_alloc]: one zeroed chunk at the address [calloc] answers;
    [input] and [output] point into the chunk itself *)
Definition client_alloc (mem : option nat) (s : server_context)
  : option nat * server_context :=
  match mem with
  | None => (None, s)
  | Some p =>
      (Some p,
       with_heap s (<[p := BClient (mk_client_context 0 BufInside BufInside 0 0 0)]> (heap s)))
  end.

(** [client_close]: closes [info->fd] and marks it invalid; close(2) is
    taken to succeed on a descriptor that is open *)
Definition client_close (s : server_context) (client : nat) : server_context :=
  match heap s !! client with
  | Some (BClient c) =>
      let s := with_sockets s (sockets s ∖ {[info_fd c]}) in
      with_heap s (<[client := BClient (mk_client_context INVALID_FD (input c) (output c)
                                          (event_handler c) (status c) (user_data c))]> (heap s))
  | _ => s
  end.

(** [iobuff_free] on a context's buffer field: [None] when the call
    does not return. For [BufNull] the [assert(buffer)] fails. For
    [BufInside] the header is part of the context's chunk and
    [free(buffer)] gets a pointer no allocation returned. For [BufAt]
    the block comes from [iobuff_alloc], the only source of buffer
    blocks in this heap: its storage lies inside the block, and
    [free(buffer->buffer)] gets a pointer no allocation returned. *)
Definition iobuff_free (s : server_context) (r : bufref) : option server_context :=
  match r with
  | BufAt _ => None
  | BufNull | BufInside => None
  end.

(** what the collaborators answer during one [as_accept] *)
Record accept_env : Type := mk_accept_env {
  client_mem : option nat;    (* calloc in [client_alloc] *)
  accepted : Z;               (* accept(2): the new descriptor, or -1 *)
  getfl : Z;                  (* fcntl(F_GETFL) *)
  setfl : Z;                  (* fcntl(F_SETFL) *)
  insert_ok : bool;           (* htable_insert *)
  input_mem : option nat;     (* calloc in the first [iobuff_alloc] *)
  output_mem : option nat     (* calloc in the second [iobuff_alloc] *)
}.

(** the labels of [as_accept], innermost last *)
Definition error_free (s : server_context) (client : nat) : outcome (option nat) :=
  Returns None (free s client).
Definition error_disconnect (s : server_context) (client : nat) : outcome (option nat) :=
  error_free (client_close s client) client.
Definition error_in_buffer (s : server_context) (client : nat) (c : client_context)
  : outcome (option nat) :=
  match iobuff_free s (input c) with
  | Some s => error_disconnect s client
  | None => Aborts s
  end.
Definition error_out_buffer (s : server_context) (client : nat) (c : client_context)
  : outcome (option nat) :=
  match iobuff_free s (output c) with
  | Some s => error_in_buffer s client c
  | None => Aborts s
  end.

(** storing a context back into its chunk *)
Definition store (s : server_context) (client : nat) (c : client_context) : server_context :=
  with_heap s (<[client := BClient c]> (heap s)).

(** [iobuff_alloc(BUFFER_SIZE)] into a fresh heap block, followed by
    [->size = BUFFER_SIZE] *)
Definition buffer_block (mem : option nat) (s : server_context)
  : bufref * server_context :=
  match mem with
  | Some p =>
      match Iobuff.iobuff_alloc true BUFFER_SIZE with
      | Some b =>
          let b := Iobuff.mk_io_buffer (Iobuff.buffer b) BUFFER_SIZE
                     (Iobuff.head b) (Iobuff.tail b) in
          (BufAt p, with_heap s (<[p := BBuffer b]> (heap s)))
      | None => (BufNull, s)
      end
  | None => (BufNull, s)
  end.

(** [as_accept]: the context returned ([None] is NULL) *)
Definition as_accept (env : accept_env) (handler : nat) (s : server_context)
  : outcome (option nat) :=
  match client_alloc (client_mem env) s with
  | (None, s) => Returns None s
  | (Some client, s) =>
      (* client->event_handler = handler *)
      let c := mk_client_context 0 BufInside BufInside handler 0 0 in
      let s := store s client c in
      (* server_accept: client->info->fd = accept(...) *)
      let c := mk_client_context (accepted env) (input c) (output c)
                 (event_handler c) (status c) (user_data c) in
      let s := store s client c in
      if accepted env <? 0 then error_free s client
      else
        let s := with_sockets s ({[accepted env]} ∪ sockets s) in
        if getfl env <? 0 then error_disconnect s client
        else if setfl env <? 0 then error_disconnect s client
        else
          let '(r, p) := Pollfds.add_event (polled s) (info_fd c)
                           (Z.lor (Z.lor POLLIN POLLOUT) POLLHUP) in
          let s := with_polled s p in
          if r <? 0 then error_disconnect s client
          else
            let '(r, t) := htable_insert (insert_ok env) (contexts s) (info_fd c) client in
            let s := with_contexts s t in
            if r <? 0 then error_disconnect s client
            else
              let '(inp, s) := buffer_block (input_mem env) s in
              let c := mk_client_context (info_fd c) inp (output c)
                         (event_handler c) (status c) (user_data c) in
              let s := store s client c in
              match inp with
              | BufAt _ =>
                  let '(out, s) := buffer_block (output_mem env) s in
                  let c := mk_client_context (info_fd c) (input c) out
                             (event_handler c) (status c) (user_data c) in
                  let s := store s client c in
                  match out with
                  | BufAt _ => Returns (Some client) s
                  | _ => error_out_buffer s client c
                  end
              | _ => error_in_buffer s client c
              end
  end.

(** [as_disconnect] *)
Definition as_disconnect (s : server_context) (client : nat) : outcome unit :=
  match heap s !! client with
  | Some (BClient c) =>
      (* remove the client from the polled file descriptors *)
      let s := with_polled s (Pollfds.remove_event (polled s) (info_fd c)) in
      (* remove the client context from the hash table *)
      let s := with_contexts s (htable_remove (contexts s) (info_fd c)) in
      (* close the client socket *)
      let s := client_close s client in
      (* destroy the client context *)
      Returns tt (free s client)
  | _ => Aborts s
  end.

(** one callback invocation, as seen from outside *)
Inductive call : Type :=
| ListenerCall (events : Z)
| ClientCall (i : nat) (client : nat) (events : Z).

(** the first argument of a callback *)
Inductive context_arg : Type :=
| OfServer
| OfClient (client : nat).

(** how one [as_poll] ends *)
Inductive poll_outcome : Type :=
| PollReturns (r : Z) (s : server_context) (calls : list call)
| PollAborts (s : server_context) (calls : list call)
| PollRunning (s : server_context) (calls : list call).   (* the loop bound ran out *)

(** the callbacks made by the time a dispatch ends *)
Definition calls_of (o : poll_outcome) : list call :=
  match o with
  | PollReturns _ _ calls => calls
  | PollAborts _ calls => calls
  | PollRunning _ calls => calls
  end.

Section Dispatch.

(** the callbacks, by name: user code, free to change the server *)
Variable run_handler : nat -> context_arg -> Z -> server_context -> server_context.

(** the loop [for (i = ...; i < server->polled->polled; i++)] of
    [as_poll], with at most [todo] iterations left *)
Fixpoint poll_clients (todo : nat) (i : nat) (s : server_context) (calls : list call)
  : poll_outcome :=
  if Z.of_nat i <? Pollfds.polled (polled s) then
    match todo with
    | O => PollRunning s calls
    | S todo' =>
        let e := Pollfds.slot (Pollfds.fds (polled s)) i in
        if Pollfds.revents e =? 0 then poll_clients todo' (S i) s calls
        else
          match htable_get (contexts s) (Pollfds.fd e) with
          | Some client =>
              match heap s !! client with
              | Some (BClient c) =>
                  let s' := run_handler (event_handler c) (OfClient client)
                              (Pollfds.revents e) s in
                  poll_clients todo' (S i) s'
                    (calls ++ [ClientCall i client (Pollfds.revents e)])
              | _ => PollAborts s calls
              end
          | None => PollAborts s calls
          end
    end
  else PollReturns 0 s calls.

(** [as_poll]. [result] and [observed] are what poll(2) answers;
    [bound] limits the iterations of the client loop. *)
Definition as_poll (bound : nat) (result : Z) (observed : nat -> Z) (s : server_context)
  : poll_outcome :=
  let '(poll_result, p) := Pollfds.poll_events result observed (polled s) in
  let s := with_polled s p in
  if poll_result <? 0 then PollReturns (-1) s []
  else
    let server_events := Pollfds.revents (Pollfds.slot (Pollfds.fds (polled s)) 0) in
    let '(s, calls) :=
      if server_events =? 0 then (s, [])
      else (run_handler (server_handler s) OfServer server_events s,
            [ListenerCall server_events]) in
    poll_clients bound 1 s calls.

End Dispatch.

End Server.

(** ** Invariants and the vocabulary of the properties *)

Module Inv.
Import CInt.

(** *** Registry *)

(** A registry as [create_pollfds], [add_event] and [remove_event]
    leave it: the count is within the capacity, the array has [length]
    slots, watched descriptors are valid ([add_event] asserts
    [fd >= 0]) and pairwise distinct. *)
Record wf_pollfds (p : Pollfds.pollfds) : Prop := mk_wf_pollfds {
  wf_polled : 0 <= Pollfds.polled p <= Pollfds.length p;
  wf_length : Pollfds.length p < UINT_MOD;
  wf_fds : Z.of_nat (length (Pollfds.fds p)) = Pollfds.length p;
  wf_valid : Forall (fun e => 0 <= Pollfds.fd e) (Pollfds.watched p);
  wf_unique : NoDup (Pollfds.fd <$> Pollfds.watched p)
}.

(** descriptor [d] is watched *)
Definition watches (p : Pollfds.pollfds) (d : Z) : Prop :=
  d ∈ (Pollfds.fd <$> Pollfds.watched p).

#[global] Instance watches_dec p d : Decision (watches p d).
Proof. unfold watches. apply _. Defined.

(** the watched entries carrying descriptor [d] *)
Definition entries_of (p : Pollfds.pollfds) (d : Z) : list Pollfds.pollfd :=
  filter (fun e => Pollfds.fd e = d) (Pollfds.watched p).

(** *** Circular buffer *)

(** the largest object the allocator can hand out *)
Definition PTRDIFF_MAX : Z := 2 ^ 63 - 1.

(** the unsigned difference [head - tail] *)
Definition used (b : Iobuff.io_buffer) : Z :=
  wrap64 (Iobuff.head b - Iobuff.tail b).

(** A buffer as [iobuff_alloc] creates it: the capacity is a power of
    two that an object can have, the storage has that many bytes, the
    cursors are [size_t] values. *)
Record wf_buffer (b : Iobuff.io_buffer) : Prop := mk_wf_buffer {
  wf_pow2 : exists k, 0 <= k <= 62 /\ Iobuff.size b = 2 ^ k;
  wf_storage : Z.of_nat (length (Iobuff.buffer b)) = Iobuff.size b;
  wf_head : 0 <= Iobuff.head b < SIZE_MOD;
  wf_tail : 0 <= Iobuff.tail b < SIZE_MOD
}.

(** the cursor invariant: [head - tail], unsigned, lies in [0, C] *)
Definition cursors_ok (b : Iobuff.io_buffer) : Prop :=
  0 <= used b <= Iobuff.size b.

(** one operation on a buffer, with what the environment answers *)
Inductive op : Type :=
| Append (re : Iobuff.realloc_result) (data : list byte) (can_reallocate : bool)
| Drain (calloc_ok : bool) (sent : Z).

Definition run_op (o : op) (b : Iobuff.io_buffer) : Iobuff.io_buffer :=
  match o with
  | Append re data can_reallocate =>
      snd (Iobuff.iobuff_append re b data (Z.of_nat (length data)) can_reallocate)
  | Drain calloc_ok sent => Iobuff.after (Iobuff.iobuff_send calloc_ok sent b)
  end.

Definition run_ops (ops : list op) (b : Iobuff.io_buffer) : Iobuff.io_buffer :=
  foldl (fun b o => run_op o b) b ops.

(** [iobuff_append] reaches its [realloc] *)
Definition grows (b : Iobuff.io_buffer) (len : Z) (can_reallocate : bool) : bool :=
  negb ((len =? 0) || Iobuff.iobuff_full b)
  && (wrap64 (Iobuff.iobuff_space b) <? len) && can_reallocate.

(** What the environment may answer.
    - the data appended is an object: at most [PTRDIFF_MAX] bytes;
    - a block handed out by [realloc] has between 1 and [PTRDIFF_MAX]
      bytes;
    - [send] reports failure or at most the number of bytes it was
      given. *)
Definition op_ok (o : op) (b : Iobuff.io_buffer) : Prop :=
  match o with
  | Append re data can_reallocate =>
      let len := Z.of_nat (length data) in
      len <= PTRDIFF_MAX /\
      (grows b len can_reallocate = true ->
       match re with
       | Iobuff.ReallocNull => True
       | Iobuff.ReallocBlock _ =>
           0 < Iobuff.size_roundup (wrap64 (Iobuff.size b + len)) <= PTRDIFF_MAX
       end)
  | Drain _ sent => sent <= used b
  end.

Fixpoint ops_ok (ops : list op) (b : Iobuff.io_buffer) : Prop :=
  match ops with
  | [] => True
  | o :: ops => op_ok o b /\ ops_ok ops (run_op o b)
  end.

(** *** Dispatch *)

(** client callbacks in strictly increasing slot order, none below
    slot [lo], none for an empty observed mask *)
Fixpoint client_calls_from (lo : nat) (calls : list Server.call) : Prop :=
  match calls with
  | [] => True
  | Server.ClientCall i _ ev :: rest =>
      (lo <= i)%nat /\ ev <> 0 /\ client_calls_from (S i) rest
  | Server.ListenerCall _ :: _ => False
  end.

(** at most one listener callback, ahead of every client callback *)
Definition dispatch_order (calls : list Server.call) : Prop :=
  match calls with
  | Server.ListenerCall ev :: rest => ev <> 0 /\ client_calls_from 1 rest
  | _ => client_calls_from 1 calls
  end.

(** the callbacks keep the watched count between 0 and [bound], as
    [add_event] and [remove_event] do for the capacity *)
Definition handlers_bounded
    (run_handler : nat -> Server.context_arg -> Z -> Server.server_context -> Server.server_context)
    (bound : Z) : Prop :=
  forall h a ev s,
    0 <= Pollfds.polled (Server.polled s) <= bound ->
    0 <= Pollfds.polled (Server.polled (run_handler h a ev s)) <= bound.

(** every client callback recorded is for a slot below [i] *)
Definition slots_below (i : nat) (calls : list Server.call) : Prop :=
  Forall (fun c => match c with
                   | Server.ClientCall j _ _ => (j < i)%nat
                   | Server.ListenerCall _ => True
                   end) calls.

End Inv.

(** ** Concrete registries, buffers and servers used below *)

Module Examples.

(** a registry of capacity 1 after [create_pollfds] and one [add_event] *)
Definition one_slot : Pollfds.pollfds :=
  Pollfds.mk_pollfds [Pollfds.cleared] 0 1 (-1).
Definition one_slot_full : Pollfds.pollfds :=
  snd (Pollfds.add_event one_slot 5 Server.POLLIN).

(** four watched descriptors in a registry of capacity 6 *)
Definition four_of_six : Pollfds.pollfds :=
  Pollfds.mk_pollfds
    [Pollfds.mk_pollfd 3 3 0; Pollfds.mk_pollfd 5 21 1;
     Pollfds.mk_pollfd 6 21 4; Pollfds.mk_pollfd 7 21 0;
     Pollfds.cleared; Pollfds.cleared] 4 6 (-1).

(** a buffer of capacity 4: as allocated; after "ab" was appended and
    sent; after "cdef" was appended next, which fills it across the end
    of the storage *)
Definition ring4_fresh : Iobuff.io_buffer :=
  Iobuff.mk_io_buffer [x00; x00; x00; x00] 4 0 0.
Definition ring4_drained : Iobuff.io_buffer :=
  Iobuff.mk_io_buffer ["a"; "b"; x00; x00]%byte 4 2 2.
Definition ring4_wrapped : Iobuff.io_buffer :=
  Iobuff.mk_io_buffer ["e"; "f"; "c"; "d"]%byte 4 6 2.

(** a buffer of capacity 4 after "xyz" was appended and sent and "dab"
    appended: the pending bytes "dab" sit at indices 3, 0, 1 *)
Definition ring4_three : Iobuff.io_buffer :=
  Iobuff.mk_io_buffer ["a"; "b"; "z"; "d"]%byte 4 6 3.

(** a buffer of capacity 8 whose [head] has wrapped past [2^64] and
    whose [tail] has not: three bytes pending, five free *)
Definition ring8_overflowed : Iobuff.io_buffer :=
  Iobuff.mk_io_buffer ["a"; "b"; "c"; "d"; "e"; "f"; "g"; "h"]%byte 8 1 (2 ^ 64 - 2).

(** a server as [as_bind] leaves it: listener descriptor 3 in slot 0 of
    a registry of [MAX_CLIENTS] slots, no connection *)
Definition empty_registry : Pollfds.pollfds :=
  Pollfds.mk_pollfds (replicate (Z.to_nat Server.MAX_CLIENTS) Pollfds.cleared)
    0 Server.MAX_CLIENTS (-1).
Definition listening : Server.server_context :=
  Server.mk_server_context 3
    (snd (Pollfds.add_event empty_registry 3 (Z.lor Server.POLLIN Server.POLLPRI)))
    ∅ 0 ∅ {[3]}.

(** one [as_accept] in which everything succeeds: descriptor 5, the
    context at address 0, its buffers at 1 and 2 *)
Definition accept_ok : Server.accept_env :=
  Server.mk_accept_env (Some 0%nat) 5 0 0 true (Some 1%nat) (Some 2%nat).
(** the same, but [htable_insert] fails *)
Definition accept_insert_fails : Server.accept_env :=
  Server.mk_accept_env (Some 0%nat) 5 0 0 false (Some 1%nat) (Some 2%nat).
(** the same, but the input buffer cannot be allocated *)
Definition accept_input_fails : Server.accept_env :=
  Server.mk_accept_env (Some 0%nat) 5 0 0 true None (Some 2%nat).
(** the same, but the output buffer cannot be allocated *)
Definition accept_output_fails : Server.accept_env :=
  Server.mk_accept_env (Some 0%nat) 5 0 0 true (Some 1%nat) None.

(** the server with the one connection accepted (callback 7) *)
Definition connected : Server.server_context :=
  Server.final (Server.as_accept accept_ok 7 listening).

(** a second connection: descriptor 6, context at 3, buffers at 4 and 5 *)
Definition accept_second : Server.accept_env :=
  Server.mk_accept_env (Some 3%nat) 6 0 0 true (Some 4%nat) (Some 5%nat).
Definition two_connected : Server.server_context :=
  Server.final (Server.as_accept accept_second 7 connected).

(** callbacks: callback 7 disconnects the client it is called for, every
    other callback leaves the server alone *)
Definition hangup_handler (h : nat) (a : Server.context_arg) (ev : Z)
    (s : Server.server_context) : Server.server_context :=
  match h, a with
  | 7%nat, Server.OfClient client => Server.final (Server.as_disconnect s client)
  | _, _ => s
  end.

(** what poll(2) observes: the listener and both clients are ready *)
Definition all_ready (i : nat) : Z :=
  match i with
  | 0%nat => Server.POLLIN
  | 1%nat => Server.POLLIN
  | 2%nat => Server.POLLOUT
  | _ => 0
  end.

(** callbacks that leave the server alone *)
Definition idle_handler (h : nat) (a : Server.context_arg) (ev : Z)
    (s : Server.server_context) : Server.server_context := s.

End Examples.

(** ** Hash-table keys: [client_hash], [client_compare] *)

Module Keys.
Import CInt.

Definition INT_MIN : Z := - 2 ^ 31.
Definition INT_MAX : Z := 2 ^ 31 - 1.

(** [client_hash]: [value - 4U] is evaluated on [unsigned int] (the [int]
    is converted first), the result is widened to [unsigned long] *)
Definition client_hash (value : Z) : Z := (value mod UINT_MOD - 4) mod UINT_MOD.

(** [client_compare]: [valueA - valueB] on [int]; a difference outside
    [int] is a signed overflow, undefined in C: [None] *)
Definition client_compare (valueA valueB : Z) : option Z :=
  let r := valueA - valueB in
  if (INT_MIN <=? r) && (r <=? INT_MAX) then Some r else None.

End Keys.

(** ** Address arithmetic of [client_alloc]: [align_ptr] *)

Module Layout.
Import CInt.

(** [align_ptr], on [uintptr_t] (64 bits) *)
Definition align_ptr (ptr bytes alignment : Z) : Z :=
  let raw_address := wrap64 (ptr + bytes) in
  let misalignment := Z.land raw_address (wrap64 (alignment - 1)) in
  if negb (misalignment =? 0) then
    let padding := wrap64 (alignment - misalignment) in
    wrap64 (raw_address + padding)
  else raw_address.

(** [sizeof] and [_Alignof] of the three structures; they depend on the
    platform and are parameters here *)
Record abi : Type := mk_abi {
  sizeof_client_context : Z;
  alignof_client_context : Z;
  sizeof_client_info : Z;
  alignof_client_info : Z;
  sizeof_io_buffer : Z;
  alignof_io_buffer : Z
}.

(** where [client_alloc] puts the parts of its chunk *)
Record partition : Type := mk_partition {
  mem_size : Z;       (* bytes asked of calloc *)
  client : Z;         (* the context, at the start of the chunk *)
  info : Z;           (* client->info *)
  input : Z;          (* client->input *)
  output : Z          (* client->output *)
}.

(** the partitioning of [client_alloc], for the chunk at address
    [mem_chunk] *)
Definition client_alloc_partition (a : abi) (mem_chunk : Z) : partition :=
  let mem_size := wrap64 (wrap64 (sizeof_client_context a + sizeof_client_info a)
                          + wrap64 (sizeof_io_buffer a * 2)) in
  let client := mem_chunk in
  let mem_chunk := align_ptr mem_chunk (sizeof_client_context a) (alignof_client_context a) in
  let info := mem_chunk in
  let mem_chunk := align_ptr mem_chunk (sizeof_client_info a) (alignof_client_info a) in
  let input := mem_chunk in
  let mem_chunk := align_ptr mem_chunk (sizeof_io_buffer a) (alignof_io_buffer a) in
  let output := mem_chunk in
  mk_partition mem_size client info input output.

End Layout.

(** ** The socket wrappers of [tcpserver.c] *)

Module Tcp.
Import CInt.

Definition AF_INET : Z := 2.
Definition INADDR_ANY : Z := 0.
Definition INVALID_FD : Z := -1.

(** [htons], [htonl], [ntohs]: a value in network byte order is kept as
    the bytes it occupies in memory, most significant first *)
Definition htons (hostshort : Z) : list Z :=
  let x := hostshort mod 2 ^ 16 in [x / 2 ^ 8; x mod 2 ^ 8].
Definition htonl (hostlong : Z) : list Z :=
  let x := hostlong mod 2 ^ 32 in
  [x / 2 ^ 24; (x / 2 ^ 16) mod 2 ^ 8; (x / 2 ^ 8) mod 2 ^ 8; x mod 2 ^ 8].
Definition ntohs (netshort : list Z) : Z :=
  match netshort with
  | [hi; lo] => hi * 2 ^ 8 + lo
  | _ => 0
  end.

(** [struct sockaddr_in] *)
Record sockaddr_in : Type := mk_sockaddr_in {
  sin_family : Z;
  sin_port : list Z;      (* two bytes, network order *)
  sin_addr : list Z       (* s_addr: four bytes, network order *)
}.

(** [memset] of the whole [sockaddr_in] to zero *)
Definition zeroed : sockaddr_in := mk_sockaddr_in 0 [0; 0] [0; 0; 0; 0].

(** what [sscanf(ipv4, "%u.%u.%u.%u:%u%n", ...)] returned and left in the
    variables it was given *)
Record scan_full : Type := mk_scan_full {
  full_result : Z;
  octA : Z; octB : Z; octC : Z; octD : Z;
  full_port : Z;
  full_length : Z
}.

(** the same for [sscanf(ipv4, "%u%n", &port, &length)] *)
Record scan_port : Type := mk_scan_port {
  port_result : Z;
  bare_port : Z;
  port_length : Z
}.

(** [parse_address]: the [int] returned and [*saddr]. The shifts and the
    bitwise or are on [unsigned int]. *)
Definition parse_address (first : scan_full) (second : scan_port) : Z * sockaddr_in :=
  let saddr := mk_sockaddr_in AF_INET (sin_port zeroed) (sin_addr zeroed) in
  if full_result first =? 5 then
    let s_addr :=
      Z.lor (Z.lor (Z.lor (Z.shiftl (octA first) 24 mod UINT_MOD)
                          (Z.shiftl (octB first) 16 mod UINT_MOD))
                   (Z.shiftl (octC first) 8 mod UINT_MOD))
            (octD first) in
    (full_length first,
     mk_sockaddr_in (sin_family saddr) (htons (full_port first)) (htonl s_addr))
  else if port_result second =? 1 then
    (port_length second,
     mk_sockaddr_in (sin_family saddr) (htons (bare_port second)) (htonl INADDR_ANY))
  else (-1, saddr).

(** [struct server_info] *)
Record server_info : Type := mk_server_info {
  fd : Z;
  addr : sockaddr_in
}.

(** what the system answers during one [server_bind] *)
Record bind_env : Type := mk_bind_env {
  socket_result : Z;          (* socket(2): a descriptor, or -1 *)
  setsockopt_result : Z;      (* setsockopt(2) *)
  scanned_full : scan_full;   (* the first sscanf of parse_address *)
  scanned_port : scan_port;   (* the second one *)
  bind_result : Z;            (* bind(2) *)
  listen_result : Z           (* listen(2) *)
}.

(** the label [close_socket] of [server_bind] *)
Definition close_socket (retval : Z) (server : server_info) (sockets : gset Z)
  : Z * server_info * gset Z :=
  (retval, mk_server_info INVALID_FD (addr server), sockets ∖ {[fd server]}).

(** [server_bind]: the [int] returned, [*server] and the open
    descriptors afterwards *)
Definition server_bind (env : bind_env) (server : server_info) (sockets : gset Z)
  : Z * server_info * gset Z :=
  let server := mk_server_info (socket_result env) (addr server) in
  if fd server <? 0 then (-1, server, sockets)
  else
    let sockets := {[fd server]} ∪ sockets in
    if setsockopt_result env <? 0 then close_socket (-1) server sockets
    else
      let '(parsed, server_addr) := parse_address (scanned_full env) (scanned_port env) in
      if parsed <? 0 then close_socket (-1) server sockets
      else if bind_result env <? 0 then close_socket (-1) server sockets
      else
        let server := mk_server_info (fd server) server_addr in
        if listen_result env <? 0 then close_socket (-1) server sockets
        else (0, server, sockets).

(** [server_close]: [close_result] is what close(2) returns *)
Definition server_close (close_result : Z) (server : server_info) (sockets : gset Z)
  : server_info * gset Z :=
  if close_result <? 0 then (server, sockets)
  else (mk_server_info INVALID_FD (addr server), sockets ∖ {[fd server]}).

(** [get_port] *)
Definition get_port (server : server_info) : Z := ntohs (sin_port (addr server)).

End Tcp.

(** ** [as_bind] and [as_cleanup] *)

Module Lifecycle.
Import CInt.

(** the server structure where the registry and the table can be NULL *)
Record server : Type := mk_server {
  info : Tcp.server_info;
  polled : option Pollfds.pollfds;
  contexts : option (gmap Z nat)
}.

(** what the collaborators answer during one [as_bind] *)
Record bind_env : Type := mk_bind_env {
  htable_ok : bool;           (* htable_create *)
  malloc_ok : bool;           (* malloc in create_pollfds *)
  calloc_ok : bool;           (* calloc in create_pollfds *)
  tcp : Tcp.bind_env;         (* server_bind *)
  getfl : Z;                  (* fcntl(F_GETFL) *)
  setfl : Z                   (* fcntl(F_SETFL) *)
}.

(** the labels of [as_bind] *)
Definition error_poll (retvalue : Z) (s : server) (sockets : gset Z)
  : Z * server * gset Z :=
  (retvalue, mk_server (info s) (polled s) None, sockets).
Definition error_server (retvalue : Z) (s : server) (sockets : gset Z)
  : Z * server * gset Z :=
  error_poll retvalue (mk_server (info s) None (contexts s)) sockets.

(** [as_bind]: the [int] returned, [*server] and the open descriptors
    afterwards. Modelled from the spec: [htable_create] gives an empty
    table or NULL. *)
Definition as_bind (env : bind_env) (s : server) (sockets : gset Z)
  : Z * server * gset Z :=
  let retvalue := 0 in
  if negb (htable_ok env) then (-1, mk_server (info s) (polled s) None, sockets)
  else
    let s := mk_server (info s) (polled s) (Some ∅) in
    match Pollfds.create_pollfds (malloc_ok env) (calloc_ok env) Server.MAX_CLIENTS with
    | None => error_poll (-1) (mk_server (info s) None (contexts s)) sockets
    | Some p =>
        let s := mk_server (info s) (Some p) (contexts s) in
        let '(r, i, sockets) := Tcp.server_bind (tcp env) (info s) sockets in
        let s := mk_server i (polled s) (contexts s) in
        if r <? 0 then error_server (-1) s sockets
        else if getfl env <? 0 then error_server retvalue s sockets
        else if setfl env <? 0 then error_server retvalue s sockets
        else
          let '(r, p) := Pollfds.add_event p (Tcp.fd (info s))
                           (Z.lor Server.POLLIN Server.POLLPRI) in
          let s := mk_server (info s) (Some p) (contexts s) in
          if r <? 0 then error_server retvalue s sockets
          else (0, s, sockets)
    end.

(** [as_cleanup]: the descriptors still open afterwards. The registry
    and the table are released; the structure keeps its pointers. *)
Definition as_cleanup (s : server) (sockets : gset Z) : gset Z :=
  match polled s with
  | Some p =>
      foldl (fun open i => open ∖ {[Pollfds.fd (Pollfds.slot (Pollfds.fds p) i)]})
            sockets (seq 0 (Z.to_nat (Pollfds.polled p)))
  | None => sockets
  end.

End Lifecycle.

(** ** Sequences of registry operations *)

Module Registry.
Import CInt.

(** one call on a registry, with what poll(2) answers *)
Inductive reg_op : Type :=
| Add (d : Z) (events : Z)
| Remove (d : Z)
| Poll (result : Z) (observed : nat -> Z)
| SetTimeout (t : Z).

Definition run_reg_op (o : reg_op) (p : Pollfds.pollfds) : Pollfds.pollfds :=
  match o with
  | Add d events => snd (Pollfds.add_event p d events)
  | Remove d => Pollfds.remove_event p d
  | Poll result observed => snd (Pollfds.poll_events result observed p)
  | SetTimeout t => Pollfds.set_timeout p t
  end.

Definition run_reg_ops (ops : list reg_op) (p : Pollfds.pollfds) : Pollfds.pollfds :=
  foldl (fun p o => run_reg_op o p) p ops.

(** the [assert (fd >= 0)] of [add_event] *)
Definition reg_op_ok (o : reg_op) : Prop :=
  match o with
  | Add d _ => 0 <= d
  | _ => True
  end.

(** the slots past the watched ones hold no descriptor *)
Definition spare_invalid (p : Pollfds.pollfds) : Prop :=
  forall i : nat, Pollfds.polled p <= Z.of_nat i < Pollfds.length p ->
                  Pollfds.fd (Pollfds.slot (Pollfds.fds p) i) < 0.

End Registry.

(** ** Connections *)

Module Connections.

(** the buffer [as_accept] gives a connection: [iobuff_alloc(BUFFER_SIZE)] *)
Definition fresh_buffer : Iobuff.io_buffer :=
  Iobuff.mk_io_buffer (replicate (Z.to_nat Server.BUFFER_SIZE) x00) Server.BUFFER_SIZE 0 0.

(** the mask [as_accept] registers: POLLIN | POLLOUT | POLLHUP *)
Definition client_events : Z :=
  Z.lor (Z.lor Server.POLLIN Server.POLLOUT) Server.POLLHUP.

(** address [p] holds a client context *)
Definition is_client (s : Server.server_context) (p : nat) : Prop :=
  exists c, Server.heap s !! p = Some (Server.BClient c).

(** every watched slot after the listener's has its descriptor in the
    table, mapped to a live client context *)
Definition registered (s : Server.server_context) : Prop :=
  forall i : nat,
    1 <= Z.of_nat i < Pollfds.polled (Server.polled s) ->
    exists client,
      Server.htable_get (Server.contexts s)
        (Pollfds.fd (Pollfds.slot (Pollfds.fds (Server.polled s)) i)) = Some client /\
      is_client s client.

(** callbacks that leave the registry and the table alone and free no
    client context *)
Definition quiet
    (run_handler : nat -> Server.context_arg -> Z -> Server.server_context
                   -> Server.server_context) : Prop :=
  forall h a ev s,
    Server.polled (run_handler h a ev s) = Server.polled s /\
    Server.contexts (run_handler h a ev s) = Server.contexts s /\
    forall p, is_client s p -> is_client (run_handler h a ev s) p.

(** a client callback, as opposed to the listener's *)
Definition is_client_call (c : Server.call) : Prop :=
  match c with
  | Server.ClientCall _ _ _ => True
  | Server.ListenerCall _ => False
  end.

(** the contexts called back, in the order of the calls *)
Definition called_clients (calls : list Server.call) : list nat :=
  omap (fun c => match c with
                 | Server.ClientCall _ client _ => Some client
                 | Server.ListenerCall _ => None
                 end) calls.

(** distinct descriptors have distinct contexts in the table *)
Definition table_injective (t : gmap Z nat) : Prop :=
  forall d1 d2 client,
    Server.htable_get t d1 = Some client -> Server.htable_get t d2 = Some client -> d1 = d2.

End Connections.

(** ** The buffer as a queue, and its raw pointers *)

Module Queue.
Import CInt.

(** [iobuff_headptr] and [iobuff_tailptr]: the byte offset, from the
    start of the storage, of the pointer returned *)
Definition iobuff_headptr (b : Iobuff.io_buffer) : Z := Iobuff.head b.
Definition iobuff_tailptr (b : Iobuff.io_buffer) : Z := Iobuff.tail b.

(** operations that neither grow the buffer nor lack the temporary
    region of [iobuff_send] *)
Definition plain (o : Inv.op) : Prop :=
  match o with
  | Inv.Append _ _ can_reallocate => can_reallocate = false
  | Inv.Drain calloc_ok _ => calloc_ok = true
  end.

(** a queue of bytes bounded by [capacity]: appending keeps what fits,
    draining drops from the front *)
Definition queue_step (capacity : Z) (q : list byte) (o : Inv.op) : list byte :=
  match o with
  | Inv.Append _ data _ => q ++ take (Z.to_nat (capacity - Z.of_nat (length q))) data
  | Inv.Drain _ sent => drop (Z.to_nat sent) q
  end.

Definition queue_run (capacity : Z) (ops : list Inv.op) (q : list byte) : list byte :=
  foldl (queue_step capacity) q ops.

End Queue.

(** ** The buffer together with the place of its storage *)

Module Placed.
Import CInt.

(** where [buffer->buffer] points *)
Inductive storage : Type :=
| InHeader      (* just behind the header, inside the header's block:
                   what [iobuff_alloc] sets up *)
| OwnBlock.     (* a block of its own, as [realloc] returns one *)

(** [struct io_buffer] with the place of its storage *)
Record io_buffer : Type := mk_io_buffer {
  storage_at : storage;
  ring : Iobuff.io_buffer
}.

(** [iobuff_alloc]: one [calloc] for header and storage,
    [buffer->buffer] is set to the address behind the header *)
Definition iobuff_alloc (calloc_ok : bool) (size : Z) : option io_buffer :=
  match Iobuff.iobuff_alloc calloc_ok size with
  | Some b => Some (mk_io_buffer InHeader b)
  | None => None
  end.

(** a call returns, or it does not: [realloc] of a pointer that no
    allocation returned is undefined, and the allocator stops the
    process *)
Inductive outcome : Type :=
| Returns (n : Z) (b : io_buffer)
| Aborts.

(** [iobuff_append] *)
Definition iobuff_append (re : Iobuff.realloc_result) (pb : io_buffer)
    (data : list byte) (length : Z) (can_reallocate : bool) : outcome :=
  let b := ring pb in
  if (length =? 0) || Iobuff.iobuff_full b then Returns 0 pb
  else
    let free_space := wrap64 (Iobuff.iobuff_space b) in
    if (free_space <? length) && can_reallocate then
      let new_size := wrap64 (Iobuff.size b + length) in
      let new_size := Iobuff.size_roundup new_size in
      (* realloc(buffer->buffer, new_size) *)
      match storage_at pb with
      | InHeader => Aborts
      | OwnBlock =>
          match re with
          | Iobuff.ReallocNull => Returns 0 pb
          | Iobuff.ReallocBlock fresh =>
              let r := Iobuff.append_copy (Iobuff.regrown b new_size fresh) data length in
              Returns (fst r) (mk_io_buffer OwnBlock (snd r))
          end
      end
    else
      let r := Iobuff.append_copy b data length in
      Returns (fst r) (mk_io_buffer (storage_at pb) (snd r)).
(* after a successful [realloc] the code also recomputes
   [free_space = size - (head - tail)]; the value is not used again *)

(** [iobuff_send]: the storage pointer is only read *)
Definition iobuff_send (calloc_ok : bool) (sent : Z) (pb : io_buffer)
  : Iobuff.send_outcome * io_buffer :=
  let o := Iobuff.iobuff_send calloc_ok sent (ring pb) in
  (o, mk_io_buffer (storage_at pb) (Iobuff.after o)).

(** one operation; [None] when the call does not return *)
Definition run_op (o : Inv.op) (pb : io_buffer) : option io_buffer :=
  match o with
  | Inv.Append re data can_reallocate =>
      match iobuff_append re pb data (Z.of_nat (length data)) can_reallocate with
      | Returns _ pb' => Some pb'
      | Aborts => None
      end
  | Inv.Drain calloc_ok sent => Some (snd (iobuff_send calloc_ok sent pb))
  end.

Fixpoint run_ops (ops : list Inv.op) (pb : io_buffer) : option io_buffer :=
  match ops with
  | [] => Some pb
  | o :: ops =>
      match run_op o pb with
      | Some pb' => run_ops ops pb'
      | None => None
      end
  end.

(** what the environment may answer, at every step that is reached *)
Fixpoint ops_ok (ops : list Inv.op) (pb : io_buffer) : Prop :=
  match ops with
  | [] => True
  | o :: ops =>
      Inv.op_ok o (ring pb) /\
      match run_op o pb with
      | Some pb' => ops_ok ops pb'
      | None => True
      end
  end.

(** the operation asks for no growth *)
Definition no_growth (o : Inv.op) : Prop :=
  match o with
  | Inv.Append _ _ can_reallocate => can_reallocate = false
  | Inv.Drain _ _ => True
  end.

(** the operation reaches the [realloc] of [iobuff_append] *)
Definition reaches_realloc (o : Inv.op) (pb : io_buffer) : bool :=
  match o with
  | Inv.Append _ data can_reallocate =>
      Inv.grows (ring pb) (Z.of_nat (length data)) can_reallocate
  | Inv.Drain _ _ => false
  end.

End Placed.

(** ** Further concrete inputs *)

Module Scenarios.

(** a registry of capacity 2 as [create_pollfds] returns it *)
Definition two_slots : Pollfds.pollfds :=
  Pollfds.mk_pollfds [Pollfds.cleared; Pollfds.cleared] 0 2 (-1).

(** the scans of "127.0.0.1:9000": five fields and 14 characters, or
    the bare number 127 and 3 characters *)
Definition loopback_full : Tcp.scan_full := Tcp.mk_scan_full 5 127 0 0 1 9000 14.
Definition loopback_port : Tcp.scan_port := Tcp.mk_scan_port 1 127 3.

(** every call of [server_bind] succeeds and [socket] returns 3 *)
Definition bind_ok : Tcp.bind_env :=
  Tcp.mk_bind_env 3 0 loopback_full loopback_port 0 0.

(** a server structure before [server_bind] *)
Definition unbound : Tcp.server_info := Tcp.mk_server_info 0 Tcp.zeroed.

(** every step of [as_bind] succeeds *)
Definition bound_env : Lifecycle.bind_env :=
  Lifecycle.mk_bind_env true true true bind_ok 2 0.

(** [fcntl (F_SETFL)] fails after a successful [server_bind] *)
Definition setfl_fails : Lifecycle.bind_env :=
  Lifecycle.mk_bind_env true true true bind_ok 2 (-1).

(** a server structure before [as_bind] *)
Definition fresh_server : Lifecycle.server := Lifecycle.mk_server unbound None None.

(** a client callback that takes its descriptor out of the registry,
    registers it again for POLLIN and polls once more: [remove_event],
    [add_event], [poll_events] on [server->polled]; the second poll
    reports POLLIN for every watched descriptor *)
Definition requeue_handler (h : nat) (a : Server.context_arg) (ev : Z)
    (s : Server.server_context) : Server.server_context :=
  match a with
  | Server.OfClient client =>
      match Server.heap s !! client with
      | Some (Server.BClient c) =>
          let p := Pollfds.remove_event (Server.polled s) (Server.info_fd c) in
          let p := snd (Pollfds.add_event p (Server.info_fd c) Server.POLLIN) in
          let p := snd (Pollfds.poll_events 1 (fun _ => Server.POLLIN) p) in
          Server.with_polled s p
      | _ => s
      end
  | Server.OfServer => s
  end.

(** the buffer [iobuff_alloc(4)] returns, and the same bytes and
    cursors with the storage in a block of its own *)
Definition alloc4 : Placed.io_buffer :=
  Placed.mk_io_buffer Placed.InHeader Examples.ring4_fresh.
Definition own4_ab : Placed.io_buffer :=
  Placed.mk_io_buffer Placed.OwnBlock
    (Iobuff.mk_io_buffer ["a"; "b"; x00; x00]%byte 4 2 0).
Definition alloc4_ab : Placed.io_buffer :=
  Placed.mk_io_buffer Placed.InHeader
    (Iobuff.mk_io_buffer ["a"; "b"; x00; x00]%byte 4 2 0).

(** an [as_accept] in which [fcntl (F_GETFL)] fails on descriptor 5 *)
Definition accept_getfl_fails : Server.accept_env :=
  Server.mk_accept_env (Some 0%nat) 5 (-1) 0 true (Some 1%nat) (Some 2%nat).

End Scenarios.

(** * Properties *)

(** ** The registry *)

Module PollfdsFacts.
Import CInt Inv.

Lemma slot_lookup l i e : l !! i = Some e -> Pollfds.slot l i = e.
Proof. unfold Pollfds.slot. intros ->. reflexivity. Qed.

Lemma slot_lt l (i : nat) : (i < length l)%nat -> l !! i = Some (Pollfds.slot l i).
Proof.
  intros H. destruct (lookup_lt_is_Some_2 l i H) as [e He].
  rewrite He. f_equal. symmetry. by apply slot_lookup.
Qed.

(** where the scan stops *)
Lemma find_fd_spec l d todo : forall i,
  let r := Pollfds.find_fd l d i todo in
  (i <= r <= i + todo)%nat /\
  (forall j, (i <= j < r)%nat -> Pollfds.fd (Pollfds.slot l j) <> d) /\
  ((r < i + todo)%nat -> Pollfds.fd (Pollfds.slot l r) = d).
Proof.
  induction todo as [|todo IH]; intros i; simpl.
  - repeat split; lia.
  - destruct (Z.eqb_spec (Pollfds.fd (Pollfds.slot l i)) d) as [E|E].
    + repeat split; try lia; auto.
    + destruct (IH (S i)) as (Hr & Hbefore & Hat).
      repeat split; try lia.
      intros j Hj. destruct (decide (j = i)) as [->|]; [done|].
      apply Hbefore. lia.
Qed.

(** the packing loop once it is past the cleared slot: every slot it
    meets is live and moves one place down *)
Lemma pack_shift todo : forall l desc_idx,
  (S desc_idx + todo <= length l)%nat ->
  (forall j, (S desc_idx <= j < S desc_idx + todo)%nat ->
             0 <= Pollfds.fd (Pollfds.slot l j)) ->
  let l' := Pollfds.pack l (S desc_idx) desc_idx todo in
  length l' = length l /\
  (forall j, (j < desc_idx)%nat -> l' !! j = l !! j) /\
  (forall j, (desc_idx <= j < desc_idx + todo)%nat -> l' !! j = l !! S j) /\
  (forall j, (desc_idx + todo < j)%nat -> l' !! j = l !! j).
Proof.
  induction todo as [|todo IH]; intros l desc_idx Hlen Hlive; simpl.
  - repeat split; auto; lia.
  - destruct (Z.ltb_spec (Pollfds.fd (Pollfds.slot l (S desc_idx))) 0) as [E|E].
    { specialize (Hlive (S desc_idx)). lia. }
    set (l1 := <[desc_idx := Pollfds.slot l (S desc_idx)]> l).
    set (l2 := Pollfds.set_fd l1 (S desc_idx) (-1)).
    assert (Hlen1 : length l1 = length l) by apply length_insert.
    assert (Hlen2 : length l2 = length l).
    { unfold l2, Pollfds.set_fd. by rewrite length_insert. }
    assert (Hl2 : forall j, j <> S desc_idx -> l2 !! j = l1 !! j).
    { intros j Hj. unfold l2, Pollfds.set_fd. by rewrite list_lookup_insert_ne. }
    destruct (IH l2 (S desc_idx)) as (Hl & Hlo & Hmid & Hhi).
    { lia. }
    { intros j Hj. unfold Pollfds.slot. rewrite Hl2 by lia.
      unfold l1. rewrite list_lookup_insert_ne by lia. apply Hlive. lia. }
    repeat split.
    + lia.
    + intros j Hj. rewrite Hlo by lia. rewrite Hl2 by lia.
      unfold l1. by rewrite list_lookup_insert_ne by lia.
    + intros j Hj. destruct (decide (j = desc_idx)) as [->|Hne].
      * rewrite Hlo by lia. rewrite Hl2 by lia. unfold l1.
        rewrite list_lookup_insert_eq by lia. symmetry. apply slot_lt. lia.
      * rewrite Hmid by lia. rewrite Hl2 by lia. unfold l1.
        by rewrite list_lookup_insert_ne by lia.
    + intros j Hj. rewrite Hhi by lia. rewrite Hl2 by lia. unfold l1.
      by rewrite list_lookup_insert_ne by lia.
Qed.


Lemma watched_lookup p (j : nat) :
  (Z.of_nat j < Pollfds.polled p) ->
  Pollfds.watched p !! j = Pollfds.fds p !! j.
Proof. intros H. unfold Pollfds.watched. apply lookup_take_lt. lia. Qed.

Lemma watched_length p :
  wf_pollfds p -> length (Pollfds.watched p) = Z.to_nat (Pollfds.polled p).
Proof.
  intros [H1 H2 H3 _ _]. unfold Pollfds.watched. rewrite length_take. lia.
Qed.

(** a watched descriptor is where the scan stops, and the scan stops at
    its first occurrence *)
Lemma find_fd_watched p d :
  wf_pollfds p -> watches p d ->
  let r := Pollfds.find_fd (Pollfds.fds p) d 0 (Z.to_nat (Pollfds.polled p)) in
  (r < Z.to_nat (Pollfds.polled p))%nat /\
  exists e, Pollfds.watched p !! r = Some e /\ Pollfds.fd e = d /\
            Pollfds.slot (Pollfds.fds p) r = e.
Proof.
  intros Hwf Hw r.
  destruct (find_fd_spec (Pollfds.fds p) d (Z.to_nat (Pollfds.polled p)) 0%nat)
    as (Hr & Hbefore & Hat). fold r in Hr, Hbefore, Hat.
  apply list_elem_of_fmap in Hw as (e & -> & He).
  apply list_elem_of_lookup in He as (i & Hi).
  pose proof (lookup_lt_Some _ _ _ Hi) as Hilt.
  rewrite watched_length in Hilt by done.
  assert (Hfi : Pollfds.fds p !! i = Some e).
  { rewrite <- watched_lookup by lia. done. }
  assert (Hrlt : (r < Z.to_nat (Pollfds.polled p))%nat).
  { destruct (decide (r < Z.to_nat (Pollfds.polled p))%nat) as [|Hge]; [done|].
    exfalso. apply (Hbefore i); [lia|]. by rewrite (slot_lookup _ _ _ Hfi). }
  split; [done|].
  exists (Pollfds.slot (Pollfds.fds p) r). repeat split.
  - rewrite watched_lookup by lia. apply slot_lt.
    destruct Hwf as [? ? ? _ _]. lia.
  - apply Hat. lia.
Qed.

(** an unwatched descriptor sends the scan to the bound *)
Lemma find_fd_unwatched p d :
  wf_pollfds p -> ~ watches p d ->
  Pollfds.find_fd (Pollfds.fds p) d 0 (Z.to_nat (Pollfds.polled p))
  = Z.to_nat (Pollfds.polled p).
Proof.
  intros Hwf Hw.
  destruct (find_fd_spec (Pollfds.fds p) d (Z.to_nat (Pollfds.polled p)) 0%nat)
    as (Hr & Hbefore & Hat).
  set (r := Pollfds.find_fd _ _ _ _) in *.
  destruct (decide (r < Z.to_nat (Pollfds.polled p))%nat) as [Hlt|]; [|lia].
  exfalso. apply Hw. unfold watches.
  apply list_elem_of_fmap. exists (Pollfds.slot (Pollfds.fds p) r). split.
  - symmetry. apply Hat. lia.
  - apply list_elem_of_lookup. exists r. rewrite watched_lookup by lia.
    apply slot_lt. destruct Hwf as [? ? ? _ _]. lia.
Qed.

Lemma remove_event_unwatched p d :
  wf_pollfds p -> ~ watches p d -> Pollfds.remove_event p d = p.
Proof.
  intros Hwf Hw. unfold Pollfds.remove_event.
  destruct (Z.eqb_spec (Pollfds.polled p) 0); [done|].
  rewrite find_fd_unwatched by done.
  destruct Hwf as [? ? ? _ _].
  rewrite Z2Nat.id by lia. by rewrite Z.eqb_refl.
Qed.

Lemma remove_event_watched p d :
  wf_pollfds p -> watches p d ->
  exists (i : nat) e,
    Pollfds.watched p !! i = Some e /\ Pollfds.fd e = d /\
    Pollfds.polled (Pollfds.remove_event p d) = Pollfds.polled p - 1 /\
    Pollfds.watched (Pollfds.remove_event p d) = delete i (Pollfds.watched p) /\
    Pollfds.length (Pollfds.remove_event p d) = Pollfds.length p /\
    Pollfds.timeout (Pollfds.remove_event p d) = Pollfds.timeout p /\
    length (Pollfds.fds (Pollfds.remove_event p d)) = length (Pollfds.fds p).
Proof.
  intros Hwf Hw.
  destruct (find_fd_watched p d Hwf Hw) as (Hr & e & Hwe & Hfd & Hslot).
  pose proof Hwf as [Hpol Hlen Hfds Hvalid Hnodup].
  set (n := Z.to_nat (Pollfds.polled p)) in *.
  set (r := Pollfds.find_fd (Pollfds.fds p) d 0 n) in *.
  exists r, e. split; [done|]. split; [done|].
  unfold Pollfds.remove_event. fold n. fold r.
  destruct (Z.eqb_spec (Pollfds.polled p) 0) as [E|_]; [lia|].
  destruct (Z.eqb_spec (Z.of_nat r) (Pollfds.polled p)) as [E|_]; [lia|].
  simpl.
  assert (Hmod : (Pollfds.polled p - 1) mod UINT_MOD = Pollfds.polled p - 1).
  { apply Z.mod_small. lia. }
  rewrite Hmod.
  destruct (n - r)%nat as [|m] eqn:Hm; [lia|].
  set (l1 := <[r := Pollfds.cleared]> (Pollfds.fds p)).
  assert (Hlen1 : length l1 = length (Pollfds.fds p)) by apply length_insert.
  assert (Hcl : Pollfds.slot l1 r = Pollfds.cleared).
  { apply slot_lookup. unfold l1. apply list_lookup_insert_eq. lia. }
  simpl. rewrite Hcl. simpl.
  destruct (pack_shift m l1 r) as (Hl & Hlo & Hmid & _).
  { lia. }
  { intros j Hj. unfold Pollfds.slot, l1. rewrite list_lookup_insert_ne by lia.
    rewrite Forall_lookup in Hvalid.
    assert (Hj' : Pollfds.watched p !! j = Some (Pollfds.slot (Pollfds.fds p) j)).
    { rewrite watched_lookup by lia. apply slot_lt. lia. }
    apply (Hvalid _ _ Hj'). }
  repeat split; [|lia].
  unfold Pollfds.watched. simpl.
  apply list_eq. intros j.
  destruct (decide (j < n - 1)%nat) as [Hj|Hj].
  - rewrite lookup_take_lt by lia.
    destruct (decide (j < r)%nat) as [Hjr|Hjr].
    + rewrite list_lookup_delete_lt by done.
      rewrite lookup_take_lt by lia. rewrite Hlo by done.
      unfold l1. by rewrite list_lookup_insert_ne by lia.
    + rewrite list_lookup_delete_ge by lia.
      rewrite lookup_take_lt by lia. rewrite Hmid by lia.
      unfold l1. by rewrite list_lookup_insert_ne by lia.
  - rewrite lookup_take_ge by lia. symmetry.
    apply lookup_ge_None. rewrite length_delete.
    + rewrite length_take. lia.
    + rewrite lookup_take_lt by lia. apply lookup_lt_is_Some_2. lia.
Qed.


(** [remove_event] keeps a registry well formed *)
Lemma remove_event_wf p d : wf_pollfds p -> wf_pollfds (Pollfds.remove_event p d).
Proof.
  intros Hwf. destruct (decide (watches p d)) as [Hw|Hw].
  - destruct (remove_event_watched p d Hwf Hw)
      as (i & e & Hi & Hfd & Hpol & Hwat & Hlen & _ & Hfds).
    pose proof (lookup_lt_Some _ _ _ Hi) as Hilt.
    rewrite watched_length in Hilt by done.
    destruct Hwf as [H1 H2 H3 H4 H5].
    constructor; rewrite ?Hpol, ?Hlen, ?Hwat, ?Hfds; try lia.
    + by apply Forall_delete.
    + rewrite list_fmap_delete. eapply sublist_NoDup; [exact H5|apply sublist_delete].
  - by rewrite remove_event_unwatched.
Qed.

(** after [remove_event] the descriptor is not watched *)
Lemma remove_event_gone p d : wf_pollfds p -> ~ watches (Pollfds.remove_event p d) d.
Proof.
  intros Hwf. destruct (decide (watches p d)) as [Hw|Hw].
  - destruct (remove_event_watched p d Hwf Hw)
      as (i & e & Hi & Hfd & Hpol & Hwat & _).
    unfold watches. rewrite Hwat, list_fmap_delete.
    destruct Hwf as [_ _ _ _ Hnd].
    assert (Hi' : (Pollfds.fd <$> Pollfds.watched p) !! i = Some d).
    { rewrite list_lookup_fmap, Hi. simpl. by rewrite Hfd. }
    rewrite <- (take_drop_middle _ _ _ Hi') in Hnd.
    rewrite delete_take_drop.
    apply NoDup_app in Hnd as (_ & Hl & Hr).
    apply NoDup_cons in Hr as [Hr _].
    intros [Hin|Hin]%elem_of_app; [|done].
    apply (Hl _ Hin). by left.
  - by rewrite remove_event_unwatched.
Qed.

(** [remove_event] never raises the watched count *)
Lemma remove_event_polled_bound p d :
  0 <= Pollfds.polled p ->
  0 <= Pollfds.polled (Pollfds.remove_event p d) <= Pollfds.polled p.
Proof.
  intros Hp. unfold Pollfds.remove_event.
  destruct (Z.eqb_spec (Pollfds.polled p) 0); [lia|].
  destruct (find_fd_spec (Pollfds.fds p) d (Z.to_nat (Pollfds.polled p)) 0%nat)
    as (Hr & _ & _).
  destruct (Z.of_nat _ =? Pollfds.polled p); [lia|].
  cbn [Pollfds.polled]. unfold UINT_MOD.
  pose proof (Z.mod_pos_bound (Pollfds.polled p - 1) (2 ^ 32) ltac:(lia)).
  pose proof (Z.mod_le (Pollfds.polled p - 1) (2 ^ 32) ltac:(lia) ltac:(lia)).
  lia.
Qed.

(** a full registry refuses every [add_event], also an update *)
Lemma add_event_full p d ev :
  Pollfds.polled p = Pollfds.length p -> Pollfds.add_event p d ev = (-1, p).
Proof. intros H. unfold Pollfds.add_event. rewrite H. by rewrite Z.eqb_refl. Qed.

(** [add_event] on a watched descriptor of a registry with room *)
Lemma add_event_watched p d ev :
  wf_pollfds p -> Pollfds.polled p < Pollfds.length p -> watches p d ->
  exists (i : nat) old,
    Pollfds.watched p !! i = Some old /\ Pollfds.fd old = d /\
    Pollfds.add_event p d ev =
      (0, Pollfds.mk_pollfds (<[i := Pollfds.mk_pollfd d ev 0]> (Pollfds.fds p))
            (Pollfds.polled p) (Pollfds.length p) (Pollfds.timeout p)).
Proof.
  intros Hwf Hroom Hw.
  destruct (find_fd_watched p d Hwf Hw) as (Hr & e & Hwe & Hfd & Hslot).
  set (r := Pollfds.find_fd _ _ _ _) in *.
  exists r, e. split; [done|]. split; [done|].
  unfold Pollfds.add_event. fold r.
  destruct (Z.eqb_spec (Pollfds.polled p) (Pollfds.length p)); [lia|].
  destruct (Z.ltb_spec (Z.of_nat r) (Pollfds.polled p)); [|lia].
  by rewrite Hslot, Hfd.
Qed.

(** [add_event] on a new descriptor of a registry with room *)
Lemma add_event_unwatched p d ev :
  wf_pollfds p -> Pollfds.polled p < Pollfds.length p -> ~ watches p d ->
  Pollfds.add_event p d ev =
    (0, Pollfds.mk_pollfds
          (<[Z.to_nat (Pollfds.polled p) := Pollfds.mk_pollfd d ev 0]> (Pollfds.fds p))
          (Pollfds.polled p + 1) (Pollfds.length p) (Pollfds.timeout p)).
Proof.
  intros Hwf Hroom Hw. unfold Pollfds.add_event.
  rewrite find_fd_unwatched by done.
  destruct Hwf as [? ? ? _ _].
  destruct (Z.eqb_spec (Pollfds.polled p) (Pollfds.length p)); [lia|].
  rewrite Z2Nat.id by lia. rewrite Z.ltb_irrefl.
  rewrite (Z.mod_small (Pollfds.polled p + 1)) by (unfold UINT_MOD in *; lia).
  done.
Qed.

Lemma watched_insert p (i : nat) x :
  Pollfds.watched (Pollfds.mk_pollfds (<[i := x]> (Pollfds.fds p))
                     (Pollfds.polled p) (Pollfds.length p) (Pollfds.timeout p))
  = <[i := x]> (Pollfds.watched p).
Proof.
  unfold Pollfds.watched. simpl.
  destruct (decide (i < Z.to_nat (Pollfds.polled p))%nat).
  - by rewrite take_insert_lt.
  - rewrite take_insert_ge by lia. symmetry. apply list_insert_ge.
    rewrite length_take. lia.
Qed.

Lemma watched_append p x :
  wf_pollfds p -> Pollfds.polled p < Pollfds.length p ->
  Pollfds.watched (Pollfds.mk_pollfds
                     (<[Z.to_nat (Pollfds.polled p) := x]> (Pollfds.fds p))
                     (Pollfds.polled p + 1) (Pollfds.length p) (Pollfds.timeout p))
  = Pollfds.watched p ++ [x].
Proof.
  intros [? ? ? _ _] Hroom. unfold Pollfds.watched. simpl.
  replace (Z.to_nat (Pollfds.polled p + 1)) with (S (Z.to_nat (Pollfds.polled p))) by lia.
  rewrite (take_S_r _ _ x).
  - by rewrite take_insert_ge by lia.
  - apply list_lookup_insert_eq. lia.
Qed.

(** [add_event] keeps a registry well formed (the descriptor is valid:
    [assert(fd >= 0)]) *)
Lemma add_event_wf p d ev :
  wf_pollfds p -> 0 <= d -> wf_pollfds (snd (Pollfds.add_event p d ev)).
Proof.
  intros Hwf Hd.
  destruct (decide (Pollfds.polled p = Pollfds.length p)) as [Hfull|Hroom].
  { by rewrite add_event_full. }
  pose proof Hwf as [H1 H2 H3 H4 H5].
  destruct (decide (watches p d)) as [Hw|Hw].
  - destruct (add_event_watched p d ev Hwf ltac:(lia) Hw) as (i & old & Hi & Hfd & ->).
    simpl. constructor; rewrite ?watched_insert; simpl; try lia.
    + by rewrite length_insert.
    + apply Forall_insert; [done|]. simpl. lia.
    + rewrite list_fmap_insert. simpl. rewrite list_insert_id; [done|].
      rewrite list_lookup_fmap, Hi. simpl. by rewrite Hfd.
  - rewrite add_event_unwatched by (done || lia). simpl.
    constructor; rewrite ?watched_append by (done || lia); simpl; try lia.
    + by rewrite length_insert.
    + apply Forall_app; split; [done|]. by apply Forall_singleton.
    + rewrite fmap_app. simpl. apply NoDup_app. split; [done|]. split.
      * intros x Hx ->%list_elem_of_singleton. by apply Hw.
      * apply NoDup_singleton.
Qed.

(** the single watched entry of a descriptor after an update *)
Lemma entries_of_insert (w : list Pollfds.pollfd) (i : nat) old x :
  NoDup (Pollfds.fd <$> w) -> w !! i = Some old ->
  Pollfds.fd old = Pollfds.fd x ->
  filter (fun e => Pollfds.fd e = Pollfds.fd x) (<[i := x]> w) = [x].
Proof.
  intros Hnd Hi Hfd.
  pose proof (lookup_lt_Some _ _ _ Hi) as Hlt.
  rewrite insert_take_drop by done.
  rewrite <- (take_drop_middle _ _ _ Hi) in Hnd.
  rewrite fmap_app, fmap_cons in Hnd.
  apply NoDup_app in Hnd as (_ & Hl & Hr).
  apply NoDup_cons in Hr as [Hr _].
  rewrite filter_app, filter_cons_True by done.
  assert (Hnone : forall l : list Pollfds.pollfd,
             Pollfds.fd x ∉ (Pollfds.fd <$> l) ->
             filter (fun e => Pollfds.fd e = Pollfds.fd x) l = []).
  { induction l as [|a l IH]; [done|]. intros Hn.
    rewrite fmap_cons in Hn. apply not_elem_of_cons in Hn as [Ha Hn].
    rewrite filter_cons_False by congruence. by apply IH. }
  rewrite !Hnone; [done| |].
  - by rewrite <- Hfd.
  - intros Hin. apply (Hl _ Hin). rewrite Hfd. by left.
Qed.


(** the initialization loop of [create_pollfds] marks every slot invalid *)
Lemma create_pollfds_loop m : forall i,
  foldl (fun l idx => Pollfds.set_fd l idx (-1))
        (replicate i Pollfds.cleared ++ replicate m (Pollfds.mk_pollfd 0 0 0))
        (seq i m)
  = replicate (i + m) Pollfds.cleared.
Proof.
  induction m as [|m IH]; intros i.
  - cbn. by rewrite app_nil_r, Nat.add_0_r.
  - cbn [seq foldl replicate].
    assert (Hl : (replicate i Pollfds.cleared
                  ++ Pollfds.mk_pollfd 0 0 0 :: replicate m (Pollfds.mk_pollfd 0 0 0))
                 !! i = Some (Pollfds.mk_pollfd 0 0 0)).
    { rewrite lookup_app_r by (rewrite length_replicate; lia).
      rewrite length_replicate, Nat.sub_diag. done. }
    unfold Pollfds.set_fd at 2. rewrite (slot_lookup _ _ _ Hl). cbn [Pollfds.events Pollfds.revents].
    rewrite insert_app_r_alt by (rewrite length_replicate; lia).
    rewrite length_replicate, Nat.sub_diag. cbn [insert list_insert].
    replace (replicate i Pollfds.cleared ++ Pollfds.mk_pollfd (-1) 0 0
               :: replicate m (Pollfds.mk_pollfd 0 0 0))
      with (replicate (S i) Pollfds.cleared ++ replicate m (Pollfds.mk_pollfd 0 0 0)).
    + rewrite IH. f_equal. lia.
    + rewrite replicate_S_end, <- app_assoc. done.
Qed.

(** [create_pollfds] gives a well-formed registry that watches nothing *)
Lemma create_pollfds_wf max_descs p :
  0 < max_descs < UINT_MOD ->
  Pollfds.create_pollfds true true max_descs = Some p ->
  wf_pollfds p /\ Pollfds.polled p = 0 /\ Pollfds.length p = max_descs /\
  Pollfds.fds p = replicate (Z.to_nat max_descs) Pollfds.cleared.
Proof.
  intros Hn Hp. unfold Pollfds.create_pollfds in Hp. injection Hp as <-.
  pose proof (create_pollfds_loop (Z.to_nat max_descs) 0) as Hloop.
  cbn [replicate app] in Hloop. rewrite Hloop. cbn [Nat.add].
  rewrite Z.mod_small by lia.
  split; [|done]. constructor; cbn; try lia.
  - rewrite length_replicate. lia.
  - apply Forall_nil_2.
  - apply NoDup_nil_2.
Qed.

(** after a successful [add_event] the descriptor is watched *)
Lemma add_event_watches p d ev :
  wf_pollfds p -> Pollfds.polled p < Pollfds.length p ->
  fst (Pollfds.add_event p d ev) = 0 /\ watches (snd (Pollfds.add_event p d ev)) d.
Proof.
  intros Hwf Hroom. destruct (decide (watches p d)) as [Hw|Hw].
  - destruct (add_event_watched p d ev Hwf Hroom Hw) as (i & old & Hi & Hfd & ->).
    cbn [fst snd]. split; [done|]. unfold watches. rewrite watched_insert.
    apply list_elem_of_fmap. exists (Pollfds.mk_pollfd d ev 0). split; [done|].
    apply list_elem_of_lookup. exists i. apply list_lookup_insert_eq.
    by apply lookup_lt_Some in Hi.
  - rewrite add_event_unwatched by done. cbn [fst snd]. split; [done|].
    unfold watches. rewrite watched_append by done.
    rewrite fmap_app. apply elem_of_app. right. cbn. by left.
Qed.

(** C9. Removing a watched descriptor from a well-formed registry with
    [k] watched entries leaves [k - 1] of them, stored in the first
    [k - 1] slots in their previous relative order (the watch list with
    the entry of the descriptor deleted); removing a descriptor that is
    not watched leaves the registry unchanged. *)
Theorem remove_event_compacts p d :
  wf_pollfds p ->
  (watches p d ->
   exists (i : nat) e,
     Pollfds.watched p !! i = Some e /\ Pollfds.fd e = d /\
     Pollfds.polled (Pollfds.remove_event p d) = Pollfds.polled p - 1 /\
     length (Pollfds.watched (Pollfds.remove_event p d))
       = (length (Pollfds.watched p) - 1)%nat /\
     Pollfds.watched (Pollfds.remove_event p d) = delete i (Pollfds.watched p)) /\
  (~ watches p d -> Pollfds.remove_event p d = p).
Proof.
  intros Hwf. split.
  - intros Hw.
    destruct (remove_event_watched p d Hwf Hw) as (i & e & Hi & Hfd & Hpol & Hwat & _).
    exists i, e. repeat split; try done.
    rewrite Hwat, length_delete; [done|]. by exists e.
  - by apply remove_event_unwatched.
Qed.

Lemma four_of_six_wf : wf_pollfds Examples.four_of_six.
Proof.
  constructor; simpl; unfold UINT_MOD; try lia.
  - repeat constructor; simpl; lia.
  - apply (bool_decide_unpack _). by vm_compute.
Defined.

Lemma remove_event_compacts_witness :
  wf_pollfds Examples.four_of_six /\
  (watches Examples.four_of_six 5 ->
   exists (i : nat) e,
     Pollfds.watched Examples.four_of_six !! i = Some e /\ Pollfds.fd e = 5 /\
     Pollfds.polled (Pollfds.remove_event Examples.four_of_six 5)
       = Pollfds.polled Examples.four_of_six - 1 /\
     length (Pollfds.watched (Pollfds.remove_event Examples.four_of_six 5))
       = (length (Pollfds.watched Examples.four_of_six) - 1)%nat /\
     Pollfds.watched (Pollfds.remove_event Examples.four_of_six 5)
       = delete i (Pollfds.watched Examples.four_of_six)) /\
  (~ watches Examples.four_of_six 5 ->
   Pollfds.remove_event Examples.four_of_six 5 = Examples.four_of_six).
Proof.
  split; [exact four_of_six_wf|].
  exact (remove_event_compacts Examples.four_of_six 5 four_of_six_wf).
Defined.

(** the same removal, evaluated: the survivors 3, 6, 7 in slots 0..2 *)
Example remove_event_middle :
  Pollfds.watched (Pollfds.remove_event Examples.four_of_six 5)
  = [Pollfds.mk_pollfd 3 3 0; Pollfds.mk_pollfd 6 21 4; Pollfds.mk_pollfd 7 21 0].
Proof. reflexivity. Qed.

(** with room, an update does what "add (or update)" promises: on a
    well-formed registry that is not full, [add_event] on a watched
    descriptor succeeds, leaves the watched count unchanged and leaves
    exactly one watched entry for the descriptor, carrying the new
    requested mask and a cleared observed mask; a second call with
    another mask does the same with that mask *)
Lemma add_event_update p d ev1 ev2 :
  wf_pollfds p -> Pollfds.polled p < Pollfds.length p -> watches p d ->
  let r1 := Pollfds.add_event p d ev1 in
  let r2 := Pollfds.add_event (snd r1) d ev2 in
  fst r1 = 0 /\
  Pollfds.polled (snd r1) = Pollfds.polled p /\
  (exists i : nat, (Pollfds.fd <$> Pollfds.watched p) !! i = Some d /\
     Pollfds.watched (snd r1) = <[i := Pollfds.mk_pollfd d ev1 0]> (Pollfds.watched p)) /\
  entries_of (snd r1) d = [Pollfds.mk_pollfd d ev1 0] /\
  fst r2 = 0 /\
  Pollfds.polled (snd r2) = Pollfds.polled p /\
  entries_of (snd r2) d = [Pollfds.mk_pollfd d ev2 0].
Proof.
  intros Hwf Hroom Hw.
  assert (Hone : forall q ev, wf_pollfds q -> Pollfds.polled q < Pollfds.length q ->
            watches q d ->
            fst (Pollfds.add_event q d ev) = 0 /\
            Pollfds.polled (snd (Pollfds.add_event q d ev)) = Pollfds.polled q /\
            Pollfds.length (snd (Pollfds.add_event q d ev)) = Pollfds.length q /\
            (exists i : nat, (Pollfds.fd <$> Pollfds.watched q) !! i = Some d /\
               Pollfds.watched (snd (Pollfds.add_event q d ev))
               = <[i := Pollfds.mk_pollfd d ev 0]> (Pollfds.watched q)) /\
            entries_of (snd (Pollfds.add_event q d ev)) d = [Pollfds.mk_pollfd d ev 0]).
  { intros q ev Hq Hr Hwq.
    destruct (add_event_watched q d ev Hq Hr Hwq) as (i & old & Hi & Hfd & ->).
    simpl. repeat split.
    - exists i. split; [|apply watched_insert].
      rewrite list_lookup_fmap, Hi. simpl. by rewrite Hfd.
    - unfold entries_of. rewrite watched_insert.
      apply (entries_of_insert _ i old (Pollfds.mk_pollfd d ev 0)); [|done|done].
      by destruct Hq. }
  destruct (Hone p ev1 Hwf Hroom Hw) as (H1 & H2 & H3 & H4 & H5).
  assert (Hwf1 : wf_pollfds (snd (Pollfds.add_event p d ev1))).
  { apply add_event_wf; [done|].
    destruct Hwf as [_ _ _ Hv _]. rewrite Forall_forall in Hv.
    apply list_elem_of_fmap in Hw as (e & -> & He). by apply Hv. }
  assert (Hw1 : watches (snd (Pollfds.add_event p d ev1)) d).
  { unfold watches. apply list_elem_of_fmap.
    exists (Pollfds.mk_pollfd d ev1 0). split; [done|].
    assert (Hin : Pollfds.mk_pollfd d ev1 0 ∈ entries_of (snd (Pollfds.add_event p d ev1)) d).
    { rewrite H5. by left. }
    unfold entries_of in Hin. by apply list_elem_of_filter in Hin as [_ Hin]. }
  destruct (Hone _ ev2 Hwf1 ltac:(lia) Hw1) as (G1 & G2 & G3 & G4 & G5).
  cbv zeta. repeat split; try done. lia.
Qed.

(** C6, evaluated where the code departs from it. The registry is the
    one [create_pollfds(1)] and a first [add_event] of descriptor 5
    build: well formed, full, watching 5 for POLLIN. An update of
    descriptor 5 to POLLOUT needs no slot, yet the capacity test comes
    before the scan: [add_event] returns -1, the registry is unchanged
    and the one entry of descriptor 5 still carries POLLIN. *)
Theorem add_event_update_fails_at_capacity :
  Pollfds.create_pollfds true true 1 = Some Examples.one_slot /\
  Pollfds.add_event Examples.one_slot 5 Server.POLLIN = (0, Examples.one_slot_full) /\
  wf_pollfds Examples.one_slot_full /\
  watches Examples.one_slot_full 5 /\
  Pollfds.add_event Examples.one_slot_full 5 Server.POLLOUT = (-1, Examples.one_slot_full) /\
  entries_of Examples.one_slot_full 5 = [Pollfds.mk_pollfd 5 Server.POLLIN 0].
Proof.
  repeat split; try reflexivity; try (vm_compute; intuition congruence).
  - vm_compute. repeat constructor. discriminate.
  - apply (bool_decide_unpack _). by vm_compute.
  - apply (bool_decide_unpack _). by vm_compute.
Qed.

End PollfdsFacts.


(** ** The circular buffer *)

Module IobuffFacts.
Import CInt Inv.

(** *** Arithmetic on [size_t] *)

Lemma wrap64_small x : 0 <= x < SIZE_MOD -> wrap64 x = x.
Proof. intros H. unfold wrap64. by apply Z.mod_small. Qed.

Lemma wrap64_range x : 0 <= wrap64 x < SIZE_MOD.
Proof. unfold wrap64, SIZE_MOD. apply Z.mod_pos_bound. lia. Qed.

Lemma pow2_le_62 k : 0 <= k <= 62 -> 0 < 2 ^ k <= 2 ^ 62.
Proof.
  intros H. split; [apply Z.pow_pos_nonneg; lia|].
  apply Z.pow_le_mono_r; lia.
Qed.

(** masking with [size - 1] is reduction modulo [size] *)
Lemma mask_mod x k : 0 <= k <= 62 -> Z.land x (wrap64 (2 ^ k - 1)) = x mod 2 ^ k.
Proof.
  intros Hk. pose proof (pow2_le_62 k Hk) as Hp.
  rewrite wrap64_small by (unfold SIZE_MOD; lia).
  replace (2 ^ k - 1) with (Z.ones k) by (rewrite Z.ones_equiv; lia).
  apply Z.land_ones. lia.
Qed.

(** a power of two up to [2^62] divides [2^64] *)
Lemma mod_mod_pow2 x k : 0 <= k <= 62 -> (x mod SIZE_MOD) mod 2 ^ k = x mod 2 ^ k.
Proof.
  intros Hk. pose proof (pow2_le_62 k Hk) as Hp. unfold SIZE_MOD.
  replace (2 ^ 64) with (2 ^ k * 2 ^ (64 - k))
    by (rewrite <- Z.pow_add_r by lia; f_equal; lia).
  rewrite Z.rem_mul_r by (try apply Z.pow_nonzero; try apply Z.pow_pos_nonneg; lia).
  rewrite Z.mul_comm, Z.mod_add by lia. apply Z.mod_mod. lia.
Qed.

(** reduction of a sum that overshoots at most once *)
Lemma mod_once a i s :
  0 <= a < s -> 0 <= i <= s ->
  (a + i) mod s = if a + i <? s then a + i else a + i - s.
Proof.
  intros Ha Hi. destruct (Z.ltb_spec (a + i) s).
  - apply Z.mod_small. lia.
  - symmetry. apply (Z.mod_unique _ _ 1); lia.
Qed.

(** *** [size_roundup] *)

(** one smearing step: [m] top bits set become [m + s] *)
Lemma smear_step k m s y :
  0 <= s <= m ->
  (forall i, k < i -> Z.testbit y i = false) ->
  (forall i, 0 <= i -> k - m < i <= k -> Z.testbit y i = true) ->
  (forall i, k < i -> Z.testbit (Z.lor y (Z.shiftr y s)) i = false) /\
  (forall i, 0 <= i -> k - (m + s) < i <= k ->
             Z.testbit (Z.lor y (Z.shiftr y s)) i = true).
Proof.
  intros Hs Hhi Hset. split; intros i Hi.
  - destruct (Z.ltb_spec i 0); [by apply Z.testbit_neg_r|].
    rewrite Z.lor_spec, Z.shiftr_spec by lia.
    rewrite !Hhi by lia. done.
  - intros Hr. rewrite Z.lor_spec, Z.shiftr_spec by lia.
    destruct (Z.ltb_spec (k - m) i).
    + rewrite Hset by lia. done.
    + rewrite (Hset (i + s)) by lia. apply orb_true_r.
Qed.

(** a positive [size_t] that shares no bit with its predecessor is a
    power of two *)
Lemma land_pred_pow2 x :
  0 < x -> Z.land x (x - 1) = 0 -> x = 2 ^ Z.log2 x.
Proof.
  intros Hx Hl.
  destruct (Z.log2_spec x Hx) as [Hlo Hhi].
  destruct (decide (x = 2 ^ Z.log2 x)) as [|Hne]; [done|]. exfalso.
  assert (Hlog : Z.log2 (x - 1) = Z.log2 x).
  { apply Z.log2_unique; [apply Z.log2_nonneg|]. lia. }
  assert (Hb : Z.testbit (Z.land x (x - 1)) (Z.log2 x) = true).
  { rewrite Z.land_spec. rewrite Z.bit_log2 by done.
    assert (Hb1 : Z.testbit (x - 1) (Z.log2 (x - 1)) = true).
    { apply Z.bit_log2.
      pose proof (Z.pow_pos_nonneg 2 (Z.log2 x) ltac:(lia) (Z.log2_nonneg x)). lia. }
    rewrite Hlog in Hb1. by rewrite Hb1. }
  rewrite Hl, Z.bits_0 in Hb. done.
Qed.

(** [size_roundup] on a [size_t]: either the value itself, when it is a
    power of two, or the power of two above it, which is [0] when that
    power is [2^64]. *)
Lemma size_roundup_spec x :
  0 < x < SIZE_MOD ->
  (x = 2 ^ Z.log2 x /\ Iobuff.size_roundup x = x) \/
  (x < 2 ^ (Z.log2 x + 1) /\
   Iobuff.size_roundup x = wrap64 (2 ^ (Z.log2 x + 1))).
Proof.
  intros Hx. unfold Iobuff.size_roundup.
  rewrite (wrap64_small (x - 1)) by lia.
  destruct (Z.eqb_spec (Z.land x (x - 1)) 0) as [E|E].
  { left. split; [|done]. apply land_pred_pow2; [lia|done]. }
  right.
  destruct (Z.log2_spec x ltac:(lia)) as [Hlo Hhi].
  rewrite <- Z.add_1_r in Hhi. split; [done|].
  set (k := Z.log2 x) in *.
  assert (Hk : 0 <= k) by apply Z.log2_nonneg.
  assert (H0 : (forall i, k < i -> Z.testbit x i = false) /\
               (forall i, 0 <= i -> k - 1 < i <= k -> Z.testbit x i = true)).
  { split.
    - intros i Hi. apply Z.bits_above_log2; lia.
    - intros i _ Hi. replace i with k by lia. apply Z.bit_log2. lia. }
  destruct H0 as [A0 B0].
  destruct (smear_step k 1 1 _ ltac:(lia) A0 B0) as [A1 B1].
  destruct (smear_step k 2 2 _ ltac:(lia) A1 B1) as [A2 B2].
  destruct (smear_step k 4 4 _ ltac:(lia) A2 B2) as [A3 B3].
  destruct (smear_step k 8 8 _ ltac:(lia) A3 B3) as [A4 B4].
  destruct (smear_step k 16 16 _ ltac:(lia) A4 B4) as [A5 B5].
  destruct (smear_step k 32 32 _ ltac:(lia) A5 B5) as [A6 B6].
  cbv zeta.
  set (y := Z.lor _ (Z.shiftr _ 32)) in *.
  assert (Hk63 : k < 64).
  { apply Z.log2_lt_pow2; [lia|]. unfold SIZE_MOD in Hx. lia. }
  assert (Hy : y = Z.ones (k + 1)).
  { apply Z.bits_inj'. intros i Hi.
    destruct (Z.ltb_spec k i).
    - rewrite A6 by lia. rewrite Z.ones_spec_high by lia. done.
    - rewrite B6 by lia. rewrite Z.ones_spec_low by lia. done. }
  rewrite Hy, Z.ones_equiv. f_equal. lia.
Qed.

(** what [iobuff_append] needs of a successful growth: a block of an
    admissible size is a power of two that holds the request *)
Lemma size_roundup_grows x :
  0 < x < SIZE_MOD ->
  0 < Iobuff.size_roundup x <= PTRDIFF_MAX ->
  x <= Iobuff.size_roundup x /\
  exists k, 0 <= k <= 62 /\ Iobuff.size_roundup x = 2 ^ k.
Proof.
  intros Hx Hr. unfold PTRDIFF_MAX in Hr.
  assert (Hbound : forall k, 0 <= k -> 2 ^ k <= 2 ^ 63 - 1 -> k <= 62).
  { intros k Hk Hle. destruct (Z.le_gt_cases k 62) as [|Hgt]; [done|]. exfalso.
    pose proof (Z.pow_le_mono_r 2 63 k ltac:(lia) ltac:(lia)). lia. }
  destruct (size_roundup_spec x Hx) as [[Hp Hs]|[Hlt Hs]].
  - rewrite Hs in *. split; [lia|]. exists (Z.log2 x). split; [|done].
    split; [apply Z.log2_nonneg|]. apply Hbound; [apply Z.log2_nonneg|].
    rewrite <- Hp. lia.
  - rewrite Hs in *.
    assert (Hk : 0 <= Z.log2 x + 1) by (pose proof (Z.log2_nonneg x); lia).
    assert (Hk64 : Z.log2 x + 1 <= 64).
    { assert (Z.log2 x < 64); [|lia].
      apply Z.log2_lt_pow2; [lia|]. unfold SIZE_MOD in Hx. lia. }
    destruct (decide (Z.log2 x + 1 = 64)) as [E|E].
    + rewrite E in Hr. unfold wrap64, SIZE_MOD in Hr.
      rewrite Z.mod_same in Hr by lia. lia.
    + assert (Hsmall : 2 ^ (Z.log2 x + 1) < SIZE_MOD).
      { unfold SIZE_MOD. apply Z.pow_lt_mono_r; lia. }
      pose proof (Z.pow_pos_nonneg 2 (Z.log2 x + 1) ltac:(lia) Hk).
      rewrite wrap64_small in * by lia.
      split; [lia|]. exists (Z.log2 x + 1). split; [|done].
      split; [done|]. apply Hbound; [done|lia].
Qed.



(** *** Copies into the storage *)

Lemma length_memcpy dst off src n :
  length (Iobuff.memcpy dst off src n) = length dst.
Proof. unfold Iobuff.memcpy. apply length_inserts. Qed.

(** reading a storage after a [memcpy] that stays inside it *)
Lemma memcpy_lookup dst off src n (j : nat) :
  0 <= off -> 0 <= n -> n <= Z.of_nat (length src) ->
  off + n <= Z.of_nat (length dst) ->
  Iobuff.memcpy dst off src n !! j =
    if decide (off <= Z.of_nat j < off + n)
    then src !! (j - Z.to_nat off)%nat
    else dst !! j.
Proof.
  intros Hoff Hn Hsrc Hdst. unfold Iobuff.memcpy.
  assert (Hlen : length (take (Z.to_nat n) src) = Z.to_nat n).
  { rewrite length_take. lia. }
  destruct (decide (off <= Z.of_nat j < off + n)) as [Hin|Hout].
  - rewrite list_lookup_inserts by lia.
    apply lookup_take_lt. lia.
  - destruct (decide (Z.of_nat j < off)).
    + apply list_lookup_inserts_lt. lia.
    + apply list_lookup_inserts_ge. lia.
Qed.

(** Writing [c1] bytes at the masked head and [c2] more at the start of
    the storage puts byte [j] of the data at ring position
    [(head + j) mod C]: read from the masked tail [wt], the first [n]
    positions are untouched and the next [c1 + c2] hold the data. *)
Lemma ring_write (buf data : list byte) C wt n c1 c2 (i : nat) :
  Z.of_nat (length buf) = C -> 0 <= wt < C -> 0 <= n ->
  0 <= c1 -> 0 <= c2 ->
  (wt + n) mod C + c1 <= C ->
  (0 < c2 -> (wt + n) mod C + c1 = C) ->
  n + c1 + c2 <= C ->
  c1 + c2 <= Z.of_nat (length data) ->
  Z.of_nat i < n + c1 + c2 ->
  Iobuff.memcpy (Iobuff.memcpy buf ((wt + n) mod C) data c1) 0
                (drop (Z.to_nat c1) data) c2
    !! Z.to_nat ((wt + Z.of_nat i) mod C)
  = if decide (Z.of_nat i < n) then buf !! Z.to_nat ((wt + Z.of_nat i) mod C)
    else data !! (i - Z.to_nat n)%nat.
Proof.
  intros Hbuf Hwt Hn Hc1 Hc2 Hfit Hsecond Hroom Hdata Hi.
  assert (Hwh := mod_once wt n C Hwt ltac:(lia)).
  assert (Hp := mod_once wt (Z.of_nat i) C Hwt ltac:(lia)).
  set (wh := (wt + n) mod C) in *.
  set (p := (wt + Z.of_nat i) mod C) in *.
  assert (Hprange : 0 <= p < C).
  { destruct (wt + Z.of_nat i <? C) eqn:E; [apply Z.ltb_lt in E|apply Z.ltb_ge in E]; lia. }
  assert (Hwhrange : 0 <= wh < C).
  { destruct (wt + n <? C) eqn:E; [apply Z.ltb_lt in E|apply Z.ltb_ge in E]; lia. }
  rewrite memcpy_lookup; rewrite ?length_memcpy, ?length_drop; try lia.
  rewrite Z2Nat.id by lia.
  destruct (wt + n <? C) eqn:E1; [apply Z.ltb_lt in E1|apply Z.ltb_ge in E1];
  destruct (wt + Z.of_nat i <? C) eqn:E2; [apply Z.ltb_lt in E2|apply Z.ltb_ge in E2| |];
    try (apply Z.ltb_lt in E2); try (apply Z.ltb_ge in E2).
  all: destruct (decide (0 <= p < 0 + c2)) as [Hin2|Hout2];
    [ rewrite lookup_drop;
      destruct (decide (Z.of_nat i < n)) as [Hlt|Hge]; [exfalso; lia|];
      f_equal; lia
    | rewrite memcpy_lookup by lia; rewrite Z2Nat.id by lia;
      destruct (decide (wh <= p < wh + c1)) as [Hin1|Hout1];
      destruct (decide (Z.of_nat i < n)) as [Hlt|Hge];
      try done; try (exfalso; lia); f_equal; lia ].
Qed.



(** *** The cursors of a well-formed buffer *)

Lemma used_range b : 0 <= used b < SIZE_MOD.
Proof. apply wrap64_range. Qed.

Lemma mask_size b k x :
  0 <= k <= 62 -> Iobuff.size b = 2 ^ k ->
  Z.land x (wrap64 (Iobuff.size b - 1)) = x mod Iobuff.size b.
Proof. intros Hk Hs. rewrite Hs. by apply mask_mod. Qed.

(** the ring position of the cursor [tail + i] *)
Lemma pending_index b k (i : Z) :
  0 <= k <= 62 -> Iobuff.size b = 2 ^ k ->
  Z.land (wrap64 (Iobuff.tail b + i)) (wrap64 (Iobuff.size b - 1))
  = (Iobuff.tail b mod Iobuff.size b + i) mod Iobuff.size b.
Proof.
  intros Hk Hs. rewrite Hs. rewrite mask_mod by done.
  unfold wrap64. rewrite mod_mod_pow2 by done.
  pose proof (pow2_le_62 k Hk).
  by rewrite Z.add_mod_idemp_l by lia.
Qed.

(** the masked head is [used] positions after the masked tail *)
Lemma whead_geometry b k :
  0 <= k <= 62 -> Iobuff.size b = 2 ^ k ->
  Iobuff.head b mod Iobuff.size b
  = (Iobuff.tail b mod Iobuff.size b + used b) mod Iobuff.size b.
Proof.
  intros Hk Hs. rewrite Hs. pose proof (pow2_le_62 k Hk).
  rewrite Z.add_mod_idemp_l by lia.
  rewrite <- Z.add_mod_idemp_r by lia.
  unfold used, wrap64. rewrite mod_mod_pow2 by done.
  rewrite Z.add_mod_idemp_r by lia.
  f_equal. lia.
Qed.

(** advancing [head] by [d] adds [d] to the unsigned difference *)
Lemma used_advance_head b d :
  0 <= used b + d < SIZE_MOD ->
  wrap64 (wrap64 (Iobuff.head b + d) - Iobuff.tail b) = used b + d.
Proof.
  intros H. unfold used, wrap64 in *. unfold SIZE_MOD in *.
  rewrite Zminus_mod_idemp_l.
  replace (Iobuff.head b + d - Iobuff.tail b)
    with ((Iobuff.head b - Iobuff.tail b) + d) by lia.
  rewrite <- Zplus_mod_idemp_l. by apply Z.mod_small.
Qed.

(** advancing [tail] by [d] takes [d] off the unsigned difference *)
Lemma used_advance_tail b d :
  0 <= used b - d < SIZE_MOD ->
  wrap64 (Iobuff.head b - wrap64 (Iobuff.tail b + d)) = used b - d.
Proof.
  intros H. unfold used, wrap64 in *. unfold SIZE_MOD in *.
  rewrite Zminus_mod_idemp_r.
  replace (Iobuff.head b - (Iobuff.tail b + d))
    with ((Iobuff.head b - Iobuff.tail b) - d) by lia.
  rewrite <- Zminus_mod_idemp_l. by apply Z.mod_small.
Qed.

(** *** The copy of [iobuff_append] *)

(** the two chunks the copy writes into a buffer that is not full *)
Lemma append_copy_chunks b data len :
  wf_buffer b -> used b < Iobuff.size b ->
  0 <= len < SIZE_MOD ->
  let wh := Iobuff.head b mod Iobuff.size b in
  exists c1 c2,
    0 <= c1 /\ 0 <= c2 /\
    c1 + c2 = Z.min len (Iobuff.size b - used b) /\
    wh + c1 <= Iobuff.size b /\
    (0 < c2 -> wh + c1 = Iobuff.size b) /\
    Iobuff.append_copy b data len =
      (c1 + c2,
       Iobuff.mk_io_buffer
         (Iobuff.memcpy (Iobuff.memcpy (Iobuff.buffer b) wh data c1) 0
                        (drop (Z.to_nat c1) data) c2)
         (Iobuff.size b) (wrap64 (Iobuff.head b + (c1 + c2))) (Iobuff.tail b)).
Proof.
  intros [(k & Hk & Hs) Hst Hh Ht] Hroom Hlen wh.
  pose proof (pow2_le_62 k Hk) as Hp.
  pose proof (used_range b) as Hu.
  assert (HC : Iobuff.size b < SIZE_MOD) by (unfold SIZE_MOD; lia).
  pose proof (whead_geometry b k Hk Hs) as Hgeo. fold wh in Hgeo.
  assert (Hwt : 0 <= Iobuff.tail b mod Iobuff.size b < Iobuff.size b)
    by (apply Z.mod_pos_bound; lia).
  rewrite (mod_once _ _ _ Hwt) in Hgeo by lia.
  unfold Iobuff.append_copy.
  rewrite !(mask_size b k) by done. fold wh.
  set (wt := Iobuff.tail b mod Iobuff.size b) in *.
  destruct (Z.ltb_spec (wt + used b) (Iobuff.size b)) as [Hnw|Hw].
  - (* the pending bytes do not wrap: wtail <= whead *)
    destruct (Z.leb_spec wt wh); [|lia].
    rewrite (wrap64_small (Iobuff.size b - wh)) by lia.
    unfold Iobuff.min.
    destruct (Z.ltb_spec len (Iobuff.size b - wh)) as [H1|H1].
    + rewrite Z.sub_diag. rewrite (wrap64_small 0) by (unfold SIZE_MOD; lia).
      exists len, 0.
      assert (E : (if 0 <? wt then 0 else wt) = 0).
      { destruct (Z.ltb_spec 0 wt); lia. }
      rewrite E. rewrite (wrap64_small (len + 0)) by lia.
      repeat split; try lia.
    + rewrite (wrap64_small (len - (Iobuff.size b - wh))) by lia.
      destruct (Z.ltb_spec (len - (Iobuff.size b - wh)) wt) as [H2|H2].
      * exists (Iobuff.size b - wh), (len - (Iobuff.size b - wh)).
        rewrite wrap64_small by lia. repeat split; try lia.
      * exists (Iobuff.size b - wh), wt.
        rewrite wrap64_small by lia. repeat split; try lia.
  - (* the pending bytes wrap: whead < wtail *)
    destruct (Z.leb_spec wt wh); [lia|].
    rewrite (wrap64_small (wt - wh)) by lia.
    unfold Iobuff.min.
    destruct (Z.ltb_spec len (wt - wh)) as [H1|H1].
    + exists len, 0. rewrite Z.add_0_r. repeat split; try lia.
    + exists (wt - wh), 0. rewrite Z.add_0_r. repeat split; try lia.
Qed.



Lemma pending_length b : length (Iobuff.pending b) = Z.to_nat (used b).
Proof. unfold Iobuff.pending. by rewrite length_fmap, length_seq. Qed.

Lemma pending_lookup b k (i : nat) :
  0 <= k <= 62 -> Iobuff.size b = 2 ^ k ->
  Z.of_nat i < used b ->
  Iobuff.pending b !! i
  = Some (Iobuff.buffer b
            !! Z.to_nat ((Iobuff.tail b mod Iobuff.size b + Z.of_nat i)
                         mod Iobuff.size b)).
Proof.
  intros Hk Hs Hi. unfold Iobuff.pending.
  rewrite list_lookup_fmap. fold (used b).
  rewrite lookup_seq_lt by lia. simpl.
  by rewrite (pending_index b k).
Qed.

(** The copy of [iobuff_append] into a buffer that is not full writes
    [min(len, free)] bytes, the leading bytes of the data, behind the
    pending ones. *)
Lemma append_copy_spec b data len :
  wf_buffer b -> used b < Iobuff.size b ->
  len = Z.of_nat (length data) -> len < SIZE_MOD ->
  let total := Z.min len (Iobuff.size b - used b) in
  let b' := snd (Iobuff.append_copy b data len) in
  fst (Iobuff.append_copy b data len) = total /\
  Iobuff.size b' = Iobuff.size b /\
  Iobuff.tail b' = Iobuff.tail b /\
  Iobuff.head b' = wrap64 (Iobuff.head b + total) /\
  length (Iobuff.buffer b') = length (Iobuff.buffer b) /\
  used b' = used b + total /\
  Iobuff.pending b' = Iobuff.pending b ++ (Some <$> take (Z.to_nat total) data).
Proof.
  intros Hwf Hroom Hlen Hlt total b'.
  destruct (append_copy_chunks b data len Hwf Hroom ltac:(lia))
    as (c1 & c2 & Hc1 & Hc2 & Hsum & Hfit & Hsecond & Heq).
  fold total in Hsum.
  destruct Hwf as [(k & Hk & Hs) Hst Hh Ht].
  pose proof (pow2_le_62 k Hk) as Hp.
  pose proof (used_range b) as Hu.
  assert (HC : Iobuff.size b < SIZE_MOD) by (unfold SIZE_MOD; lia).
  assert (Htot : 0 <= total <= Iobuff.size b - used b) by lia.
  subst b'. rewrite Heq. cbn [fst snd].
  set (bnew := Iobuff.mk_io_buffer _ _ _ _).
  assert (Hused : used bnew = used b + total).
  { unfold used at 1. unfold bnew. cbn [Iobuff.head Iobuff.tail].
    rewrite Hsum. apply used_advance_head. lia. }
  repeat split; try done.
  { unfold bnew. cbn [Iobuff.head]. by rewrite Hsum. }
  { unfold bnew. cbn [Iobuff.buffer]. by rewrite !length_memcpy. }
  apply list_eq. intros i.
  destruct (decide (Z.of_nat i < used b + total)) as [Hi|Hi].
  - rewrite (pending_lookup bnew k) by (done || lia).
    unfold bnew. cbn [Iobuff.buffer Iobuff.size Iobuff.tail].
    rewrite (whead_geometry b k) by done.
    rewrite ring_write; try lia.
    + destruct (decide (Z.of_nat i < used b)) as [Hlo|Hhi].
      * rewrite lookup_app_l by (rewrite pending_length; lia).
        by rewrite (pending_lookup b k).
      * rewrite lookup_app_r by (rewrite pending_length; lia).
        rewrite pending_length, list_lookup_fmap, lookup_take_lt by lia.
        destruct (lookup_lt_is_Some_2 data (i - Z.to_nat (used b))) as [x Hx]; [lia|].
        by rewrite Hx.
    + apply Z.mod_pos_bound. lia.
    + rewrite <- (whead_geometry b k) by done. lia.
    + rewrite <- (whead_geometry b k) by done. lia.
  - rewrite !lookup_ge_None_2; [done| |].
    + rewrite length_app, pending_length, length_fmap, length_take. lia.
    + rewrite pending_length. lia.
Qed.



(** *** [iobuff_append] *)

Lemma iobuff_full_used b :
  Iobuff.iobuff_full b = true <-> used b = Iobuff.size b.
Proof. unfold Iobuff.iobuff_full. fold (used b). apply Z.eqb_eq. Qed.

Lemma iobuff_empty_used b :
  wf_buffer b -> Iobuff.iobuff_empty b = true <-> used b = 0.
Proof.
  intros [_ _ Hh Ht]. unfold Iobuff.iobuff_empty, used, wrap64.
  rewrite Z.eqb_eq. unfold SIZE_MOD in *. split.
  - intros ->. by rewrite Z.sub_diag.
  - intros H0.
    destruct (Z.le_gt_cases (Iobuff.tail b) (Iobuff.head b)).
    + rewrite Z.mod_small in H0 by lia. lia.
    + assert (E : (Iobuff.head b - Iobuff.tail b) mod 2 ^ 64
                  = Iobuff.head b - Iobuff.tail b + 2 ^ 64).
      { symmetry. apply (Z.mod_unique _ _ (-1)); lia. }
      lia.
Qed.

(** without growth, and with something to do, [iobuff_append] is its copy *)
Lemma iobuff_append_no_growth re b data len :
  len <> 0 -> Iobuff.iobuff_full b = false ->
  Iobuff.iobuff_append re b data len false = Iobuff.append_copy b data len.
Proof.
  intros Hlen Hfull. unfold Iobuff.iobuff_append.
  rewrite Hfull. destruct (Z.eqb_spec len 0); [done|].
  simpl. by rewrite andb_false_r.
Qed.

(** C8. With growth disabled and less free space [f] than bytes to
    append, [iobuff_append] returns [f], advances [head] by [f], leaves
    [size] and [tail] alone and puts the first [f] bytes of the
    input behind the pending bytes, written as at most two contiguous
    chunks: [c1] bytes at the masked head and [c2] at the start of the
    storage. An append of length 0, or onto a full buffer, returns 0
    and leaves the buffer as it was, whatever the growth flag. *)
Theorem iobuff_append_partial re b data len can_reallocate :
  wf_buffer b -> cursors_ok b ->
  len = Z.of_nat (length data) -> len < SIZE_MOD ->
  (Iobuff.size b - used b < len ->
   let f := Iobuff.size b - used b in
   let r := Iobuff.iobuff_append re b data len false in
   fst r = f /\
   Iobuff.size (snd r) = Iobuff.size b /\
   Iobuff.tail (snd r) = Iobuff.tail b /\
   Iobuff.head (snd r) = wrap64 (Iobuff.head b + f) /\
   Iobuff.pending (snd r)
     = Iobuff.pending b ++ (Some <$> take (Z.to_nat f) data) /\
   exists c1 c2,
     0 <= c1 /\ 0 <= c2 /\ c1 + c2 = f /\
     Iobuff.buffer (snd r)
     = Iobuff.memcpy
         (Iobuff.memcpy (Iobuff.buffer b)
            (Z.land (Iobuff.head b) (wrap64 (Iobuff.size b - 1))) data c1)
         0 (drop (Z.to_nat c1) data) c2) /\
  (len = 0 \/ Iobuff.iobuff_full b = true ->
   Iobuff.iobuff_append re b data len can_reallocate = (0, b)).
Proof.
  intros Hwf Hcur Hlen Hlt. split.
  - intros Hf f r. unfold cursors_ok in Hcur.
    destruct (Iobuff.iobuff_full b) eqn:Hfull.
    + (* full: nothing fits *)
      apply iobuff_full_used in Hfull.
      assert (Hf0 : f = 0) by (unfold f; lia).
      assert (Hr : r = (0, b)).
      { unfold r, Iobuff.iobuff_append.
        replace (Iobuff.iobuff_full b) with true
          by (symmetry; by apply iobuff_full_used).
        by rewrite orb_true_r. }
      rewrite Hr, Hf0. cbn [fst snd]. repeat split.
      * rewrite Z.add_0_r. symmetry. apply wrap64_small. by destruct Hwf.
      * by rewrite app_nil_r.
      * exists 0, 0. repeat split; lia.
    + assert (Hroom : used b < Iobuff.size b).
      { destruct (decide (used b = Iobuff.size b)) as [E|E]; [|lia].
        apply iobuff_full_used in E. congruence. }
      assert (Hr : r = Iobuff.append_copy b data len).
      { unfold r. apply iobuff_append_no_growth; [|done]. unfold f in Hf. lia. }
      destruct (append_copy_spec b data len Hwf Hroom Hlen Hlt)
        as (H1 & H2 & H3 & H4 & _ & _ & H7).
      rewrite Z.min_r in H1, H4, H7 by lia.
      rewrite Hr. repeat split; try done.
      destruct (append_copy_chunks b data len Hwf Hroom ltac:(lia))
        as (c1 & c2 & Hc1 & Hc2 & Hsum & _ & _ & Heq).
      rewrite Z.min_r in Hsum by lia.
      exists c1, c2. repeat split; try done. rewrite Heq. cbn [snd Iobuff.buffer].
      destruct Hwf as [(k & Hk & Hs) _ _ _].
      by rewrite (mask_size b k).
  - intros [->|Hfull]; unfold Iobuff.iobuff_append.
    + done.
    + rewrite Hfull. by rewrite orb_true_r.
Qed.



(** *** The cursor invariant *)

Lemma length_realloc old new_size fresh :
  0 <= new_size ->
  Z.of_nat (length (Iobuff.realloc old new_size fresh)) = new_size.
Proof.
  intros H. unfold Iobuff.realloc.
  rewrite length_app, length_take, length_fmap, length_seq. lia.
Qed.

(** [iobuff_alloc] of a power of two gives a well-formed, empty buffer *)
Lemma iobuff_alloc_wf k b :
  0 <= k <= 62 -> Iobuff.iobuff_alloc true (2 ^ k) = Some b ->
  wf_buffer b /\ cursors_ok b /\ used b = 0.
Proof.
  intros Hk Hb. pose proof (pow2_le_62 k Hk) as Hp.
  unfold Iobuff.iobuff_alloc in Hb. injection Hb as <-.
  rewrite Z.mul_1_r, wrap64_small by (unfold SIZE_MOD; lia).
  assert (Hr : Iobuff.size_roundup (2 ^ k) = 2 ^ k).
  { unfold Iobuff.size_roundup.
    rewrite wrap64_small by (unfold SIZE_MOD; lia).
    replace (2 ^ k - 1) with (Z.ones k) by (rewrite Z.ones_equiv; lia).
    rewrite Z.land_ones by lia. rewrite Z.mod_same by lia. done. }
  rewrite Hr.
  assert (Hu : used (Iobuff.mk_io_buffer (replicate (Z.to_nat (2 ^ k)) x00) (2 ^ k) 0 0) = 0)
    by reflexivity.
  repeat split; unfold cursors_ok; rewrite ?Hu; cbn; unfold SIZE_MOD; try lia.
  - exists k. done.
  - rewrite length_replicate. lia.
Qed.

(** one [iobuff_append] keeps the buffer well formed and the cursors in
    range *)
Lemma iobuff_append_inv re b data can_reallocate :
  wf_buffer b -> cursors_ok b -> op_ok (Append re data can_reallocate) b ->
  wf_buffer (run_op (Append re data can_reallocate) b) /\
  cursors_ok (run_op (Append re data can_reallocate) b).
Proof.
  intros Hwf Hcur [Hlen Hgrow].
  pose proof Hwf as [(k & Hk & Hs) Hst Hh Ht].
  pose proof (pow2_le_62 k Hk) as Hp.
  unfold cursors_ok in Hcur. unfold PTRDIFF_MAX in Hlen.
  set (len := Z.of_nat (length data)) in *.
  assert (Hcopy : forall c, wf_buffer c -> used c < Iobuff.size c ->
            wf_buffer (snd (Iobuff.append_copy c data len)) /\
            cursors_ok (snd (Iobuff.append_copy c data len))).
  { intros c Hc Hroom.
    destruct (append_copy_spec c data len Hc Hroom eq_refl)
      as (_ & H2 & H3 & H4 & H5 & H6 & _); [unfold SIZE_MOD; lia|].
    pose proof (used_range c).
    destruct Hc as [Hc1 Hc2 Hc3 Hc4]. split.
    - constructor; rewrite ?H2, ?H3, ?H4, ?H5; try done. apply wrap64_range.
    - unfold cursors_ok. rewrite H2, H6. lia. }
  cbn [run_op]. unfold Iobuff.iobuff_append. unfold grows in Hgrow. fold len.
  destruct ((len =? 0) || Iobuff.iobuff_full b) eqn:Hearly; [done|].
  apply orb_false_elim in Hearly as [Hlen0 Hfull].
  assert (Hroom : used b < Iobuff.size b).
  { destruct (decide (used b = Iobuff.size b)) as [E|E]; [|lia].
    apply iobuff_full_used in E. congruence. }
  cbn [orb negb andb] in Hgrow.
  destruct ((wrap64 (Iobuff.iobuff_space b) <? len) && can_reallocate) eqn:Hg.
  - specialize (Hgrow eq_refl).
    destruct re as [|fresh]; [done|].
    apply Z.eqb_neq in Hlen0.
    assert (Hx : wrap64 (Iobuff.size b + len) = Iobuff.size b + len).
    { apply wrap64_small. unfold SIZE_MOD. lia. }
    rewrite Hx in *.
    destruct (size_roundup_grows (Iobuff.size b + len)) as (Hge & k' & Hk' & Hr');
      [unfold SIZE_MOD; lia|done|].
    apply Hcopy.
    + constructor; cbn; try done.
      * by exists k'.
      * apply length_realloc. lia.
    + unfold used. cbn. fold (used b). lia.
  - by apply Hcopy.
Qed.

(** one [iobuff_send] keeps the buffer well formed and the cursors in
    range, as long as [send] reports no more than it was given *)
Lemma iobuff_send_inv calloc_ok sent b :
  wf_buffer b -> cursors_ok b -> op_ok (Drain calloc_ok sent) b ->
  wf_buffer (run_op (Drain calloc_ok sent) b) /\
  cursors_ok (run_op (Drain calloc_ok sent) b).
Proof.
  intros Hwf Hcur Hsent. cbn in Hsent. cbn [run_op].
  unfold cursors_ok in *. pose proof (used_range b) as Hu.
  assert (Hadv : sent >= 0 ->
            let b' := Iobuff.mk_io_buffer (Iobuff.buffer b) (Iobuff.size b)
                        (Iobuff.head b) (wrap64 (Iobuff.tail b + sent)) in
            wf_buffer b' /\ 0 <= used b' <= Iobuff.size b').
  { intros Hpos b'.
    assert (Hu' : used b' = used b - sent).
    { unfold used at 1, b'. cbn. apply used_advance_tail. lia. }
    destruct Hwf as [H1 H2 H3 H4]. split.
    - constructor; cbn; try done. apply wrap64_range.
    - rewrite Hu'. cbn. lia. }
  unfold Iobuff.iobuff_send. fold (used b).
  destruct (used b =? 0); [done|].
  destruct (Iobuff.head b <? Iobuff.tail b).
  - destruct calloc_ok; [|done].
    destruct (Z.ltb_spec sent 0); [done|]. cbn [Iobuff.after]. apply Hadv. lia.
  - destruct (Z.ltb_spec sent 0); [done|]. cbn [Iobuff.after]. apply Hadv. lia.
Qed.

(** what [iobuff_empty] and [iobuff_full] say of a well-formed buffer
    with its cursors in range *)
Lemma cursors_facts b :
  wf_buffer b -> cursors_ok b ->
  wf_buffer b /\
  0 <= wrap64 (Iobuff.head b - Iobuff.tail b) <= Iobuff.size b /\
  (Iobuff.iobuff_empty b = true <-> Iobuff.head b = Iobuff.tail b) /\
  (Iobuff.iobuff_empty b = true <-> Iobuff.pending b = []) /\
  (Iobuff.iobuff_full b = true
   <-> wrap64 (Iobuff.head b - Iobuff.tail b) = Iobuff.size b) /\
  (Iobuff.iobuff_full b = true
   <-> Z.of_nat (length (Iobuff.pending b)) = Iobuff.size b).
Proof.
  intros Hwf Hcur.
  pose proof (used_range b) as Hu. fold (used b).
  split; [done|]. split; [apply Hcur|].
  split; [apply Z.eqb_eq|].
  split; [|split; [apply iobuff_full_used|]].
  - rewrite iobuff_empty_used by done. split.
    + intros He. apply length_zero_iff_nil. rewrite pending_length. lia.
    + intros Hnil. apply (f_equal length) in Hnil.
      rewrite pending_length in Hnil. cbn in Hnil. lia.
  - rewrite iobuff_full_used, pending_length. lia.
Qed.

(** [Placed.iobuff_append] is [Iobuff.iobuff_append] wherever it
    returns, and it keeps the place of the storage *)
Lemma placed_append_returns re pb data len can_reallocate :
  match Placed.iobuff_append re pb data len can_reallocate with
  | Placed.Returns n pb' =>
      (n, Placed.ring pb') = Iobuff.iobuff_append re (Placed.ring pb) data len can_reallocate /\
      Placed.storage_at pb' = Placed.storage_at pb
  | Placed.Aborts =>
      Placed.storage_at pb = Placed.InHeader /\
      grows (Placed.ring pb) len can_reallocate = true
  end.
Proof.
  unfold Placed.iobuff_append, Iobuff.iobuff_append, grows.
  destruct ((len =? 0) || Iobuff.iobuff_full (Placed.ring pb)); cbn [negb andb]; [done|].
  destruct (wrap64 (Iobuff.iobuff_space (Placed.ring pb)) <? len); cbn [andb].
  2: { split; [by destruct (Iobuff.append_copy _ _ _)|done]. }
  destruct can_reallocate; cbn [andb].
  2: { split; [by destruct (Iobuff.append_copy _ _ _)|done]. }
  destruct pb as [[|] b]; cbn [Placed.storage_at Placed.ring]; [done|].
  destruct re as [|fresh]; [done|].
  split; [by destruct (Iobuff.append_copy _ _ _)|done].
Qed.

(** one operation that returns *)
Lemma placed_run_op o pb pb' :
  Placed.run_op o pb = Some pb' ->
  Placed.ring pb' = run_op o (Placed.ring pb) /\
  Placed.storage_at pb' = Placed.storage_at pb.
Proof.
  destruct o as [re data can|calloc_ok sent]; cbn [Placed.run_op run_op].
  - pose proof (placed_append_returns re pb data (Z.of_nat (length data)) can) as H.
    destruct (Placed.iobuff_append _ _ _ _ _) as [n pb1|]; [|done].
    intros [= <-]. destruct H as [H1 H2]. split; [|done].
    by rewrite <- H1.
  - intros [= <-]. done.
Qed.

(** when one operation does not return *)
Lemma placed_run_op_aborts o pb :
  Placed.run_op o pb = None <->
  Placed.storage_at pb = Placed.InHeader /\ Placed.reaches_realloc o pb = true.
Proof.
  destruct o as [re data can|calloc_ok sent]; cbn [Placed.run_op Placed.reaches_realloc].
  - pose proof (placed_append_returns re pb data (Z.of_nat (length data)) can) as H.
    unfold Placed.iobuff_append, grows in *.
    destruct ((Z.of_nat (length data) =? 0) || Iobuff.iobuff_full (Placed.ring pb));
      cbn [negb andb]; [split; [done|intros [_ ?]; done]|].
    destruct (wrap64 (Iobuff.iobuff_space (Placed.ring pb)) <? Z.of_nat (length data));
      cbn [andb]; [|split; [done|intros [_ ?]; done]].
    destruct can; cbn [andb]; [|split; [done|intros [_ ?]; done]].
    destruct (Placed.storage_at pb); [done|].
    destruct re; split; try done; intros [? _]; done.
  - split; [done|intros [_ ?]; done].
Qed.

(** one operation that returns keeps the buffer well formed and the
    cursors in range *)
Lemma placed_run_op_inv o pb pb' :
  wf_buffer (Placed.ring pb) -> cursors_ok (Placed.ring pb) -> op_ok o (Placed.ring pb) ->
  Placed.run_op o pb = Some pb' ->
  wf_buffer (Placed.ring pb') /\ cursors_ok (Placed.ring pb').
Proof.
  intros Hwf Hcur Hok Hrun.
  destruct (placed_run_op o pb pb' Hrun) as [-> _].
  destruct o; [by apply iobuff_append_inv|by apply iobuff_send_inv].
Qed.

Lemma placed_run_ops_inv ops : forall pb pb',
  wf_buffer (Placed.ring pb) -> cursors_ok (Placed.ring pb) -> Placed.ops_ok ops pb ->
  Placed.run_ops ops pb = Some pb' ->
  wf_buffer (Placed.ring pb') /\ cursors_ok (Placed.ring pb') /\
  Placed.storage_at pb' = Placed.storage_at pb.
Proof.
  induction ops as [|o ops IH]; intros pb pb' Hwf Hcur Hok Hrun.
  - cbn in Hrun. by injection Hrun as <-.
  - cbn [Placed.run_ops Placed.ops_ok] in Hrun, Hok. destruct Hok as [Ho Hrest].
    destruct (Placed.run_op o pb) as [pb1|] eqn:Hstep; [|done].
    destruct (placed_run_op_inv o pb pb1 Hwf Hcur Ho Hstep) as [Hwf1 Hcur1].
    destruct (placed_run_op o pb pb1 Hstep) as [_ Hst1].
    destruct (IH pb1 pb' Hwf1 Hcur1 Hrest Hrun) as (H1 & H2 & H3).
    split; [done|]. split; [done|]. congruence.
Qed.

(** a run ends unless it reaches [realloc] with the storage inside the
    header's block *)
Lemma placed_run_ops_returns ops : forall pb,
  Placed.storage_at pb = Placed.OwnBlock \/ Forall Placed.no_growth ops ->
  is_Some (Placed.run_ops ops pb).
Proof.
  induction ops as [|o ops IH]; intros pb Hcase; [by eexists|].
  cbn [Placed.run_ops].
  destruct (Placed.run_op o pb) as [pb1|] eqn:Hstep.
  - apply IH. destruct (placed_run_op o pb pb1 Hstep) as [_ Hst].
    destruct Hcase as [Hown|Hall]; [left; congruence|right].
    by apply Forall_cons in Hall as [_ Hall].
  - apply placed_run_op_aborts in Hstep as [Hin Hreach]. exfalso.
    destruct Hcase as [Hown|Hall]; [congruence|].
    apply Forall_cons in Hall as [Ho _].
    destruct o as [re data can|]; cbn in Ho, Hreach; [|done].
    subst can. unfold grows in Hreach. by rewrite andb_false_r in Hreach.
Qed.

(** C7. A buffer whose capacity is a power of two and whose cursors are
    in range, taken through any sequence of appends and drains that the
    environment can answer: every state the calls return is well
    formed with [head - tail], as an unsigned difference, in [0, C] for
    its capacity [C]; [iobuff_empty] holds exactly when nothing is
    pending ([head == tail]) and [iobuff_full] exactly when [C] bytes
    are. The calls all return when the storage is a block of its own or
    no append asks for growth; one call does not return exactly when it
    reaches [realloc] with the storage inside the header's block, where
    [iobuff_alloc] puts it. *)
Theorem cursors_invariant ops pb :
  wf_buffer (Placed.ring pb) -> cursors_ok (Placed.ring pb) -> Placed.ops_ok ops pb ->
  (forall pb', Placed.run_ops ops pb = Some pb' ->
     let b' := Placed.ring pb' in
     wf_buffer b' /\
     0 <= wrap64 (Iobuff.head b' - Iobuff.tail b') <= Iobuff.size b' /\
     (Iobuff.iobuff_empty b' = true <-> Iobuff.head b' = Iobuff.tail b') /\
     (Iobuff.iobuff_empty b' = true <-> Iobuff.pending b' = []) /\
     (Iobuff.iobuff_full b' = true
      <-> wrap64 (Iobuff.head b' - Iobuff.tail b') = Iobuff.size b') /\
     (Iobuff.iobuff_full b' = true
      <-> Z.of_nat (length (Iobuff.pending b')) = Iobuff.size b')) /\
  (Placed.storage_at pb = Placed.OwnBlock \/ Forall Placed.no_growth ops ->
   is_Some (Placed.run_ops ops pb)) /\
  (forall o, Placed.run_op o pb = None <->
             Placed.storage_at pb = Placed.InHeader /\ Placed.reaches_realloc o pb = true).
Proof.
  intros Hwf Hcur Hok. split; [|split].
  - intros pb' Hrun.
    destruct (placed_run_ops_inv ops pb pb' Hwf Hcur Hok Hrun) as (Hwf' & Hcur' & _).
    by apply cursors_facts.
  - apply placed_run_ops_returns.
  - intros o. apply placed_run_op_aborts.
Qed.




(** *** [iobuff_send] *)

(** advancing [tail] by [sent] drops the first [sent] pending bytes *)
Lemma pending_after_drain b sent :
  wf_buffer b -> cursors_ok b -> 0 <= sent <= used b ->
  Iobuff.pending (Iobuff.mk_io_buffer (Iobuff.buffer b) (Iobuff.size b)
                    (Iobuff.head b) (wrap64 (Iobuff.tail b + sent)))
  = drop (Z.to_nat sent) (Iobuff.pending b).
Proof.
  intros [(k & Hk & Hs) Hst Hh Ht] Hcur Hsent. unfold cursors_ok in Hcur.
  pose proof (pow2_le_62 k Hk) as Hp.
  set (b' := Iobuff.mk_io_buffer _ _ _ _).
  assert (Hu' : used b' = used b - sent).
  { unfold used at 1, b'. cbn. apply used_advance_tail. unfold SIZE_MOD. lia. }
  apply list_eq. intros i. rewrite lookup_drop.
  destruct (decide (Z.of_nat i < used b - sent)) as [Hi|Hi].
  - rewrite (pending_lookup b' k), (pending_lookup b k) by (done || lia).
    unfold b'. cbn [Iobuff.buffer Iobuff.size Iobuff.tail].
    do 3 f_equal. rewrite Hs. unfold wrap64.
    rewrite mod_mod_pow2 by done.
    rewrite !Z.add_mod_idemp_l by lia. f_equal. lia.
  - rewrite !lookup_ge_None_2; [done| |]; rewrite pending_length; lia.
Qed.

(** When the pending bytes do not run past the end of the storage and
    the raw [head] is not below the raw [tail], [send] receives exactly
    the pending bytes, and [tail] advances by what it reports. *)
Lemma iobuff_send_contiguous calloc_ok sent b :
  wf_buffer b -> cursors_ok b ->
  Iobuff.tail b <= Iobuff.head b ->
  Iobuff.tail b mod Iobuff.size b + used b <= Iobuff.size b ->
  0 < used b -> 0 <= sent <= used b ->
  exists l,
    Iobuff.given (Iobuff.iobuff_send calloc_ok sent b) = Iobuff.Bytes l /\
    Some <$> l = Iobuff.pending b /\
    Iobuff.ret (Iobuff.iobuff_send calloc_ok sent b) = sent /\
    Iobuff.pending (Iobuff.after (Iobuff.iobuff_send calloc_ok sent b))
    = drop (Z.to_nat sent) (Iobuff.pending b).
Proof.
  intros Hwf Hcur Hle Hfit Hpos Hsent.
  pose proof Hwf as [(k & Hk & Hs) Hst Hh Ht].
  pose proof (pow2_le_62 k Hk) as Hp.
  assert (Hwt : 0 <= Iobuff.tail b mod Iobuff.size b < Iobuff.size b)
    by (apply Z.mod_pos_bound; lia).
  unfold Iobuff.iobuff_send. fold (used b).
  destruct (Z.eqb_spec (used b) 0); [lia|].
  destruct (Z.ltb_spec (Iobuff.head b) (Iobuff.tail b)); [lia|].
  rewrite !(mask_size b k) by done.
  unfold Iobuff.send_arg.
  destruct (Z.leb_spec (Iobuff.tail b mod Iobuff.size b + used b)
              (Z.of_nat (length (Iobuff.buffer b)))); [|lia].
  destruct (Z.ltb_spec sent 0); [lia|].
  eexists. cbn [Iobuff.given Iobuff.ret Iobuff.after].
  split; [reflexivity|]. split; [|split; [done|by apply pending_after_drain]].
  apply list_eq. intros i.
  destruct (decide (Z.of_nat i < used b)) as [Hi|Hi].
  - rewrite (pending_lookup b k) by (done || lia).
    rewrite list_lookup_fmap, lookup_take_lt, lookup_drop by lia.
    rewrite (Z.mod_small (Iobuff.tail b mod Iobuff.size b + Z.of_nat i)) by lia.
    replace (Z.to_nat (Iobuff.tail b mod Iobuff.size b) + i)%nat
      with (Z.to_nat (Iobuff.tail b mod Iobuff.size b + Z.of_nat i)) by lia.
    destruct (lookup_lt_is_Some_2 (Iobuff.buffer b)
                (Z.to_nat (Iobuff.tail b mod Iobuff.size b + Z.of_nat i))) as [x Hx]; [lia|].
    by rewrite Hx.
  - rewrite !lookup_ge_None_2; [done| |].
    + rewrite pending_length. lia.
    + rewrite length_fmap, length_take. lia.
Qed.

(** Whenever the pending bytes run past the end of the storage and the
    raw [head] is not below the raw [tail] (no cursor has overflowed
    [2^64]), [send] is given a range that leaves the storage. *)
Lemma iobuff_send_wrapped_out_of_storage calloc_ok sent b :
  wf_buffer b -> cursors_ok b ->
  Iobuff.tail b <= Iobuff.head b ->
  Iobuff.size b < Iobuff.tail b mod Iobuff.size b + used b ->
  Iobuff.given (Iobuff.iobuff_send calloc_ok sent b)
  = Iobuff.OutOfStorage (Iobuff.tail b mod Iobuff.size b) (used b).
Proof.
  intros Hwf Hcur Hle Hwrap.
  pose proof Hwf as [(k & Hk & Hs) Hst Hh Ht].
  pose proof (pow2_le_62 k Hk) as Hp.
  assert (Hwt : 0 <= Iobuff.tail b mod Iobuff.size b < Iobuff.size b)
    by (apply Z.mod_pos_bound; lia).
  unfold Iobuff.iobuff_send. fold (used b).
  destruct (Z.eqb_spec (used b) 0); [lia|].
  destruct (Z.ltb_spec (Iobuff.head b) (Iobuff.tail b)); [lia|].
  rewrite !(mask_size b k) by done.
  unfold Iobuff.send_arg.
  destruct (Z.leb_spec (Iobuff.tail b mod Iobuff.size b + used b)
              (Z.of_nat (length (Iobuff.buffer b)))); [lia|].
  by destruct (sent <? 0).
Qed.

(** a cursor below [2^64] lies in a stretch of [C] positions that ends
    at or before [2^64] *)
Lemma cursor_block t k :
  0 <= k <= 62 -> 0 <= t < SIZE_MOD ->
  t - t mod 2 ^ k + 2 ^ k <= SIZE_MOD.
Proof.
  intros Hk Ht. pose proof (pow2_le_62 k Hk) as Hp. unfold SIZE_MOD in *.
  assert (H64 : 2 ^ 64 = 2 ^ k * 2 ^ (64 - k)).
  { rewrite <- Z.pow_add_r by lia. f_equal. lia. }
  assert (Hq : t / 2 ^ k < 2 ^ (64 - k)).
  { apply Z.div_lt_upper_bound; lia. }
  pose proof (Z.div_mod t (2 ^ k) ltac:(lia)) as Hdm.
  assert (Hmul : 2 ^ k * (t / 2 ^ k + 1) <= 2 ^ k * 2 ^ (64 - k)).
  { apply Z.mul_le_mono_nonneg_l; lia. }
  lia.
Qed.

(** When the raw [head] is below the raw [tail] ([head] has overflowed
    [2^64], [tail] has not), the pending bytes do run past the end of
    the storage and the temporary region handed to [send] holds exactly
    the pending bytes. *)
Lemma iobuff_send_linearized sent b :
  wf_buffer b -> cursors_ok b ->
  Iobuff.head b < Iobuff.tail b ->
  exists l,
    Iobuff.given (Iobuff.iobuff_send true sent b) = Iobuff.Bytes l /\
    Some <$> l = Iobuff.pending b.
Proof.
  intros Hwf Hcur Hlt.
  pose proof Hwf as [(k & Hk & Hs) Hst Hh Ht].
  pose proof (pow2_le_62 k Hk) as Hp. unfold cursors_ok in Hcur.
  assert (Hwt : 0 <= Iobuff.tail b mod Iobuff.size b < Iobuff.size b) by (apply Z.mod_pos_bound; lia).
  set (wt := Iobuff.tail b mod Iobuff.size b) in *.
  assert (Hu : used b = Iobuff.head b - Iobuff.tail b + SIZE_MOD).
  { unfold used, wrap64. symmetry. apply (Z.mod_unique _ _ (-1)); lia. }
  assert (Hblock : Iobuff.tail b - wt + Iobuff.size b <= SIZE_MOD).
  { unfold wt. rewrite Hs. by apply cursor_block. }
  assert (Hwh : Iobuff.head b mod Iobuff.size b = wt + used b - Iobuff.size b).
  { rewrite (whead_geometry b k) by done. fold wt.
    rewrite mod_once by lia. destruct (Z.ltb_spec (wt + used b) (Iobuff.size b)); lia. }
  unfold Iobuff.iobuff_send. fold (used b).
  destruct (Z.eqb_spec (used b) 0); [lia|].
  destruct (Z.ltb_spec (Iobuff.head b) (Iobuff.tail b)); [|lia].
  rewrite !(mask_size b k) by done. fold wt. rewrite Hwh.
  rewrite (wrap64_small (Iobuff.size b - wt)) by (unfold SIZE_MOD in *; lia).
  set (temp := Iobuff.memcpy (Iobuff.memcpy _ 0 _ _) _ _ _).
  assert (Hlen : Z.of_nat (length temp) = Iobuff.size b).
  { unfold temp. rewrite !length_memcpy, length_replicate. lia. }
  assert (Harg : Iobuff.send_arg temp 0 (used b)
                 = Iobuff.Bytes (take (Z.to_nat (used b)) temp)).
  { unfold Iobuff.send_arg. destruct (Z.leb_spec (0 + used b) (Z.of_nat (length temp))); [|lia].
    done. }
  rewrite Harg.
  exists (take (Z.to_nat (used b)) temp). split; [by destruct (sent <? 0)|].
  apply list_eq. intros i.
  destruct (decide (Z.of_nat i < used b)) as [Hi|Hi].
  - rewrite (pending_lookup b k) by (done || lia). fold wt.
    rewrite list_lookup_fmap, lookup_take_lt by lia.
    unfold temp.
    rewrite memcpy_lookup;
      rewrite ?length_memcpy, ?length_replicate, ?length_drop; try lia.
    rewrite mod_once by lia.
    destruct (decide (Iobuff.size b - wt <= Z.of_nat i < Iobuff.size b - wt + (wt + used b - Iobuff.size b))) as [Hin|Hout].
    + destruct (Z.ltb_spec (wt + Z.of_nat i) (Iobuff.size b)); [lia|].
      replace (i - Z.to_nat (Iobuff.size b - wt))%nat with (Z.to_nat (wt + Z.of_nat i - Iobuff.size b)) by lia.
      destruct (lookup_lt_is_Some_2 (Iobuff.buffer b)
                  (Z.to_nat (wt + Z.of_nat i - Iobuff.size b))) as [x Hx]; [lia|].
      by rewrite Hx.
    + rewrite memcpy_lookup; rewrite ?length_replicate, ?length_drop; try lia.
      destruct (decide (0 <= Z.of_nat i < 0 + (Iobuff.size b - wt))) as [Hin0|Hout0]; [|lia].
      destruct (Z.ltb_spec (wt + Z.of_nat i) (Iobuff.size b)); [|lia].
      rewrite lookup_drop.
      replace (Z.to_nat wt + (i - Z.to_nat 0))%nat with (Z.to_nat (wt + Z.of_nat i)) by lia.
      destruct (lookup_lt_is_Some_2 (Iobuff.buffer b)
                  (Z.to_nat (wt + Z.of_nat i))) as [x Hx]; [lia|].
      by rewrite Hx.
  - rewrite !lookup_ge_None_2; [done| |].
    + rewrite pending_length. lia.
    + rewrite length_fmap, length_take. lia.
Qed.

(** *** Evaluations *)

Lemma ring4_drained_wf : wf_buffer Examples.ring4_drained.
Proof.
  constructor; cbn; unfold SIZE_MOD; try lia.
  exists 2. split; [lia|reflexivity].
Defined.

Lemma ring4_drained_cursors : cursors_ok Examples.ring4_drained.
Proof. unfold cursors_ok. vm_compute. split; discriminate. Defined.

Lemma iobuff_append_partial_witness :
  fst (Iobuff.iobuff_append Iobuff.ReallocNull Examples.ring4_drained
         ["c"; "d"; "e"; "f"; "g"; "h"]%byte 6 false) = 4 /\
  Iobuff.pending
    (snd (Iobuff.iobuff_append Iobuff.ReallocNull Examples.ring4_drained
            ["c"; "d"; "e"; "f"; "g"; "h"]%byte 6 false))
  = Iobuff.pending Examples.ring4_drained
    ++ (Some <$> take 4 ["c"; "d"; "e"; "f"; "g"; "h"]%byte).
Proof.
  assert (Hlt : 6 < SIZE_MOD) by (unfold SIZE_MOD; lia).
  destruct (iobuff_append_partial Iobuff.ReallocNull Examples.ring4_drained
              ["c"; "d"; "e"; "f"; "g"; "h"]%byte 6 false
              ring4_drained_wf ring4_drained_cursors eq_refl Hlt) as [H _].
  assert (Hf : Iobuff.size Examples.ring4_drained - used Examples.ring4_drained < 6)
    by (vm_compute; reflexivity).
  destruct (H Hf) as (H1 & _ & _ & _ & H5 & _).
  split; [exact H1|exact H5].
Defined.

Lemma ring4_fresh_wf : wf_buffer Examples.ring4_fresh.
Proof.
  constructor; cbn; unfold SIZE_MOD; try lia.
  exists 2. split; [lia|reflexivity].
Defined.

Lemma ring4_fresh_cursors : cursors_ok Examples.ring4_fresh.
Proof. unfold cursors_ok. vm_compute. split; discriminate. Defined.

Lemma alloc4_wf : wf_buffer (Placed.ring Scenarios.alloc4).
Proof. apply ring4_fresh_wf. Qed.

Lemma cursors_invariant_witness :
  Placed.iobuff_alloc true 4 = Some Scenarios.alloc4 /\
  exists pb',
    Placed.run_ops [Append Iobuff.ReallocNull ["a"; "b"]%byte false;
                    Drain true 2;
                    Append Iobuff.ReallocNull ["c"; "d"; "e"; "f"]%byte false;
                    Drain true 3] Scenarios.alloc4 = Some pb' /\
    0 <= wrap64 (Iobuff.head (Placed.ring pb') - Iobuff.tail (Placed.ring pb'))
      <= Iobuff.size (Placed.ring pb').
Proof.
  split; [reflexivity|].
  assert (Hok : Placed.ops_ok [Append Iobuff.ReallocNull ["a"; "b"]%byte false;
                               Drain true 2;
                               Append Iobuff.ReallocNull ["c"; "d"; "e"; "f"]%byte false;
                               Drain true 3] Scenarios.alloc4).
  { cbn [Placed.ops_ok].
    split; [split; [cbn; unfold PTRDIFF_MAX; lia|intros H; discriminate H]|].
    split; [vm_compute; discriminate|].
    split; [split; [cbn; unfold PTRDIFF_MAX; lia|intros H; discriminate H]|].
    split; [vm_compute; discriminate|exact I]. }
  destruct (cursors_invariant _ _ alloc4_wf ring4_fresh_cursors Hok) as [Hinv _].
  eexists. split; [reflexivity|].
  apply (Hinv _ eq_refl).
Defined.



(** C1, evaluated where the code departs from it. A buffer of capacity
    4 receives "ab", sends it, then receives "cdef": the four pending
    bytes occupy indices 2, 3, 0, 1. [iobuff_send] compares the raw
    cursors ([tail > head], 2 > 6), finds no wrap, and hands
    [buffer + 2] with length 4 to [send]: two bytes past the end of the
    storage instead of the linearized "cdef". [tail] still advances by
    what [send] reports. *)
Theorem iobuff_send_wrapped_not_linearized :
  Iobuff.iobuff_alloc true 4 = Some Examples.ring4_fresh /\
  Iobuff.iobuff_append Iobuff.ReallocNull Examples.ring4_fresh ["a"; "b"]%byte 2 false
    = (2, Iobuff.mk_io_buffer ["a"; "b"; x00; x00]%byte 4 2 0) /\
  Iobuff.iobuff_send true 2 (Iobuff.mk_io_buffer ["a"; "b"; x00; x00]%byte 4 2 0)
    = Iobuff.mk_send_outcome 2 (Iobuff.Bytes ["a"; "b"]%byte) Examples.ring4_drained /\
  Iobuff.iobuff_append Iobuff.ReallocNull Examples.ring4_drained
      ["c"; "d"; "e"; "f"]%byte 4 false
    = (4, Examples.ring4_wrapped) /\
  Iobuff.pending Examples.ring4_wrapped = Some <$> ["c"; "d"; "e"; "f"]%byte /\
  Iobuff.iobuff_send true 4 Examples.ring4_wrapped
    = Iobuff.mk_send_outcome 4 (Iobuff.OutOfStorage 2 4)
        (Iobuff.mk_io_buffer ["e"; "f"; "c"; "d"]%byte 4 6 6).
Proof. repeat split; reflexivity. Qed.

(** the linearizing branch is taken when the raw [head] is below the raw
    [tail], which needs a cursor that overflowed [2^64]; there it does
    hand over the pending bytes *)
Example iobuff_send_overflowed_linearized :
  Iobuff.pending Examples.ring8_overflowed = Some <$> ["g"; "h"; "a"]%byte /\
  Iobuff.given (Iobuff.iobuff_send true 3 Examples.ring8_overflowed)
    = Iobuff.Bytes ["g"; "h"; "a"]%byte.
Proof. split; reflexivity. Qed.

(** C2, evaluated where the code departs from it. The buffer of
    capacity 4 holds "dab" at indices 3, 0, 1. Appending "1234" with
    growth reallocates to 8 bytes in place: the cursors are now masked
    with 7, so the pending range starts at index 3 and runs through
    the fresh bytes 4 and 5, while "34" overwrite the unsent "ab" at
    indices 0 and 1. Reading back gives "d", two bytes the allocator
    left there, then "1234". *)
Theorem iobuff_append_growth_loses_bytes :
  Iobuff.pending Examples.ring4_three = Some <$> ["d"; "a"; "b"]%byte /\
  (forall fresh,
     Iobuff.iobuff_append (Iobuff.ReallocBlock fresh) Examples.ring4_three
       ["1"; "2"; "3"; "4"]%byte 4 true
     = (4, Iobuff.mk_io_buffer
             ["3"; "4"; "z"; "d"; fresh 4%nat; fresh 5%nat; "1"; "2"]%byte 8 10 3) /\
     Iobuff.pending
       (snd (Iobuff.iobuff_append (Iobuff.ReallocBlock fresh) Examples.ring4_three
               ["1"; "2"; "3"; "4"]%byte 4 true))
     = Some <$> ["d"; fresh 4%nat; fresh 5%nat; "1"; "2"; "3"; "4"]%byte) /\
  Iobuff.pending
    (snd (Iobuff.iobuff_append (Iobuff.ReallocBlock (fun _ => x00)) Examples.ring4_three
            ["1"; "2"; "3"; "4"]%byte 4 true))
  <> Iobuff.pending Examples.ring4_three ++ (Some <$> ["1"; "2"; "3"; "4"]%byte).
Proof.
  split; [reflexivity|]. split.
  - intros fresh. split; reflexivity.
  - vm_compute. discriminate.
Qed.

(** when [head] is numerically ahead of [tail] and the free space fits
    an [int], [iobuff_space] is the uniform [size - (head - tail)] *)
Lemma iobuff_space_ahead b :
  wf_buffer b -> cursors_ok b ->
  Iobuff.tail b <= Iobuff.head b -> Iobuff.size b < 2 ^ 31 ->
  Iobuff.iobuff_space b = Iobuff.size b - used b.
Proof.
  intros [_ _ Hh Ht] Hcur Hle Hsmall. unfold cursors_ok in Hcur.
  unfold Iobuff.iobuff_space. fold (used b).
  destruct (Z.leb_spec (Iobuff.tail b) (Iobuff.head b)); [|lia].
  rewrite wrap64_small by (unfold SIZE_MOD; lia).
  unfold to_int, UINT_MOD. rewrite Z.mod_small by lia. lia.
Qed.

(** C3, evaluated where the code departs from it. With capacity 8,
    [head = 1] and [tail = 2^64 - 2], the unsigned difference is 3 and
    the uniform formula gives 5 free bytes; [iobuff_space] takes its
    [tail - head] branch and returns [(int)(2^64 - 3) = -3]. *)
Theorem iobuff_space_not_uniform :
  wf_buffer Examples.ring8_overflowed /\
  cursors_ok Examples.ring8_overflowed /\
  wrap64 (Iobuff.head Examples.ring8_overflowed - Iobuff.tail Examples.ring8_overflowed) = 3 /\
  wrap64 (Iobuff.size Examples.ring8_overflowed
          - wrap64 (Iobuff.head Examples.ring8_overflowed
                    - Iobuff.tail Examples.ring8_overflowed)) = 5 /\
  Iobuff.iobuff_space Examples.ring8_overflowed = -3.
Proof.
  split.
  { constructor; cbn; unfold SIZE_MOD; try lia. exists 3. split; [lia|reflexivity]. }
  split.
  { unfold cursors_ok. vm_compute. split; discriminate. }
  repeat split; reflexivity.
Qed.

(** the [int] result also truncates the uniform branch: an empty buffer
    of capacity [2^32] reports no free space (only the cursors and the
    size are read; the storage is left out here) *)
Example iobuff_space_int_truncation :
  Iobuff.iobuff_space (Iobuff.mk_io_buffer [] (2 ^ 32) 0 0) = 0.
Proof. reflexivity. Qed.

End IobuffFacts.


(** ** Connections and dispatch *)

Module ServerFacts.
Import CInt Inv.

(** unfolding of field updates and projections of the server *)
Ltac server_simpl :=
  cbn [Server.heap Server.polled Server.contexts Server.sockets
       Server.listener_fd Server.server_handler Server.store
       Server.with_heap Server.with_polled Server.with_contexts
       Server.with_sockets Server.returned Server.final Server.free
       Server.info_fd Server.input Server.output Server.event_handler
       fst snd].

(** *** [as_accept] *)

(** the example server is the one [create_pollfds(MAX_CLIENTS)] and the
    listener's [add_event] build *)
Example listening_registry :
  Pollfds.create_pollfds true true Server.MAX_CLIENTS = Some Examples.empty_registry /\
  Pollfds.watched (Server.polled Examples.listening) = [Pollfds.mk_pollfd 3 3 0].
Proof. split; reflexivity. Qed.

(** a failure before [add_event] leaves the registry and the table as
    they were *)
Lemma as_accept_early_failure env handler s :
  Server.client_mem env = None \/ Server.accepted env < 0 \/
  Server.getfl env < 0 \/ Server.setfl env < 0 ->
  Server.returned (Server.as_accept env handler s) = Some None /\
  Server.polled (Server.final (Server.as_accept env handler s)) = Server.polled s /\
  Server.contexts (Server.final (Server.as_accept env handler s)) = Server.contexts s.
Proof.
  intros H. unfold Server.as_accept, Server.client_alloc.
  destruct (Server.client_mem env) as [client|]; [|done].
  destruct H as [H|H]; [done|].
  destruct (Z.ltb_spec (Server.accepted env) 0); [done|].
  destruct H as [H|H]; [lia|].
  unfold Server.error_disconnect, Server.error_free, Server.client_close.
  server_simpl. rewrite !lookup_insert_eq. server_simpl.
  destruct (Z.ltb_spec (Server.getfl env) 0); [done|].
  destruct H as [H|H]; [lia|].
  destruct (Z.ltb_spec (Server.setfl env) 0); [done|lia].
Qed.

(** a full registry refuses the connection and stays as it was *)
Lemma as_accept_registry_full env handler s :
  Pollfds.polled (Server.polled s) = Pollfds.length (Server.polled s) ->
  Server.returned (Server.as_accept env handler s) = Some None /\
  Server.polled (Server.final (Server.as_accept env handler s)) = Server.polled s /\
  Server.contexts (Server.final (Server.as_accept env handler s)) = Server.contexts s.
Proof.
  intros Hfull.
  destruct (decide (Server.client_mem env = None \/ Server.accepted env < 0 \/
                    Server.getfl env < 0 \/ Server.setfl env < 0)) as [He|He].
  { by apply as_accept_early_failure. }
  unfold Server.as_accept, Server.client_alloc.
  destruct (Server.client_mem env) as [client|]; [|done].
  destruct (Z.ltb_spec (Server.accepted env) 0); [exfalso; apply He; lia|].
  destruct (Z.ltb_spec (Server.getfl env) 0); [exfalso; apply He; lia|].
  destruct (Z.ltb_spec (Server.setfl env) 0); [exfalso; apply He; lia|].
  cbn [Server.polled Server.store Server.with_heap Server.with_sockets Server.info_fd].
  rewrite PollfdsFacts.add_event_full by done.
  change (-1 <? 0) with true. cbv iota.
  unfold Server.error_disconnect, Server.error_free, Server.client_close.
  server_simpl. rewrite !lookup_insert_eq. server_simpl. by destruct s.
Qed.

(** Whenever the registry has room and every step up to [add_event]
    succeeds, a failing [htable_insert] makes [as_accept] return NULL
    with the new descriptor still watched, and the lookup table as it
    was: [error_disconnect] has no [remove_event]. *)
Lemma as_accept_insert_failure env handler s client :
  wf_pollfds (Server.polled s) ->
  Pollfds.polled (Server.polled s) < Pollfds.length (Server.polled s) ->
  Server.client_mem env = Some client ->
  0 <= Server.accepted env -> 0 <= Server.getfl env -> 0 <= Server.setfl env ->
  Server.insert_ok env = false ->
  Server.returned (Server.as_accept env handler s) = Some None /\
  watches (Server.polled (Server.final (Server.as_accept env handler s)))
          (Server.accepted env) /\
  Server.contexts (Server.final (Server.as_accept env handler s)) = Server.contexts s.
Proof.
  intros Hwf Hroom Hmem Hacc Hget Hset Hins.
  unfold Server.as_accept, Server.client_alloc. rewrite Hmem.
  destruct (Z.ltb_spec (Server.accepted env) 0); [lia|].
  destruct (Z.ltb_spec (Server.getfl env) 0); [lia|].
  destruct (Z.ltb_spec (Server.setfl env) 0); [lia|].
  server_simpl.
  destruct (PollfdsFacts.add_event_watches (Server.polled s) (Server.accepted env)
              (Z.lor (Z.lor Server.POLLIN Server.POLLOUT) Server.POLLHUP) Hwf Hroom)
    as [Hr Hw].
  destruct (Pollfds.add_event _ _ _) as [r p]. cbn [fst snd] in Hr, Hw. subst r.
  change (0 <? 0) with false. cbv iota.
  unfold Server.htable_insert. rewrite Hins.
  change (-1 <? 0) with true. cbv iota.
  unfold Server.error_disconnect, Server.error_free, Server.client_close.
  server_simpl. rewrite !lookup_insert_eq. server_simpl. done.
Qed.

(** C4, evaluated where the code departs from it. The server listens
    on descriptor 3; a connection arrives as descriptor 5.
    - [htable_insert] fails: [as_accept] goes to [error_disconnect],
      closes the socket, frees the context and returns NULL, but never
      takes descriptor 5 out of the registry, which [add_event] had
      already entered: two descriptors are watched afterwards.
    - the input (or output) buffer cannot be allocated: the unwinding
      calls [iobuff_free] on the NULL just stored and the process stops
      there, with descriptor 5 both watched and in the lookup table. *)
Theorem as_accept_failure_leaves_entries :
  (Server.returned (Server.as_accept Examples.accept_insert_fails 7 Examples.listening)
     = Some None /\
   Pollfds.watched
     (Server.polled
        (Server.final (Server.as_accept Examples.accept_insert_fails 7 Examples.listening)))
     = [Pollfds.mk_pollfd 3 3 0; Pollfds.mk_pollfd 5 21 0] /\
   Server.heap
     (Server.final (Server.as_accept Examples.accept_insert_fails 7 Examples.listening))
     = ∅ /\
   Server.sockets
     (Server.final (Server.as_accept Examples.accept_insert_fails 7 Examples.listening))
     = {[3]}) /\
  (Server.returned (Server.as_accept Examples.accept_input_fails 7 Examples.listening)
     = None /\
   Pollfds.watched
     (Server.polled
        (Server.final (Server.as_accept Examples.accept_input_fails 7 Examples.listening)))
     = [Pollfds.mk_pollfd 3 3 0; Pollfds.mk_pollfd 5 21 0] /\
   Server.htable_get
     (Server.contexts
        (Server.final (Server.as_accept Examples.accept_input_fails 7 Examples.listening))) 5
     = Some 0%nat) /\
  (Server.returned (Server.as_accept Examples.accept_output_fails 7 Examples.listening)
     = None /\
   Pollfds.watched
     (Server.polled
        (Server.final (Server.as_accept Examples.accept_output_fails 7 Examples.listening)))
     = [Pollfds.mk_pollfd 3 3 0; Pollfds.mk_pollfd 5 21 0] /\
   Server.htable_get
     (Server.contexts
        (Server.final (Server.as_accept Examples.accept_output_fails 7 Examples.listening))) 5
     = Some 0%nat).
Proof. repeat split; vm_compute; reflexivity. Qed.

(** the successful accept, for comparison *)
Example as_accept_success :
  Server.returned (Server.as_accept Examples.accept_ok 7 Examples.listening) = Some (Some 0%nat) /\
  Pollfds.watched (Server.polled Examples.connected)
    = [Pollfds.mk_pollfd 3 3 0; Pollfds.mk_pollfd 5 21 0] /\
  Server.htable_get (Server.contexts Examples.connected) 5 = Some 0%nat /\
  dom (Server.heap Examples.connected) = {[0%nat; 1%nat; 2%nat]} /\
  Server.heap Examples.connected !! 0%nat
    = Some (Server.BClient (Server.mk_client_context 5 (Server.BufAt 1) (Server.BufAt 2) 7 0 0)).
Proof. repeat split; vm_compute; reflexivity. Qed.

(** *** [as_disconnect] *)

(** [as_disconnect] releases the context's chunk and nothing else *)
Lemma as_disconnect_heap s client c :
  Server.heap s !! client = Some (Server.BClient c) ->
  Server.returned (Server.as_disconnect s client) = Some tt /\
  Server.heap (Server.final (Server.as_disconnect s client)) = delete client (Server.heap s).
Proof.
  intros Hc. unfold Server.as_disconnect. rewrite Hc.
  cbn [Server.returned Server.final]. split; [done|].
  unfold Server.free, Server.client_close.
  cbn [Server.heap Server.with_polled Server.with_contexts Server.with_heap Server.with_sockets].
  rewrite Hc.
  cbn [Server.heap Server.with_polled Server.with_contexts Server.with_heap Server.with_sockets].
  apply delete_insert_eq.
Qed.

(** the registry and the table after [as_disconnect] *)
Lemma as_disconnect_entries s client c :
  Server.heap s !! client = Some (Server.BClient c) ->
  Server.polled (Server.final (Server.as_disconnect s client))
    = Pollfds.remove_event (Server.polled s) (Server.info_fd c) /\
  Server.contexts (Server.final (Server.as_disconnect s client))
    = delete (Server.info_fd c) (Server.contexts s).
Proof.
  intros Hc. unfold Server.as_disconnect. rewrite Hc.
  cbn [Server.returned Server.final].
  unfold Server.free, Server.client_close, Server.htable_remove.
  cbn [Server.heap Server.with_polled Server.with_contexts Server.with_heap Server.with_sockets].
  rewrite Hc. done.
Qed.

(** for a connected client, [as_disconnect] lowers the watched count by
    one, stops watching the descriptor and makes its lookup fail *)
Lemma as_disconnect_unregisters s client c :
  Server.heap s !! client = Some (Server.BClient c) ->
  wf_pollfds (Server.polled s) -> watches (Server.polled s) (Server.info_fd c) ->
  Pollfds.polled (Server.polled (Server.final (Server.as_disconnect s client)))
    = Pollfds.polled (Server.polled s) - 1 /\
  ~ watches (Server.polled (Server.final (Server.as_disconnect s client)))
            (Server.info_fd c) /\
  Server.htable_get (Server.contexts (Server.final (Server.as_disconnect s client)))
                    (Server.info_fd c) = None.
Proof.
  intros Hc Hwf Hw.
  destruct (as_disconnect_entries s client c Hc) as [-> ->].
  destruct (PollfdsFacts.remove_event_watched _ _ Hwf Hw) as (i & e & _ & _ & Hpol & _).
  split; [done|]. split.
  - by apply PollfdsFacts.remove_event_gone.
  - unfold Server.htable_get. apply lookup_delete_eq.
Qed.

(** C5, evaluated where the code departs from it. The server holds one
    connection: descriptor 5, context at address 0, input buffer at 1,
    output buffer at 2. [as_disconnect] takes descriptor 5 out of the
    registry (two watched descriptors become one), out of the lookup
    table, closes it and frees the context; the two buffers are still
    allocated afterwards, and nothing refers to them any more. *)
Theorem as_disconnect_leaks_buffers :
  Pollfds.polled (Server.polled Examples.connected) = 2 /\
  Server.heap Examples.connected !! 0%nat
    = Some (Server.BClient (Server.mk_client_context 5 (Server.BufAt 1) (Server.BufAt 2) 7 0 0)) /\
  Server.returned (Server.as_disconnect Examples.connected 0) = Some tt /\
  Pollfds.polled (Server.polled (Server.final (Server.as_disconnect Examples.connected 0))) = 1 /\
  Pollfds.watched (Server.polled (Server.final (Server.as_disconnect Examples.connected 0)))
    = [Pollfds.mk_pollfd 3 3 0] /\
  Server.htable_get
    (Server.contexts (Server.final (Server.as_disconnect Examples.connected 0))) 5 = None /\
  Server.sockets (Server.final (Server.as_disconnect Examples.connected 0)) = {[3]} /\
  dom (Server.heap (Server.final (Server.as_disconnect Examples.connected 0)))
    = {[1%nat; 2%nat]}.
Proof. repeat split; vm_compute; reflexivity. Qed.



(** *** [as_poll] *)

Section DispatchFacts.

Variable run_handler :
  nat -> Server.context_arg -> Z -> Server.server_context -> Server.server_context.

Lemma slots_below_mono i j calls :
  (i <= j)%nat -> slots_below i calls -> slots_below j calls.
Proof.
  intros Hij Hb. unfold slots_below in *. eapply Forall_impl; [exact Hb|].
  intros [ev|k c ev]; [done|lia].
Qed.

(** one more client callback, for a slot above all the recorded ones *)
Lemma client_calls_snoc calls : forall lo i client ev,
  client_calls_from lo calls -> slots_below i calls ->
  (lo <= i)%nat -> ev <> 0 ->
  client_calls_from lo (calls ++ [Server.ClientCall i client ev]).
Proof.
  induction calls as [|c calls IH]; intros lo i client ev Hc Hb Hlo Hev.
  - cbn. done.
  - destruct c as [ev'|j c' ev']; [done|].
    destruct Hc as (Hj & Hev' & Hrest).
    apply Forall_cons in Hb as [Hji Hb].
    cbn. repeat split; try done. apply IH; try done; lia.
Qed.

Lemma dispatch_order_snoc calls i client ev :
  dispatch_order calls -> slots_below i calls ->
  (1 <= i)%nat -> ev <> 0 ->
  dispatch_order (calls ++ [Server.ClientCall i client ev]).
Proof.
  intros Hd Hb Hi Hev. destruct calls as [|[ev'|j c' ev'] calls].
  - cbn. done.
  - destruct Hd as [Hev' Hrest]. apply Forall_cons in Hb as [_ Hb].
    cbn. split; [done|]. by apply client_calls_snoc.
  - change (client_calls_from 1 ((Server.ClientCall j c' ev' :: calls)
                                  ++ [Server.ClientCall i client ev])).
    by apply client_calls_snoc.
Qed.

(** the client loop extends an ordered record of callbacks to an
    ordered record, whatever the callbacks do to the server *)
Lemma poll_clients_order todo : forall i s calls,
  (1 <= i)%nat -> dispatch_order calls -> slots_below i calls ->
  dispatch_order (Server.calls_of (Server.poll_clients run_handler todo i s calls)).
Proof.
  induction todo as [|todo IH]; intros i s calls Hi Hd Hb; cbn [Server.poll_clients].
  - destruct (Z.of_nat i <? Pollfds.polled (Server.polled s)); done.
  - destruct (Z.of_nat i <? Pollfds.polled (Server.polled s)); [|done].
    destruct (Z.eqb_spec
                (Pollfds.revents (Pollfds.slot (Pollfds.fds (Server.polled s)) i)) 0)
      as [E|E].
    + apply IH; [lia|done|]. eapply slots_below_mono; [|done]. lia.
    + destruct (Server.htable_get _ _) as [client|]; [|done].
      destruct (Server.heap s !! client) as [[c|b]|]; try done.
      apply IH; [lia| |].
      * by apply dispatch_order_snoc.
      * unfold slots_below. apply Forall_app. split.
        -- eapply slots_below_mono; [|done]. lia.
        -- apply Forall_singleton. lia.
Qed.

(** the client loop returns 0 when it returns *)
Lemma poll_clients_returns todo : forall i s calls r s' calls',
  Server.poll_clients run_handler todo i s calls = Server.PollReturns r s' calls' ->
  r = 0.
Proof.
  induction todo as [|todo IH]; intros i s calls r s' calls'; cbn [Server.poll_clients].
  - destruct (Z.of_nat i <? Pollfds.polled (Server.polled s)); [done|]. congruence.
  - destruct (Z.of_nat i <? Pollfds.polled (Server.polled s)); [|congruence].
    destruct (Pollfds.revents _ =? 0); [apply IH|].
    destruct (Server.htable_get _ _) as [client|]; [|done].
    destruct (Server.heap s !! client) as [[c|b]|]; try done. apply IH.
Qed.

(** with callbacks that keep the watched count within [bound], the
    client loop ends within [bound - i] iterations *)
Lemma poll_clients_ends bound todo : forall i s calls,
  handlers_bounded run_handler bound ->
  0 <= Pollfds.polled (Server.polled s) <= bound ->
  bound <= Z.of_nat todo + Z.of_nat i ->
  forall s' calls',
    Server.poll_clients run_handler todo i s calls <> Server.PollRunning s' calls'.
Proof.
  induction todo as [|todo IH]; intros i s calls Hh Hp Hb s' calls';
    cbn [Server.poll_clients].
  - destruct (Z.ltb_spec (Z.of_nat i) (Pollfds.polled (Server.polled s))); [lia|done].
  - destruct (Z.of_nat i <? Pollfds.polled (Server.polled s)); [|done].
    destruct (Pollfds.revents _ =? 0); [apply IH; try done; lia|].
    destruct (Server.htable_get _ _) as [client|]; [|done].
    destruct (Server.heap s !! client) as [[c|b]|]; try done.
    apply IH; [done|by apply Hh|lia].
Qed.

(** the shape of the record of one [as_poll], whatever the callbacks
    do to the server: at most one listener callback, ahead of every
    client callback; client callbacks for strictly increasing slots,
    none below slot 1, none with an empty mask. A failed poll returns
    -1 with no callback at all, and otherwise the value returned is 0.
    The iteration ends (the loop runs out of slots, not of its bound)
    whenever the callbacks keep the watched count within the bound. *)
Lemma as_poll_order bound result observed s :
  dispatch_order (Server.calls_of (Server.as_poll run_handler bound result observed s)) /\
  (forall r s' calls,
     Server.as_poll run_handler bound result observed s = Server.PollReturns r s' calls ->
     (result < 0 /\ r = -1 /\ calls = []) \/ (0 <= result /\ r = 0)) /\
  (forall limit,
     handlers_bounded run_handler limit ->
     0 <= Pollfds.polled (Server.polled s) <= limit ->
     limit <= Z.of_nat bound + 1 ->
     forall s' calls,
       Server.as_poll run_handler bound result observed s <> Server.PollRunning s' calls).
Proof.
  unfold Server.as_poll, Pollfds.poll_events.
  destruct (Z.ltb_spec result 0) as [Hneg|Hpos]; cbv beta iota zeta.
  { (* poll(2) failed *)
    destruct (Z.ltb_spec result 0) as [_|]; [|lia].
    cbn [Server.calls_of]. split; [done|]. split.
    - intros r s' calls Hr. injection Hr as <- _ <-. by left.
    - intros limit _ _ _ s' calls. discriminate. }
  destruct (Z.ltb_spec result 0) as [|_]; [lia|].
  set (s1 := Server.with_polled s _).
  set (server_events := Pollfds.revents (Pollfds.slot _ 0)).
  assert (Hp1 : Pollfds.polled (Server.polled s1) = Pollfds.polled (Server.polled s))
    by reflexivity.
  destruct (Z.eqb_spec server_events 0) as [E|E].
  - split; [|split].
    + apply poll_clients_order; [lia|done|apply Forall_nil_2].
    + intros r s' calls Hr. right. split; [done|]. by eapply poll_clients_returns.
    + intros limit Hh Hp Hb. apply (poll_clients_ends limit); [done| |lia].
      by rewrite Hp1.
  - split; [|split].
    + apply poll_clients_order; [lia|done|].
      apply Forall_singleton. done.
    + intros r s' calls Hr. right. split; [done|]. by eapply poll_clients_returns.
    + intros limit Hh Hp Hb. apply (poll_clients_ends limit); [done| |lia].
      apply Hh. by rewrite Hp1.
Qed.

End DispatchFacts.



(** the disconnecting callbacks keep the watched count within the
    registry's capacity *)
Lemma hangup_handler_bounded : handlers_bounded Examples.hangup_handler Server.MAX_CLIENTS.
Proof.
  intros h a ev s Hp. unfold Examples.hangup_handler.
  do 7 (destruct h as [|h]; [exact Hp|]). destruct h as [|h]; [|exact Hp].
  destruct a as [|client]; [exact Hp|].
  unfold Server.as_disconnect.
  destruct (Server.heap s !! client) as [[c|b]|] eqn:Hc; try done.
  cbn [Server.final]. unfold Server.free, Server.client_close.
  server_simpl. rewrite Hc. server_simpl.
  pose proof (PollfdsFacts.remove_event_polled_bound (Server.polled s) (Server.info_fd c)
                ltac:(lia)).
  lia.
Qed.

(** two connections in slots 1 and 2, everything ready, callbacks that
    leave the server alone: listener first, then slot 1, then slot 2 *)
Example as_poll_idle_calls :
  Server.calls_of
    (Server.as_poll Examples.idle_handler 1024 3 Examples.all_ready Examples.two_connected)
  = [Server.ListenerCall 1; Server.ClientCall 1 0 1; Server.ClientCall 2 3 4].
Proof. vm_compute. reflexivity. Qed.

(** the same with callbacks that disconnect their client: the callback
    of slot 1 removes its entry, [remove_event] moves the entry of
    descriptor 6 from slot 2 into slot 1 behind the loop index, and the
    loop ends without calling it in this iteration *)
Example as_poll_hangup_calls :
  Server.calls_of
    (Server.as_poll Examples.hangup_handler 1024 3 Examples.all_ready Examples.two_connected)
  = [Server.ListenerCall 1; Server.ClientCall 1 0 1].
Proof. vm_compute. reflexivity. Qed.

End ServerFacts.

(** ** Keys, address arithmetic and the socket wrappers *)

Module KeysFacts.
Import CInt.

(** X1. On [int] keys, [client_hash] separates distinct descriptors and
    is [fd - 4] from descriptor 4 on; [client_compare] returns 0 exactly
    on equal keys, so keys that compare equal hash equal; on descriptors
    that are not negative the difference never overflows and its sign
    orders them. *)
Theorem client_keys_agree a b :
  Keys.INT_MIN <= a <= Keys.INT_MAX -> Keys.INT_MIN <= b <= Keys.INT_MAX ->
  (Keys.client_hash a = Keys.client_hash b <-> a = b) /\
  (Keys.client_compare a b = Some 0 <-> a = b) /\
  (4 <= a -> Keys.client_hash a = a - 4) /\
  (0 <= a -> 0 <= b ->
   exists r, Keys.client_compare a b = Some r /\ (r < 0 <-> a < b) /\ (0 < r <-> b < a)).
Proof.
  unfold Keys.INT_MIN, Keys.INT_MAX. intros Ha Hb.
  assert (Hhash : forall v, - 2 ^ 31 <= v <= 2 ^ 31 - 1 ->
            Keys.client_hash v = if 4 <=? v then v - 4 else v - 4 + 2 ^ 32).
  { intros v Hv. unfold Keys.client_hash, UINT_MOD.
    rewrite Zminus_mod_idemp_l.
    destruct (Z.leb_spec 4 v).
    - apply Z.mod_small. lia.
    - symmetry. apply (Z.mod_unique _ _ (-1)); lia. }
  repeat split.
  - rewrite !Hhash by done.
    destruct (Z.leb_spec 4 a), (Z.leb_spec 4 b); lia.
  - by intros ->.
  - unfold Keys.client_compare, Keys.INT_MIN, Keys.INT_MAX. cbv zeta.
    destruct ((- 2 ^ 31 <=? a - b) && (a - b <=? 2 ^ 31 - 1)); [|done].
    intros [= H]. lia.
  - intros ->. unfold Keys.client_compare, Keys.INT_MIN, Keys.INT_MAX.
    rewrite Z.sub_diag. done.
  - intros H4. rewrite Hhash by done. destruct (Z.leb_spec 4 a); lia.
  - intros Ha0 Hb0. exists (a - b).
    unfold Keys.client_compare, Keys.INT_MIN, Keys.INT_MAX. cbv zeta.
    destruct (Z.leb_spec (- 2 ^ 31) (a - b)); [|lia].
    destruct (Z.leb_spec (a - b) (2 ^ 31 - 1)); [|lia].
    repeat split; lia.
Qed.

Lemma client_keys_agree_witness :
  (Keys.client_hash 5 = Keys.client_hash 7 <-> 5 = 7) /\
  (Keys.client_compare 5 7 = Some 0 <-> 5 = 7) /\
  (4 <= 5 -> Keys.client_hash 5 = 5 - 4) /\
  (0 <= 5 -> 0 <= 7 ->
   exists r, Keys.client_compare 5 7 = Some r /\ (r < 0 <-> 5 < 7) /\ (0 < r <-> 7 < 5)).
Proof.
  apply (client_keys_agree 5 7); unfold Keys.INT_MIN, Keys.INT_MAX; lia.
Defined.

End KeysFacts.

Module LayoutFacts.
Import CInt.

(** [align_ptr] with a power of two as alignment *)
Lemma align_ptr_aligned ptr bytes k :
  0 <= k <= 62 -> 0 <= ptr -> 0 <= bytes ->
  ptr + bytes + 2 ^ k <= SIZE_MOD ->
  Layout.align_ptr ptr bytes (2 ^ k) mod 2 ^ k = 0 /\
  ptr + bytes <= Layout.align_ptr ptr bytes (2 ^ k) < ptr + bytes + 2 ^ k /\
  (Layout.align_ptr ptr bytes (2 ^ k) = ptr + bytes <-> (ptr + bytes) mod 2 ^ k = 0).
Proof.
  intros Hk Hptr Hbytes Hfit.
  pose proof (IobuffFacts.pow2_le_62 k Hk) as Hp.
  unfold Layout.align_ptr.
  rewrite (IobuffFacts.wrap64_small (ptr + bytes)) by lia.
  rewrite IobuffFacts.mask_mod by done.
  pose proof (Z.mod_pos_bound (ptr + bytes) (2 ^ k) ltac:(lia)) as Hm.
  pose proof (Z.div_mod (ptr + bytes) (2 ^ k) ltac:(lia)) as Hdm.
  destruct (Z.eqb_spec ((ptr + bytes) mod 2 ^ k) 0) as [E|E]; cbn [negb].
  - repeat split; lia.
  - rewrite (IobuffFacts.wrap64_small (2 ^ k - _)) by (unfold SIZE_MOD in *; lia).
    rewrite IobuffFacts.wrap64_small by lia.
    repeat split; try lia.
    replace (ptr + bytes + (2 ^ k - (ptr + bytes) mod 2 ^ k))
      with (((ptr + bytes) / 2 ^ k + 1) * 2 ^ k) by lia.
    apply Z.mod_mul. lia.
Qed.

(** X2. [align_ptr] with a power-of-two alignment returns the least
    aligned address at or above [ptr + bytes]: it is a multiple of the
    alignment, not below [ptr + bytes], and no other such multiple is
    smaller. *)
Theorem align_ptr_least ptr bytes k :
  0 <= k <= 62 -> 0 <= ptr -> 0 <= bytes ->
  ptr + bytes + 2 ^ k <= SIZE_MOD ->
  Layout.align_ptr ptr bytes (2 ^ k) mod 2 ^ k = 0 /\
  ptr + bytes <= Layout.align_ptr ptr bytes (2 ^ k) /\
  (forall m, m mod 2 ^ k = 0 -> ptr + bytes <= m ->
             Layout.align_ptr ptr bytes (2 ^ k) <= m).
Proof.
  intros Hk Hptr Hbytes Hfit.
  destruct (align_ptr_aligned ptr bytes k Hk Hptr Hbytes Hfit) as (Hal & Hr & _).
  pose proof (IobuffFacts.pow2_le_62 k Hk) as Hp.
  split; [done|]. split; [lia|].
  intros m Hm Hle.
  set (r := Layout.align_ptr ptr bytes (2 ^ k)) in *.
  destruct (Z.le_gt_cases r m) as [|Hlt]; [done|]. exfalso.
  pose proof (Z.div_mod r (2 ^ k) ltac:(lia)) as Hdr.
  pose proof (Z.div_mod m (2 ^ k) ltac:(lia)) as Hdm.
  rewrite Hal in Hdr. rewrite Hm in Hdm.
  assert (Hq : m / 2 ^ k < r / 2 ^ k) by nia.
  assert (Hq' : 2 ^ k * (m / 2 ^ k + 1) <= 2 ^ k * (r / 2 ^ k))
    by (apply Z.mul_le_mono_nonneg_l; lia).
  lia.
Qed.

Lemma align_ptr_least_witness :
  Layout.align_ptr 4096 20 (2 ^ 3) mod 2 ^ 3 = 0 /\
  4096 + 20 <= Layout.align_ptr 4096 20 (2 ^ 3) /\
  (forall m, m mod 2 ^ 3 = 0 -> 4096 + 20 <= m ->
             Layout.align_ptr 4096 20 (2 ^ 3) <= m).
Proof.
  apply (align_ptr_least 4096 20 3); unfold SIZE_MOD; lia.
Defined.

(** X3. [client_alloc] places the context, its [client_info] and its
    two buffer headers in this order without overlap, each at an address
    aligned as asked of [align_ptr]. The chunk it requests counts no
    padding: the last header ends inside the chunk exactly when
    [align_ptr] never had to pad, and then the parts fill it without a
    gap. *)
Theorem client_alloc_partition_fits a base k1 k2 k3 :
  0 <= k1 <= 62 -> 0 <= k2 <= 62 -> 0 <= k3 <= 62 ->
  Layout.alignof_client_context a = 2 ^ k1 ->
  Layout.alignof_client_info a = 2 ^ k2 ->
  Layout.alignof_io_buffer a = 2 ^ k3 ->
  0 <= base -> 0 <= Layout.sizeof_client_context a ->
  0 <= Layout.sizeof_client_info a -> 0 <= Layout.sizeof_io_buffer a ->
  base + Layout.sizeof_client_context a + Layout.sizeof_client_info a
    + 2 * Layout.sizeof_io_buffer a + 2 ^ k1 + 2 ^ k2 + 2 ^ k3 <= SIZE_MOD ->
  let p := Layout.client_alloc_partition a base in
  Layout.client p = base /\
  Layout.client p + Layout.sizeof_client_context a <= Layout.info p /\
  Layout.info p + Layout.sizeof_client_info a <= Layout.input p /\
  Layout.input p + Layout.sizeof_io_buffer a <= Layout.output p /\
  Layout.info p mod 2 ^ k1 = 0 /\
  Layout.input p mod 2 ^ k2 = 0 /\
  Layout.output p mod 2 ^ k3 = 0 /\
  (Layout.output p + Layout.sizeof_io_buffer a <= base + Layout.mem_size p
   <-> Layout.info p = base + Layout.sizeof_client_context a /\
       Layout.input p = Layout.info p + Layout.sizeof_client_info a /\
       Layout.output p = Layout.input p + Layout.sizeof_io_buffer a).
Proof.
  intros Hk1 Hk2 Hk3 Ha1 Ha2 Ha3 Hbase Hs1 Hs2 Hs3 Hfit p.
  pose proof (IobuffFacts.pow2_le_62 k1 Hk1).
  pose proof (IobuffFacts.pow2_le_62 k2 Hk2).
  pose proof (IobuffFacts.pow2_le_62 k3 Hk3).
  unfold p, Layout.client_alloc_partition. cbn [Layout.client Layout.info Layout.input
    Layout.output Layout.mem_size].
  rewrite Ha1, Ha2, Ha3.
  set (s1 := Layout.sizeof_client_context a) in *.
  set (s2 := Layout.sizeof_client_info a) in *.
  set (s3 := Layout.sizeof_io_buffer a) in *.
  destruct (align_ptr_aligned base s1 k1) as (A1 & B1 & _); try lia.
  set (i := Layout.align_ptr base s1 (2 ^ k1)) in *.
  destruct (align_ptr_aligned i s2 k2) as (A2 & B2 & _); try lia.
  set (n := Layout.align_ptr i s2 (2 ^ k2)) in *.
  destruct (align_ptr_aligned n s3 k3) as (A3 & B3 & _); try lia.
  set (o := Layout.align_ptr n s3 (2 ^ k3)) in *.
  rewrite (IobuffFacts.wrap64_small (s1 + s2)) by lia.
  rewrite (IobuffFacts.wrap64_small (s3 * 2)) by lia.
  rewrite IobuffFacts.wrap64_small by lia.
  repeat split; try lia.
Qed.

Lemma client_alloc_partition_fits_witness :
  let p := Layout.client_alloc_partition (Layout.mk_abi 48 8 32 8 32 8) 4096 in
  Layout.client p = 4096 /\
  Layout.client p + 48 <= Layout.info p /\
  Layout.info p + 32 <= Layout.input p /\
  Layout.input p + 32 <= Layout.output p /\
  Layout.info p mod 2 ^ 3 = 0 /\
  Layout.input p mod 2 ^ 3 = 0 /\
  Layout.output p mod 2 ^ 3 = 0 /\
  (Layout.output p + 32 <= 4096 + Layout.mem_size p
   <-> Layout.info p = 4096 + 48 /\
       Layout.input p = Layout.info p + 32 /\
       Layout.output p = Layout.input p + 32).
Proof.
  apply (client_alloc_partition_fits (Layout.mk_abi 48 8 32 8 32 8) 4096 3 3 3);
    cbn; unfold SIZE_MOD; lia.
Defined.

End LayoutFacts.

Module TcpFacts.
Import CInt.

(** bits that do not overlap add up *)
Lemma lor_add_disjoint hi lo n :
  0 <= n -> 0 <= lo < 2 ^ n -> Z.lor (hi * 2 ^ n) lo = hi * 2 ^ n + lo.
Proof.
  intros Hn Hlo.
  assert (Hland : Z.land (hi * 2 ^ n) lo = 0).
  { apply Z.bits_inj'. intros i Hi. rewrite Z.land_spec, Z.bits_0.
    destruct (Z.ltb_spec i n).
    - rewrite Z.mul_pow2_bits_low by lia. done.
    - destruct (decide (lo = 0)) as [->|]; [by rewrite Z.bits_0, andb_false_r|].
      rewrite (Z.bits_above_log2 lo i); [apply andb_false_r|lia|].
      apply Z.lt_le_trans with n; [|done]. apply Z.log2_lt_pow2; lia. }
  rewrite <- Z.lxor_lor by done. symmetry. by apply Z.add_nocarry_lxor.
Qed.

(** the address word [parse_address] builds from four octets *)
Lemma octets_word a b c d :
  0 <= a <= 255 -> 0 <= b <= 255 -> 0 <= c <= 255 -> 0 <= d <= 255 ->
  Z.lor (Z.lor (Z.lor (Z.shiftl a 24 mod UINT_MOD) (Z.shiftl b 16 mod UINT_MOD))
               (Z.shiftl c 8 mod UINT_MOD)) d
  = a * 2 ^ 24 + b * 2 ^ 16 + c * 2 ^ 8 + d.
Proof.
  intros Ha Hb Hc Hd. unfold UINT_MOD.
  rewrite !Z.shiftl_mul_pow2 by lia.
  rewrite !Z.mod_small by lia.
  rewrite (lor_add_disjoint a (b * 2 ^ 16) 24) by lia.
  replace (a * 2 ^ 24 + b * 2 ^ 16) with ((a * 2 ^ 8 + b) * 2 ^ 16) by lia.
  rewrite (lor_add_disjoint _ (c * 2 ^ 8) 16) by lia.
  replace ((a * 2 ^ 8 + b) * 2 ^ 16 + c * 2 ^ 8)
    with ((a * 2 ^ 16 + b * 2 ^ 8 + c) * 2 ^ 8) by lia.
  rewrite (lor_add_disjoint _ d 8) by lia. lia.
Qed.

Lemma ntohs_htons x : Tcp.ntohs (Tcp.htons x) = x mod 2 ^ 16.
Proof.
  unfold Tcp.ntohs, Tcp.htons. cbv zeta.
  pose proof (Z.mod_pos_bound x (2 ^ 16) ltac:(lia)).
  set (y := x mod 2 ^ 16) in *.
  pose proof (Z.div_mod y (2 ^ 8) ltac:(lia)). lia.
Qed.

(** X4. [parse_address]: when [sscanf] matched the five fields, the
    call succeeds with the length scanned whatever the numbers are
    (no range is checked), the port is kept modulo 65536 (what
    [get_port] reads back), and for octets of at most 255 the address
    bytes are the four octets in order. When only a bare port matched,
    the address is the wildcard 0.0.0.0. When neither matched, the
    result is -1. *)
Theorem parse_address_fields first second :
  (Tcp.full_result first = 5 ->
   fst (Tcp.parse_address first second) = Tcp.full_length first /\
   Tcp.sin_family (snd (Tcp.parse_address first second)) = Tcp.AF_INET /\
   Tcp.ntohs (Tcp.sin_port (snd (Tcp.parse_address first second)))
     = Tcp.full_port first mod 2 ^ 16 /\
   (0 <= Tcp.octA first <= 255 -> 0 <= Tcp.octB first <= 255 ->
    0 <= Tcp.octC first <= 255 -> 0 <= Tcp.octD first <= 255 ->
    Tcp.sin_addr (snd (Tcp.parse_address first second))
    = [Tcp.octA first; Tcp.octB first; Tcp.octC first; Tcp.octD first])) /\
  (Tcp.full_result first <> 5 -> Tcp.port_result second = 1 ->
   Tcp.parse_address first second =
     (Tcp.port_length second,
      Tcp.mk_sockaddr_in Tcp.AF_INET (Tcp.htons (Tcp.bare_port second)) [0; 0; 0; 0]) /\
   Tcp.ntohs (Tcp.sin_port (snd (Tcp.parse_address first second)))
     = Tcp.bare_port second mod 2 ^ 16) /\
  (Tcp.full_result first <> 5 -> Tcp.port_result second <> 1 ->
   fst (Tcp.parse_address first second) = -1).
Proof.
  unfold Tcp.parse_address. split; [|split].
  - intros H5. destruct (Z.eqb_spec (Tcp.full_result first) 5); [|done].
    cbn [fst snd Tcp.sin_family Tcp.sin_port Tcp.sin_addr].
    split; [done|]. split; [done|]. split; [apply ntohs_htons|].
    intros Ha Hb Hc Hd.
    rewrite octets_word by done.
    unfold Tcp.htonl. cbv zeta.
    set (x := Tcp.octA first * 2 ^ 24 + Tcp.octB first * 2 ^ 16
              + Tcp.octC first * 2 ^ 8 + Tcp.octD first).
    assert (Hx : 0 <= x < 2 ^ 32) by (unfold x; lia).
    rewrite (Z.mod_small x (2 ^ 32)) by done.
    assert (E1 : x / 2 ^ 24 = Tcp.octA first)
      by (symmetry; apply (Z.div_unique _ _ _ (x - Tcp.octA first * 2 ^ 24)); unfold x; lia).
    assert (E2 : x / 2 ^ 16 = Tcp.octA first * 2 ^ 8 + Tcp.octB first)
      by (symmetry;
          apply (Z.div_unique _ _ _ (Tcp.octC first * 2 ^ 8 + Tcp.octD first)); unfold x; lia).
    assert (E3 : x / 2 ^ 8 = Tcp.octA first * 2 ^ 16 + Tcp.octB first * 2 ^ 8 + Tcp.octC first)
      by (symmetry; apply (Z.div_unique _ _ _ (Tcp.octD first)); unfold x; lia).
    assert (M2 : (Tcp.octA first * 2 ^ 8 + Tcp.octB first) mod 2 ^ 8 = Tcp.octB first)
      by (symmetry; apply (Z.mod_unique _ _ (Tcp.octA first)); lia).
    assert (M3 : (Tcp.octA first * 2 ^ 16 + Tcp.octB first * 2 ^ 8 + Tcp.octC first)
                 mod 2 ^ 8 = Tcp.octC first)
      by (symmetry;
          apply (Z.mod_unique _ _ (Tcp.octA first * 2 ^ 8 + Tcp.octB first)); lia).
    assert (M4 : x mod 2 ^ 8 = Tcp.octD first)
      by (symmetry;
          apply (Z.mod_unique _ _ (Tcp.octA first * 2 ^ 16 + Tcp.octB first * 2 ^ 8
                                   + Tcp.octC first)); unfold x; lia).
    by rewrite E1, E2, E3, M2, M3, M4.
  - intros H5 H1. destruct (Z.eqb_spec (Tcp.full_result first) 5); [done|].
    destruct (Z.eqb_spec (Tcp.port_result second) 1); [|done].
    split; [reflexivity|]. cbn [snd Tcp.sin_port]. apply ntohs_htons.
  - intros H5 H1. destruct (Z.eqb_spec (Tcp.full_result first) 5); [done|].
    destruct (Z.eqb_spec (Tcp.port_result second) 1); done.
Qed.

(** "127.0.0.1:9000": five fields, 14 characters *)
Lemma parse_address_fields_witness :
  Tcp.sin_addr
    (snd (Tcp.parse_address (Tcp.mk_scan_full 5 127 0 0 1 9000 14)
            (Tcp.mk_scan_port 1 127 3)))
  = [127; 0; 0; 1] /\
  Tcp.ntohs
    (Tcp.sin_port
       (snd (Tcp.parse_address (Tcp.mk_scan_full 5 127 0 0 1 9000 14)
               (Tcp.mk_scan_port 1 127 3))))
  = 9000 mod 2 ^ 16.
Proof.
  destruct (parse_address_fields (Tcp.mk_scan_full 5 127 0 0 1 9000 14)
              (Tcp.mk_scan_port 1 127 3)) as [H _].
  destruct (H eq_refl) as (_ & _ & Hport & Haddr).
  split; [|exact Hport].
  apply Haddr; cbn; lia.
Defined.

(** the outcome of [server_bind], case by case *)
Lemma server_bind_cases env server sockets :
  let parsed := Tcp.parse_address (Tcp.scanned_full env) (Tcp.scanned_port env) in
  let ok := (0 <=? Tcp.socket_result env) && (0 <=? Tcp.setsockopt_result env)
            && (0 <=? fst parsed) && (0 <=? Tcp.bind_result env)
            && (0 <=? Tcp.listen_result env) in
  Tcp.server_bind env server sockets =
    if ok then
      (0, Tcp.mk_server_info (Tcp.socket_result env) (snd parsed),
       {[Tcp.socket_result env]} ∪ sockets)
    else if Tcp.socket_result env <? 0 then
      (-1, Tcp.mk_server_info (Tcp.socket_result env) (Tcp.addr server), sockets)
    else
      (-1,
       Tcp.mk_server_info Tcp.INVALID_FD
         (if (0 <=? Tcp.setsockopt_result env) && (0 <=? fst parsed)
             && (0 <=? Tcp.bind_result env)
          then snd parsed else Tcp.addr server),
       ({[Tcp.socket_result env]} ∪ sockets) ∖ {[Tcp.socket_result env]}).
Proof.
  intros parsed ok. unfold ok, Tcp.server_bind, Tcp.close_socket.
  cbn [Tcp.fd Tcp.addr]. fold parsed.
  destruct parsed as [r a]. cbn [fst snd].
  destruct (Z.ltb_spec (Tcp.socket_result env) 0), (Z.leb_spec 0 (Tcp.socket_result env));
    try lia; cbn [andb]; [done|].
  destruct (Z.ltb_spec (Tcp.setsockopt_result env) 0),
           (Z.leb_spec 0 (Tcp.setsockopt_result env)); try lia; cbn [andb]; [done|].
  destruct (Z.ltb_spec r 0), (Z.leb_spec 0 r); try lia; cbn [andb]; [done|].
  destruct (Z.ltb_spec (Tcp.bind_result env) 0),
           (Z.leb_spec 0 (Tcp.bind_result env)); try lia; cbn [andb]; [done|].
  destruct (Z.ltb_spec (Tcp.listen_result env) 0),
           (Z.leb_spec 0 (Tcp.listen_result env)); try lia; done.
Qed.

(** X5. [server_bind] returns 0 exactly when [socket], [setsockopt],
    [parse_address], [bind] and [listen] all succeed, and then the new
    descriptor is stored, open and bound to the parsed address.
    Otherwise it returns -1, the descriptor stored is negative, and a
    descriptor obtained from [socket] has been closed again: the open
    descriptors are the ones from before the call. *)
Theorem server_bind_all_or_nothing env server sockets :
  Tcp.socket_result env ∉ sockets ->
  let parsed := Tcp.parse_address (Tcp.scanned_full env) (Tcp.scanned_port env) in
  let r := Tcp.server_bind env server sockets in
  (r.1.1 = 0 \/ r.1.1 = -1) /\
  (r.1.1 = 0 <->
   0 <= Tcp.socket_result env /\ 0 <= Tcp.setsockopt_result env /\
   0 <= fst parsed /\ 0 <= Tcp.bind_result env /\ 0 <= Tcp.listen_result env) /\
  (r.1.1 = 0 ->
   r.1.2 = Tcp.mk_server_info (Tcp.socket_result env) (snd parsed) /\
   r.2 = {[Tcp.socket_result env]} ∪ sockets) /\
  (r.1.1 = -1 -> Tcp.fd r.1.2 < 0 /\ r.2 = sockets).
Proof.
  intros Hfresh parsed r. unfold r. rewrite server_bind_cases. fold parsed.
  destruct (Z.leb_spec 0 (Tcp.socket_result env)) as [H1|H1]; cbn [andb].
  2: { destruct (Z.ltb_spec (Tcp.socket_result env) 0); [|lia].
       cbn. repeat split; try (intros; lia); try done; by right. }
  destruct (Z.ltb_spec (Tcp.socket_result env) 0); [lia|].
  destruct (Z.leb_spec 0 (Tcp.setsockopt_result env)),
           (Z.leb_spec 0 (fst parsed)),
           (Z.leb_spec 0 (Tcp.bind_result env)),
           (Z.leb_spec 0 (Tcp.listen_result env)); cbn [andb fst snd Tcp.fd].
  all: split; [(by left) || (by right)|].
  all: split; [split; [try done; intros; lia|try done; intros; lia]|].
  all: split; [try done; intros; lia|].
  all: intros Hr; try lia.
  all: split; [unfold Tcp.INVALID_FD; lia|].
  all: apply set_eq; intros x; rewrite elem_of_difference, elem_of_union, elem_of_singleton.
  all: split; [intros [[->|Hx] Hne]; done|intros Hx; split; [by right|by intros ->]].
Qed.

Lemma server_bind_all_or_nothing_witness :
  (Tcp.server_bind Scenarios.bind_ok Scenarios.unbound ∅).1.1 = 0 <->
  0 <= Tcp.socket_result Scenarios.bind_ok /\
  0 <= Tcp.setsockopt_result Scenarios.bind_ok /\
  0 <= fst (Tcp.parse_address (Tcp.scanned_full Scenarios.bind_ok)
              (Tcp.scanned_port Scenarios.bind_ok)) /\
  0 <= Tcp.bind_result Scenarios.bind_ok /\ 0 <= Tcp.listen_result Scenarios.bind_ok.
Proof.
  assert (Hfresh : Tcp.socket_result Scenarios.bind_ok ∉ (∅ : gset Z))
    by apply not_elem_of_empty.
  apply (server_bind_all_or_nothing Scenarios.bind_ok Scenarios.unbound ∅ Hfresh).
Defined.

(** what [server_bind] reports when it does not fail *)
Lemma server_bind_ok env server sockets :
  0 <= (Tcp.server_bind env server sockets).1.1 ->
  Tcp.server_bind env server sockets =
    (0, Tcp.mk_server_info (Tcp.socket_result env)
          (snd (Tcp.parse_address (Tcp.scanned_full env) (Tcp.scanned_port env))),
     {[Tcp.socket_result env]} ∪ sockets) /\
  0 <= Tcp.socket_result env.
Proof.
  rewrite server_bind_cases. cbv zeta.
  destruct (0 <=? Tcp.socket_result env) eqn:E1; cbn [andb].
  2: { destruct (Tcp.socket_result env <? 0); cbn; lia. }
  destruct (_ && _) eqn:E.
  - intros _. split; [done|]. by apply Z.leb_le.
  - destruct (Tcp.socket_result env <? 0); cbn; lia.
Qed.

Lemma server_bind_status env server sockets :
  (Tcp.server_bind env server sockets).1.1 = 0 \/
  (Tcp.server_bind env server sockets).1.1 = -1.
Proof.
  rewrite server_bind_cases. cbv zeta.
  destruct (_ && _); [by left|]. right. by destruct (_ <? _).
Qed.

(** X27. [server_close] after a successful [server_bind]: when close(2)
    succeeds the descriptor stored becomes -1 and the open descriptors
    are those from before [server_bind]; when close(2) fails the
    structure and the descriptors are left as they are. The address
    stays in both cases. *)
Theorem server_bind_close_round_trip env server sockets close_result :
  Tcp.socket_result env ∉ sockets ->
  0 <= (Tcp.server_bind env server sockets).1.1 ->
  let bound := Tcp.server_bind env server sockets in
  let closed := Tcp.server_close close_result bound.1.2 bound.2 in
  Tcp.addr closed.1 = Tcp.addr bound.1.2 /\
  (0 <= close_result -> Tcp.fd closed.1 = -1 /\ closed.2 = sockets) /\
  (close_result < 0 -> closed = (bound.1.2, bound.2)).
Proof.
  intros Hfresh Hok bound closed. unfold closed, Tcp.server_close.
  destruct (server_bind_ok env server sockets Hok) as [Hb _].
  fold bound in Hb. rewrite Hb. cbn [fst snd Tcp.fd Tcp.addr].
  destruct (Z.ltb_spec close_result 0) as [Hneg|Hpos]; cbn [fst snd Tcp.addr Tcp.fd].
  - split; [done|]. split; [lia|done].
  - split; [done|]. split; [|lia]. intros _. split; [done|].
    apply set_eq. intros x.
    rewrite elem_of_difference, elem_of_union, elem_of_singleton.
    split; [intros [[->|Hx] Hne]; done|intros Hx; split; [by right|by intros ->]].
Qed.

Lemma server_bind_close_round_trip_witness :
  Tcp.fd (Tcp.server_close 0
            (Tcp.server_bind Scenarios.bind_ok Scenarios.unbound ∅).1.2
            (Tcp.server_bind Scenarios.bind_ok Scenarios.unbound ∅).2).1 = -1 /\
  (Tcp.server_close 0
     (Tcp.server_bind Scenarios.bind_ok Scenarios.unbound ∅).1.2
     (Tcp.server_bind Scenarios.bind_ok Scenarios.unbound ∅).2).2 = ∅.
Proof.
  assert (Hfresh : Tcp.socket_result Scenarios.bind_ok ∉ (∅ : gset Z))
    by apply not_elem_of_empty.
  assert (Hok : 0 <= (Tcp.server_bind Scenarios.bind_ok Scenarios.unbound ∅).1.1)
    by (by vm_compute).
  destruct (server_bind_close_round_trip Scenarios.bind_ok Scenarios.unbound ∅ 0 Hfresh Hok)
    as (_ & Hclosed & _).
  apply Hclosed. lia.
Defined.

End TcpFacts.

(** ** The registry as a whole *)

Module RegistryFacts.
Import CInt Inv Registry PollfdsFacts.

Lemma filter_all {A} (P : A -> Prop) `{forall x, Decision (P x)} (l : list A) :
  Forall P l -> filter P l = l.
Proof.
  induction 1 as [|x l Hx Hl IH]; [done|].
  rewrite filter_cons_True by done. by rewrite IH.
Qed.

Lemma filter_none {A} (P : A -> Prop) `{forall x, Decision (P x)} (l : list A) :
  Forall (fun x => ~ P x) l -> filter P l = [].
Proof.
  induction 1 as [|x l Hx Hl IH]; [done|].
  rewrite filter_cons_False by done. by rewrite IH.
Qed.

Lemma filter_insert_out {A} (P : A -> Prop) `{forall x, Decision (P x)}
    (l : list A) (i : nat) old x :
  l !! i = Some old -> ~ P old -> ~ P x -> filter P (<[i := x]> l) = filter P l.
Proof.
  revert i. induction l as [|y l IH]; intros [|i] Hi Hold Hx; try done.
  - cbn in Hi. injection Hi as ->. cbn [insert list_insert].
    change (filter P (x :: l) = filter P (old :: l)).
    by rewrite !filter_cons_False.
  - change (filter P (y :: <[i := x]> l) = filter P (y :: l)).
    rewrite !filter_cons. by rewrite (IH i).
Qed.

Lemma delete_filter_nodup (w : list Pollfds.pollfd) (i : nat) e :
  NoDup (Pollfds.fd <$> w) -> w !! i = Some e ->
  delete i w = filter (fun x => Pollfds.fd x <> Pollfds.fd e) w.
Proof.
  revert i. induction w as [|y w IH]; intros [|i] Hnd Hi; try done.
  - cbn in Hi. injection Hi as ->. cbn [delete list_delete].
    rewrite filter_cons_False by (intros Hne; by apply Hne).
    symmetry. apply filter_all.
    rewrite fmap_cons in Hnd. apply NoDup_cons in Hnd as [Hnot _].
    apply Forall_forall. intros x Hx Heq. apply Hnot.
    rewrite <- Heq. apply list_elem_of_fmap. by exists x.
  - cbn in Hi. rewrite fmap_cons in Hnd. apply NoDup_cons in Hnd as [Hnot Hnd].
    cbn [delete list_delete].
    rewrite filter_cons_True.
    + f_equal. by apply IH.
    + intros Heq. apply Hnot. rewrite Heq.
      apply list_elem_of_fmap. exists e. split; [done|].
      by eapply list_elem_of_lookup_2.
Qed.

Lemma unwatched_Forall p d :
  ~ watches p d -> Forall (fun e => Pollfds.fd e <> d) (Pollfds.watched p).
Proof.
  intros Hnot. apply Forall_forall. intros x Hx Heq. apply Hnot.
  unfold watches. apply list_elem_of_fmap. by exists x.
Qed.

(** the watched list after [remove_event]: the entries of other descriptors *)
Lemma remove_event_filter p d :
  wf_pollfds p ->
  Pollfds.watched (Pollfds.remove_event p d)
  = filter (fun e => Pollfds.fd e <> d) (Pollfds.watched p).
Proof.
  intros Hwf. destruct (decide (watches p d)) as [Hw|Hw].
  - destruct (remove_event_watched p d Hwf Hw) as (i & e & Hi & He & _ & Hdel & _).
    rewrite Hdel. subst d. apply delete_filter_nodup; [apply Hwf|done].
  - rewrite remove_event_unwatched by done.
    symmetry. apply filter_all. by apply unwatched_Forall.
Qed.

(** the watched list after a successful [add_event] *)
Lemma add_event_watched_list p d ev :
  wf_pollfds p -> Pollfds.polled p < Pollfds.length p ->
  (watches p d ->
   exists (i : nat) old,
     Pollfds.watched p !! i = Some old /\ Pollfds.fd old = d /\
     Pollfds.polled (snd (Pollfds.add_event p d ev)) = Pollfds.polled p /\
     Pollfds.watched (snd (Pollfds.add_event p d ev))
     = <[i := Pollfds.mk_pollfd d ev 0]> (Pollfds.watched p)) /\
  (~ watches p d ->
   Pollfds.polled (snd (Pollfds.add_event p d ev)) = Pollfds.polled p + 1 /\
   Pollfds.watched (snd (Pollfds.add_event p d ev))
   = Pollfds.watched p ++ [Pollfds.mk_pollfd d ev 0]).
Proof.
  intros Hwf Hroom. split; intros Hw.
  - destruct (add_event_watched p d ev Hwf Hroom Hw) as (i & old & Hi & Hold & Heq).
    exists i, old. rewrite Heq. cbn [snd Pollfds.polled].
    repeat split; try done. apply watched_insert.
  - rewrite add_event_unwatched by done. cbn [snd Pollfds.polled].
    split; [done|]. by apply watched_append.
Qed.


(** the slot the packing loop vacates last holds no descriptor *)
Lemma pack_last todo : forall l desc_idx,
  (S desc_idx + todo <= length l)%nat ->
  (forall j, (S desc_idx <= j < S desc_idx + todo)%nat ->
             0 <= Pollfds.fd (Pollfds.slot l j)) ->
  Pollfds.fd (Pollfds.slot l desc_idx) < 0 ->
  Pollfds.fd (Pollfds.slot (Pollfds.pack l (S desc_idx) desc_idx todo)
                           (desc_idx + todo)) < 0.
Proof.
  induction todo as [|todo IH]; intros l desc_idx Hlen Hlive Hfree; simpl.
  - by rewrite Nat.add_0_r.
  - destruct (Z.ltb_spec (Pollfds.fd (Pollfds.slot l (S desc_idx))) 0) as [E|E].
    { specialize (Hlive (S desc_idx)). lia. }
    set (l1 := <[desc_idx := Pollfds.slot l (S desc_idx)]> l).
    set (l2 := Pollfds.set_fd l1 (S desc_idx) (-1)).
    assert (Hlen1 : length l1 = length l) by apply length_insert.
    assert (Hl2 : forall j, j <> S desc_idx -> l2 !! j = l1 !! j).
    { intros j Hj. unfold l2, Pollfds.set_fd. by rewrite list_lookup_insert_ne. }
    replace (desc_idx + S todo)%nat with (S desc_idx + todo)%nat by lia.
    apply IH.
    + unfold l2, Pollfds.set_fd. rewrite length_insert. lia.
    + intros j Hj. unfold Pollfds.slot. rewrite Hl2 by lia.
      unfold l1. rewrite list_lookup_insert_ne by lia. apply Hlive. lia.
    + unfold l2, Pollfds.set_fd, Pollfds.slot at 1.
      rewrite list_lookup_insert_eq by lia. simpl. lia.
Qed.

Lemma remove_event_spare p d :
  wf_pollfds p -> spare_invalid p -> spare_invalid (Pollfds.remove_event p d).
Proof.
  intros Hwf Hspare. destruct (decide (watches p d)) as [Hw|Hw].
  2: { by rewrite remove_event_unwatched. }
  destruct (find_fd_watched p d Hwf Hw) as (Hr & e & Hwe & Hfd & Hslot).
  pose proof Hwf as [Hpol Hlen Hfds Hvalid Hnodup].
  unfold spare_invalid, Pollfds.remove_event.
  set (n := Z.to_nat (Pollfds.polled p)) in *.
  set (r := Pollfds.find_fd (Pollfds.fds p) d 0 n) in *.
  destruct (Z.eqb_spec (Pollfds.polled p) 0) as [E|_]; [lia|].
  destruct (Z.eqb_spec (Z.of_nat r) (Pollfds.polled p)) as [E|_]; [lia|].
  cbn [Pollfds.polled Pollfds.length Pollfds.fds].
  rewrite (Z.mod_small (Pollfds.polled p - 1)) by lia.
  destruct (n - r)%nat as [|m] eqn:Hm; [lia|].
  set (l1 := <[r := Pollfds.cleared]> (Pollfds.fds p)).
  assert (Hlen1 : length l1 = length (Pollfds.fds p)) by apply length_insert.
  assert (Hcl : Pollfds.slot l1 r = Pollfds.cleared).
  { apply slot_lookup. unfold l1. apply list_lookup_insert_eq. lia. }
  simpl. rewrite Hcl. simpl.
  assert (Hlive : forall j, (S r <= j < S r + m)%nat -> 0 <= Pollfds.fd (Pollfds.slot l1 j)).
  { intros j Hj. unfold Pollfds.slot, l1. rewrite list_lookup_insert_ne by lia.
    rewrite Forall_lookup in Hvalid.
    assert (Hj' : Pollfds.watched p !! j = Some (Pollfds.slot (Pollfds.fds p) j)).
    { rewrite watched_lookup by lia. apply slot_lt. lia. }
    apply (Hvalid _ _ Hj'). }
  destruct (pack_shift m l1 r) as (_ & _ & _ & Hhi); [lia|done|].
  intros i Hi. destruct (decide (i = r + m)%nat) as [->|Hne].
  - apply pack_last; [lia|done|]. by rewrite Hcl.
  - unfold Pollfds.slot. rewrite Hhi by lia.
    unfold l1. rewrite list_lookup_insert_ne by lia.
    apply Hspare. lia.
Qed.

Lemma add_event_spare p d ev :
  wf_pollfds p -> spare_invalid p -> spare_invalid (snd (Pollfds.add_event p d ev)).
Proof.
  intros Hwf Hspare.
  destruct (decide (Pollfds.polled p = Pollfds.length p)) as [Hfull|Hroom].
  { by rewrite add_event_full. }
  pose proof Hwf as [Hpol Hlen Hfds _ _].
  destruct (decide (watches p d)) as [Hw|Hw].
  - destruct (add_event_watched p d ev Hwf ltac:(lia) Hw) as (i & old & Hi & _ & ->).
    apply lookup_lt_Some in Hi. rewrite watched_length in Hi by done.
    intros j Hj. cbn [snd Pollfds.polled Pollfds.length Pollfds.fds] in *.
    unfold Pollfds.slot. rewrite list_lookup_insert_ne by lia. by apply Hspare.
  - rewrite add_event_unwatched by (done || lia).
    intros j Hj. cbn [snd Pollfds.polled Pollfds.length Pollfds.fds] in *.
    unfold Pollfds.slot. rewrite list_lookup_insert_ne by lia. apply Hspare. lia.
Qed.

Lemma poll_events_fds_lookup result observed p (i : nat) :
  0 <= result ->
  Pollfds.slot (Pollfds.fds (snd (Pollfds.poll_events result observed p))) i
  = if Z.of_nat i <? Pollfds.polled p
    then Pollfds.mk_pollfd (Pollfds.fd (Pollfds.slot (Pollfds.fds p) i))
                           (Pollfds.events (Pollfds.slot (Pollfds.fds p) i))
                           (if decide (i < length (Pollfds.fds p))%nat
                            then observed i else 0)
    else Pollfds.slot (Pollfds.fds p) i.
Proof.
  intros Hres. unfold Pollfds.poll_events.
  destruct (Z.ltb_spec result 0); [lia|]. cbn [snd Pollfds.fds].
  unfold Pollfds.slot. rewrite list_lookup_imap.
  destruct (Pollfds.fds p !! i) as [e|] eqn:He; cbn.
  - apply lookup_lt_Some in He. destruct (Z.ltb_spec (Z.of_nat i) (Pollfds.polled p)); [|done].
    by rewrite decide_True by done.
  - apply lookup_ge_None in He. destruct (Z.ltb_spec (Z.of_nat i) (Pollfds.polled p)); [|done].
    by rewrite decide_False by lia.
Qed.

Lemma poll_events_watched_fds result observed p :
  Pollfds.fd <$> Pollfds.watched (snd (Pollfds.poll_events result observed p))
  = Pollfds.fd <$> Pollfds.watched p.
Proof.
  unfold Pollfds.poll_events. destruct (result <? 0); [done|].
  unfold Pollfds.watched. cbn [snd Pollfds.fds Pollfds.polled].
  rewrite !fmap_take. f_equal.
  apply list_eq. intros j. rewrite !list_lookup_fmap, list_lookup_imap.
  destruct (Pollfds.fds p !! j); cbn; [|done].
  by destruct (Z.of_nat j <? Pollfds.polled p).
Qed.

Lemma poll_events_wf result observed p :
  wf_pollfds p -> wf_pollfds (snd (Pollfds.poll_events result observed p)).
Proof.
  intros Hwf. pose proof (poll_events_watched_fds result observed p) as Hfds.
  destruct Hwf as [H1 H2 H3 H4 H5].
  assert (Hsame : Pollfds.polled (snd (Pollfds.poll_events result observed p))
                  = Pollfds.polled p /\
                  Pollfds.length (snd (Pollfds.poll_events result observed p))
                  = Pollfds.length p /\
                  length (Pollfds.fds (snd (Pollfds.poll_events result observed p)))
                  = length (Pollfds.fds p)).
  { unfold Pollfds.poll_events. destruct (result <? 0); [done|].
    cbn. by rewrite length_imap. }
  destruct Hsame as (E1 & E2 & E3).
  constructor; rewrite ?E1, ?E2, ?E3; try done.
  - apply Forall_fmap with (f := Pollfds.fd) (P := fun x => 0 <= x).
    rewrite Hfds. by apply Forall_fmap.
  - by rewrite Hfds.
Qed.

Lemma poll_events_spare result observed p :
  spare_invalid p -> spare_invalid (snd (Pollfds.poll_events result observed p)).
Proof.
  intros Hspare i Hi.
  destruct (Z.ltb_spec result 0) as [Hr|Hr].
  { unfold Pollfds.poll_events in *. destruct (Z.ltb_spec result 0); [|lia].
    by apply Hspare. }
  rewrite poll_events_fds_lookup by done.
  assert (Hsame : Pollfds.polled (snd (Pollfds.poll_events result observed p))
                  = Pollfds.polled p /\
                  Pollfds.length (snd (Pollfds.poll_events result observed p))
                  = Pollfds.length p).
  { unfold Pollfds.poll_events. by destruct (result <? 0). }
  destruct Hsame as [E1 E2]. rewrite E1, E2 in Hi.
  destruct (Z.ltb_spec (Z.of_nat i) (Pollfds.polled p)); [lia|].
  by apply Hspare.
Qed.

(** one operation keeps the registry well formed, its spare slots
    invalid and its capacity *)
Lemma run_reg_op_inv o p :
  reg_op_ok o -> wf_pollfds p -> spare_invalid p ->
  wf_pollfds (run_reg_op o p) /\ spare_invalid (run_reg_op o p) /\
  Pollfds.length (run_reg_op o p) = Pollfds.length p.
Proof.
  intros Hok Hwf Hspare. destruct o as [d ev|d|result observed|t]; cbn [run_reg_op].
  - split; [by apply add_event_wf|]. split; [by apply add_event_spare|].
    unfold Pollfds.add_event.
    destruct (Pollfds.polled p =? Pollfds.length p); [done|].
    by destruct (_ <? _).
  - split; [by apply remove_event_wf|]. split; [by apply remove_event_spare|].
    destruct (decide (watches p d)) as [Hw|Hw].
    + by destruct (remove_event_watched p d Hwf Hw) as (i & e & _ & _ & _ & _ & Hlen & _).
    + by rewrite remove_event_unwatched.
  - split; [by apply poll_events_wf|]. split; [by apply poll_events_spare|].
    unfold Pollfds.poll_events. by destruct (result <? 0).
  - split; [|done]. by destruct Hwf.
Qed.

Lemma run_reg_ops_inv ops : forall p,
  Forall reg_op_ok ops -> wf_pollfds p -> spare_invalid p ->
  wf_pollfds (run_reg_ops ops p) /\ spare_invalid (run_reg_ops ops p) /\
  Pollfds.length (run_reg_ops ops p) = Pollfds.length p.
Proof.
  induction ops as [|o ops IH]; intros p Hok Hwf Hspare; [done|].
  apply Forall_cons in Hok as [Ho Hops].
  destruct (run_reg_op_inv o p Ho Hwf Hspare) as (Hwf' & Hspare' & Hlen').
  destruct (IH (run_reg_op o p) Hops Hwf' Hspare') as (H1 & H2 & H3).
  change (run_reg_ops (o :: ops) p) with (run_reg_ops ops (run_reg_op o p)).
  split; [done|]. split; [done|]. by rewrite H3.
Qed.

Lemma create_pollfds_spare max_descs p :
  0 < max_descs < UINT_MOD ->
  Pollfds.create_pollfds true true max_descs = Some p ->
  spare_invalid p /\ Pollfds.timeout p = -1 /\
  forall i : nat, Z.of_nat i < max_descs ->
                  Pollfds.slot (Pollfds.fds p) i = Pollfds.cleared.
Proof.
  intros Hmax Hcreate.
  destruct (create_pollfds_wf max_descs p Hmax Hcreate) as (Hwf & Hpol & Hlen & Hfds).
  assert (Hslots : forall i : nat, Z.of_nat i < max_descs ->
                     Pollfds.slot (Pollfds.fds p) i = Pollfds.cleared).
  { intros i Hi. rewrite Hfds. apply slot_lookup. apply lookup_replicate_2. lia. }
  split; [|split; [|done]].
  - intros i Hi. rewrite Hslots by lia. cbn. lia.
  - unfold Pollfds.create_pollfds in Hcreate. by injection Hcreate as <-.
Qed.

(** X6. [create_pollfds] returns NULL exactly when one of its two
    allocations fails. Otherwise the registry watches nothing, has the
    capacity asked for, blocks without timeout (-1), and each of its
    slots is [{-1, 0, 0}]. *)
Theorem create_pollfds_fresh malloc_ok calloc_ok max_descs :
  0 < max_descs < UINT_MOD ->
  (Pollfds.create_pollfds malloc_ok calloc_ok max_descs = None
   <-> malloc_ok = false \/ calloc_ok = false) /\
  (forall p, Pollfds.create_pollfds malloc_ok calloc_ok max_descs = Some p ->
     Pollfds.polled_fds p = 0 /\ Pollfds.total_fds p = max_descs /\
     Pollfds.timeout p = -1 /\ wf_pollfds p /\
     (forall d, ~ watches p d) /\
     (forall i : nat, Z.of_nat i < max_descs ->
                      Pollfds.slot (Pollfds.fds p) i = Pollfds.cleared)).
Proof.
  intros Hmax. split.
  - unfold Pollfds.create_pollfds. destruct malloc_ok, calloc_ok; cbn; split;
      try done; try (intros [|]; done); by (left + right).
  - intros p Hcreate.
    assert (malloc_ok = true /\ calloc_ok = true) as [-> ->].
    { unfold Pollfds.create_pollfds in Hcreate. by destruct malloc_ok, calloc_ok. }
    destruct (create_pollfds_wf max_descs p Hmax Hcreate) as (Hwf & Hpol & Hlen & Hfds).
    destruct (create_pollfds_spare max_descs p Hmax Hcreate) as (_ & Ht & Hslots).
    unfold Pollfds.polled_fds, Pollfds.total_fds.
    do 4 (split; [done|]). split; [|done].
    intros d. unfold watches, Pollfds.watched. rewrite Hpol. cbn. apply not_elem_of_nil.
Qed.

Lemma create_pollfds_fresh_witness :
  Pollfds.create_pollfds true false 4 = None /\
  forall p, Pollfds.create_pollfds true true 4 = Some p ->
            Pollfds.slot (Pollfds.fds p) 3 = Pollfds.cleared.
Proof.
  assert (H4 : 0 < 4 < UINT_MOD) by (vm_compute; split; reflexivity).
  split.
  - apply (create_pollfds_fresh true false 4 H4). by right.
  - intros p Hp.
    destruct (proj2 (create_pollfds_fresh true true 4 H4) p Hp) as (_ & _ & _ & _ & _ & Hs).
    apply (Hs 3%nat). reflexivity.
Defined.

(** X7. Starting from [create_pollfds], any sequence of [add_event]
    (of descriptors that are not negative), [remove_event],
    [poll_events] and [set_timeout] leaves a registry whose count is
    within its capacity, whose watched descriptors are valid and
    pairwise distinct, whose slots past the count hold no descriptor,
    and whose capacity is the one it was created with. *)
Theorem registry_invariant ops max_descs p :
  0 < max_descs < UINT_MOD ->
  Pollfds.create_pollfds true true max_descs = Some p ->
  Forall reg_op_ok ops ->
  wf_pollfds (run_reg_ops ops p) /\
  spare_invalid (run_reg_ops ops p) /\
  Pollfds.total_fds (run_reg_ops ops p) = max_descs.
Proof.
  intros Hmax Hcreate Hops.
  destruct (create_pollfds_wf max_descs p Hmax Hcreate) as (Hwf & _ & Hlen & _).
  destruct (create_pollfds_spare max_descs p Hmax Hcreate) as (Hspare & _).
  destruct (run_reg_ops_inv ops p Hops Hwf Hspare) as (H1 & H2 & H3).
  unfold Pollfds.total_fds. split; [done|]. split; [done|]. congruence.
Qed.

Lemma registry_invariant_witness :
  wf_pollfds (run_reg_ops [Add 5 1; Add 6 4; Remove 5; Poll 1 (fun _ => 4); SetTimeout 10]
                Scenarios.two_slots) /\
  spare_invalid (run_reg_ops [Add 5 1; Add 6 4; Remove 5; Poll 1 (fun _ => 4); SetTimeout 10]
                   Scenarios.two_slots) /\
  Pollfds.total_fds (run_reg_ops [Add 5 1; Add 6 4; Remove 5; Poll 1 (fun _ => 4);
                                  SetTimeout 10] Scenarios.two_slots) = 2.
Proof.
  apply (registry_invariant _ 2).
  - vm_compute. split; reflexivity.
  - reflexivity.
  - repeat (apply Forall_cons; split; [cbn; first [lia | exact I]|]). by apply Forall_nil.
Defined.

(** X8. A successful [add_event] (the registry is not full) returns 0
    and leaves the descriptor watched exactly once, with the mask given
    and no returned events; the entries of every other descriptor are
    what they were, and the count grows by one only if the descriptor
    was not watched before. *)
Theorem add_event_entries p d ev :
  wf_pollfds p -> Pollfds.polled p < Pollfds.length p ->
  let r := Pollfds.add_event p d ev in
  fst r = 0 /\
  entries_of (snd r) d = [Pollfds.mk_pollfd d ev 0] /\
  (forall d', d' <> d -> entries_of (snd r) d' = entries_of p d') /\
  Pollfds.polled_fds (snd r)
  = Pollfds.polled_fds p + (if decide (watches p d) then 0 else 1).
Proof.
  intros Hwf Hroom r. unfold r, entries_of, Pollfds.polled_fds.
  destruct (add_event_watched_list p d ev Hwf Hroom) as [Hold Hnew].
  split; [apply (add_event_watches p d ev Hwf Hroom)|].
  destruct (decide (watches p d)) as [Hw|Hw].
  - destruct (Hold Hw) as (i & old & Hi & Hfd & Hpol & Hwat).
    rewrite Hwat, Hpol. split; [|split; [|lia]].
    + apply (entries_of_insert (Pollfds.watched p) i old (Pollfds.mk_pollfd d ev 0));
        [apply Hwf|done|done].
    + intros d' Hne. apply (filter_insert_out _ _ _ old); [done| |]; cbn; congruence.
  - destruct (Hnew Hw) as (Hpol & Hwat).
    rewrite Hwat, Hpol. split; [|split; [|done]].
    + rewrite filter_app, filter_none by (by apply unwatched_Forall).
      by rewrite filter_cons_True.
    + intros d' Hne. rewrite filter_app.
      rewrite (filter_cons_False _ (Pollfds.mk_pollfd d ev 0)) by (cbn; congruence).
      by rewrite filter_nil, app_nil_r.
Qed.

Lemma add_event_entries_witness :
  entries_of (snd (Pollfds.add_event Examples.four_of_six 9 Server.POLLIN)) 9
  = [Pollfds.mk_pollfd 9 Server.POLLIN 0].
Proof.
  apply (add_event_entries Examples.four_of_six 9 Server.POLLIN).
  - apply four_of_six_wf.
  - reflexivity.
Defined.

(** X9. [remove_event] keeps, in their order, exactly the watched
    entries of the other descriptors; the count drops by one if the
    descriptor was watched and not at all otherwise, and the capacity
    and the timeout stay. *)
Theorem remove_event_keeps_others p d :
  wf_pollfds p ->
  Pollfds.watched (Pollfds.remove_event p d)
  = filter (fun e => Pollfds.fd e <> d) (Pollfds.watched p) /\
  Pollfds.polled_fds (Pollfds.remove_event p d)
  = Pollfds.polled_fds p - (if decide (watches p d) then 1 else 0) /\
  Pollfds.total_fds (Pollfds.remove_event p d) = Pollfds.total_fds p /\
  Pollfds.timeout (Pollfds.remove_event p d) = Pollfds.timeout p.
Proof.
  intros Hwf. split; [by apply remove_event_filter|].
  unfold Pollfds.polled_fds, Pollfds.total_fds.
  destruct (decide (watches p d)) as [Hw|Hw].
  - by destruct (remove_event_watched p d Hwf Hw) as (i & e & _ & _ & -> & _ & -> & -> & _).
  - rewrite remove_event_unwatched by done. repeat split; lia.
Qed.

Lemma remove_event_keeps_others_witness :
  Pollfds.watched (Pollfds.remove_event Examples.four_of_six 5)
  = filter (fun e => Pollfds.fd e <> 5) (Pollfds.watched Examples.four_of_six).
Proof.
  apply (remove_event_keeps_others Examples.four_of_six 5). apply four_of_six_wf.
Defined.

(** adding a new descriptor and removing it again *)
Lemma add_remove_watched p d ev :
  wf_pollfds p -> Pollfds.polled p < Pollfds.length p -> 0 <= d -> ~ watches p d ->
  let q := snd (Pollfds.add_event p d ev) in
  Pollfds.watched q = Pollfds.watched p ++ [Pollfds.mk_pollfd d ev 0] /\
  Pollfds.watched (Pollfds.remove_event q d) = Pollfds.watched p /\
  Pollfds.polled (Pollfds.remove_event q d) = Pollfds.polled p.
Proof.
  intros Hwf Hroom Hd Hw q.
  destruct (add_event_watched_list p d ev Hwf Hroom) as [_ Hnew].
  destruct (Hnew Hw) as (Hpol & Hwat). fold q in Hpol, Hwat.
  assert (Hwfq : wf_pollfds q) by (by apply add_event_wf).
  assert (Hwq : watches q d).
  { unfold watches. rewrite Hwat, fmap_app. apply elem_of_app. right. cbn. apply list_elem_of_here. }
  split; [done|]. split.
  - rewrite remove_event_filter by done. rewrite Hwat, filter_app.
    rewrite filter_all by (by apply unwatched_Forall).
    rewrite filter_cons_False by (cbn; intros Hne; by apply Hne).
    by rewrite filter_nil, app_nil_r.
  - destruct (remove_event_watched q d Hwfq Hwq) as (i & e & _ & _ & -> & _). lia.
Qed.

(** X10. Adding a descriptor that is not watched and removing it again
    gives back the watched list and the count: the new entry goes to
    the end of the list, and [remove_event] takes just that entry out. *)
Theorem add_remove_round_trip p d ev :
  wf_pollfds p -> Pollfds.polled p < Pollfds.length p -> 0 <= d -> ~ watches p d ->
  let q := snd (Pollfds.add_event p d ev) in
  Pollfds.watched q = Pollfds.watched p ++ [Pollfds.mk_pollfd d ev 0] /\
  Pollfds.watched (Pollfds.remove_event q d) = Pollfds.watched p /\
  Pollfds.polled_fds (Pollfds.remove_event q d) = Pollfds.polled_fds p.
Proof. apply add_remove_watched. Qed.

Lemma add_remove_round_trip_witness :
  Pollfds.watched
    (Pollfds.remove_event (snd (Pollfds.add_event Examples.four_of_six 9 Server.POLLIN)) 9)
  = Pollfds.watched Examples.four_of_six.
Proof.
  apply (add_remove_round_trip Examples.four_of_six 9 Server.POLLIN).
  - apply four_of_six_wf.
  - reflexivity.
  - lia.
  - apply (bool_decide_unpack _). by vm_compute.
Defined.

Lemma land_lor_both r f1 f2 :
  Z.land r (Z.lor f1 f2) = Z.lor f1 f2 <-> Z.land r f1 = f1 /\ Z.land r f2 = f2.
Proof.
  split.
  - intros H. split; apply Z.bits_inj'; intros n Hn;
      apply (f_equal (fun x => Z.testbit x n)) in H;
      rewrite Z.land_spec, Z.lor_spec in H; rewrite Z.land_spec;
      destruct (Z.testbit r n), (Z.testbit f1 n), (Z.testbit f2 n); done.
  - intros [H1 H2]. apply Z.bits_inj'; intros n Hn.
    apply (f_equal (fun x => Z.testbit x n)) in H1.
    apply (f_equal (fun x => Z.testbit x n)) in H2.
    rewrite Z.land_spec in H1, H2. rewrite Z.land_spec, Z.lor_spec.
    destruct (Z.testbit r n), (Z.testbit f1 n), (Z.testbit f2 n); done.
Qed.

(** X11. After a [poll_events] that did not fail, [check_flag] on a
    watched slot answers 1 exactly when every bit of the flag is in the
    mask poll(2) reported for that slot, so a flag made of two masks
    needs both; the descriptors and the requested events are as before.
    A failed [poll_events] returns the error and changes nothing. *)
Theorem poll_events_check_flag result observed p (i : nat) :
  wf_pollfds p -> Z.of_nat i < Pollfds.polled p ->
  let q := snd (Pollfds.poll_events result observed p) in
  fst (Pollfds.poll_events result observed p) = result /\
  (result < 0 -> q = p) /\
  (0 <= result ->
   Pollfds.fd (Pollfds.slot (Pollfds.fds q) i) = Pollfds.fd (Pollfds.slot (Pollfds.fds p) i) /\
   Pollfds.events (Pollfds.slot (Pollfds.fds q) i)
   = Pollfds.events (Pollfds.slot (Pollfds.fds p) i) /\
   (forall flag, Pollfds.check_flag q i flag = 1 <-> Z.land (observed i) flag = flag) /\
   (forall f1 f2, Pollfds.check_flag q i (Z.lor f1 f2) = 1 <->
                  Pollfds.check_flag q i f1 = 1 /\ Pollfds.check_flag q i f2 = 1)).
Proof.
  intros Hwf Hi q.
  split; [unfold Pollfds.poll_events; by destruct (result <? 0)|].
  split.
  { intros Hneg. unfold q, Pollfds.poll_events. by destruct (Z.ltb_spec result 0); [|lia]. }
  intros Hres.
  assert (Hslot : Pollfds.slot (Pollfds.fds q) i
                  = Pollfds.mk_pollfd (Pollfds.fd (Pollfds.slot (Pollfds.fds p) i))
                      (Pollfds.events (Pollfds.slot (Pollfds.fds p) i)) (observed i)).
  { unfold q. rewrite poll_events_fds_lookup by done.
    destruct (Z.ltb_spec (Z.of_nat i) (Pollfds.polled p)); [|lia].
    destruct Hwf as [H1 _ H3 _ _]. by rewrite decide_True by lia. }
  assert (Hflag : forall flag,
            Pollfds.check_flag q i flag = 1 <-> Z.land (observed i) flag = flag).
  { intros flag. unfold Pollfds.check_flag. rewrite Hslot. cbn [Pollfds.revents].
    destruct (Z.eqb_spec (Z.land (observed i) flag) flag); split; done. }
  rewrite Hslot. cbn [Pollfds.fd Pollfds.events].
  split; [done|]. split; [done|]. split; [done|].
  intros f1 f2. rewrite !Hflag. apply land_lor_both.
Qed.

Lemma poll_events_check_flag_witness :
  Pollfds.check_flag (snd (Pollfds.poll_events 1 (fun _ => 17) Examples.four_of_six)) 2
    (Z.lor Server.POLLIN Server.POLLHUP) = 1
  <-> Pollfds.check_flag (snd (Pollfds.poll_events 1 (fun _ => 17) Examples.four_of_six)) 2
        Server.POLLIN = 1 /\
      Pollfds.check_flag (snd (Pollfds.poll_events 1 (fun _ => 17) Examples.four_of_six)) 2
        Server.POLLHUP = 1.
Proof.
  assert (Hpos : 0 <= 1) by lia.
  assert (Hslot : Z.of_nat 2 < Pollfds.polled Examples.four_of_six) by reflexivity.
  destruct (poll_events_check_flag 1 (fun _ => 17) Examples.four_of_six 2
              four_of_six_wf Hslot) as (_ & _ & H).
  destruct (H Hpos) as (_ & _ & _ & Hboth).
  apply Hboth.
Defined.

End RegistryFacts.

(** ** Binding and cleaning up *)

Module LifecycleFacts.
Import CInt Inv PollfdsFacts.

(** the registry [as_bind] builds: the listener alone, in slot 0 *)
Lemma listener_registry p d :
  Pollfds.create_pollfds true true Server.MAX_CLIENTS = Some p ->
  0 <= d ->
  let q := snd (Pollfds.add_event p d (Z.lor Server.POLLIN Server.POLLPRI)) in
  fst (Pollfds.add_event p d (Z.lor Server.POLLIN Server.POLLPRI)) = 0 /\
  wf_pollfds q /\ Pollfds.polled q = 1 /\ Pollfds.length q = Server.MAX_CLIENTS /\
  Pollfds.watched q = [Pollfds.mk_pollfd d 3 0].
Proof.
  intros Hcreate Hd q.
  assert (Hmax : 0 < Server.MAX_CLIENTS < UINT_MOD) by (vm_compute; split; reflexivity).
  destruct (create_pollfds_wf _ p Hmax Hcreate) as (Hwf & Hpol & Hlen & Hfds).
  assert (Hroom : Pollfds.polled p < Pollfds.length p) by (rewrite Hpol, Hlen; reflexivity).
  assert (Hnot : ~ watches p d).
  { unfold watches, Pollfds.watched. rewrite Hpol. cbn. apply not_elem_of_nil. }
  destruct (RegistryFacts.add_event_watched_list p d (Z.lor Server.POLLIN Server.POLLPRI)
              Hwf Hroom) as [_ Hnew].
  destruct (Hnew Hnot) as (Hpol' & Hwat').
  split; [apply (add_event_watches p d _ Hwf Hroom)|].
  split; [by apply add_event_wf|].
  fold q in Hpol', Hwat'. rewrite Hpol', Hwat'.
  split; [lia|]. split.
  - unfold q. rewrite add_event_unwatched by done. cbn. done.
  - unfold Pollfds.watched. rewrite Hpol. done.
Qed.

(** [as_bind] up to and including [server_bind] *)
Lemma as_bind_unfold env s sockets :
  Lifecycle.as_bind env s sockets =
  if negb (Lifecycle.htable_ok env)
  then (-1, Lifecycle.mk_server (Lifecycle.info s) (Lifecycle.polled s) None, sockets)
  else match Pollfds.create_pollfds (Lifecycle.malloc_ok env) (Lifecycle.calloc_ok env)
               Server.MAX_CLIENTS with
       | None => (-1, Lifecycle.mk_server (Lifecycle.info s) None None, sockets)
       | Some p =>
           let b := Tcp.server_bind (Lifecycle.tcp env) (Lifecycle.info s) sockets in
           if b.1.1 <? 0 then (-1, Lifecycle.mk_server b.1.2 None None, b.2)
           else if (Lifecycle.getfl env <? 0) || (Lifecycle.setfl env <? 0)
           then (0, Lifecycle.mk_server b.1.2 None None, b.2)
           else
             let a := Pollfds.add_event p (Tcp.fd b.1.2) (Z.lor Server.POLLIN Server.POLLPRI) in
             if a.1 <? 0 then (0, Lifecycle.mk_server b.1.2 None None, b.2)
             else (0, Lifecycle.mk_server b.1.2 (Some a.2) (Some ∅), b.2)
       end.
Proof.
  unfold Lifecycle.as_bind, Lifecycle.error_server, Lifecycle.error_poll.
  destruct (Lifecycle.htable_ok env); cbn [negb]; [|done].
  cbn [Lifecycle.info Lifecycle.polled Lifecycle.contexts].
  destruct (Pollfds.create_pollfds _ _ _) as [p|]; [|done].
  destruct (Tcp.server_bind _ _ _) as [[r i] open]. cbn [fst snd].
  destruct (r <? 0); [done|].
  destruct (Lifecycle.getfl env <? 0); [done|].
  destruct (Lifecycle.setfl env <? 0); [done|]. cbn [orb].
  destruct (Pollfds.add_event _ _ _) as [r' p']. cbn [fst snd].
  by destruct (r' <? 0).
Qed.


(** the loop of [as_cleanup] closes the descriptors of the slots it visits *)
Lemma as_cleanup_loop (l : list Pollfds.pollfd) n : forall (i : nat) (open : gset Z),
  foldl (fun open i => open ∖ {[Pollfds.fd (Pollfds.slot l i)]}) open (seq i n)
  = open ∖ list_to_set ((fun j => Pollfds.fd (Pollfds.slot l j)) <$> seq i n).
Proof.
  induction n as [|n IH]; intros i open; cbn [seq foldl fmap list_fmap list_to_set].
  - by rewrite difference_empty_L.
  - rewrite IH. by rewrite difference_difference_l_L.
Qed.

Lemma watched_fds_seq p :
  wf_pollfds p ->
  Pollfds.fd <$> Pollfds.watched p
  = (fun j => Pollfds.fd (Pollfds.slot (Pollfds.fds p) j))
      <$> seq 0 (Z.to_nat (Pollfds.polled p)).
Proof.
  intros Hwf. apply list_eq. intros j.
  rewrite !list_lookup_fmap.
  destruct (decide (j < Z.to_nat (Pollfds.polled p))%nat) as [Hj|Hj].
  - rewrite watched_lookup by lia. rewrite lookup_seq_lt by done.
    destruct Hwf as [H1 _ H3 _ _].
    rewrite (slot_lt (Pollfds.fds p) j) by lia. done.
  - rewrite lookup_seq_ge by lia.
    rewrite (proj2 (lookup_ge_None _ _)); [done|].
    rewrite watched_length by done. lia.
Qed.

(** every step of [as_bind] succeeds *)
Lemma as_bind_all_steps env s sockets :
  Lifecycle.htable_ok env = true -> Lifecycle.malloc_ok env = true ->
  Lifecycle.calloc_ok env = true ->
  0 <= (Tcp.server_bind (Lifecycle.tcp env) (Lifecycle.info s) sockets).1.1 ->
  0 <= Lifecycle.getfl env -> 0 <= Lifecycle.setfl env ->
  exists p,
    Lifecycle.as_bind env s sockets =
      (0,
       Lifecycle.mk_server
         (Tcp.mk_server_info (Tcp.socket_result (Lifecycle.tcp env))
            (snd (Tcp.parse_address (Tcp.scanned_full (Lifecycle.tcp env))
                                    (Tcp.scanned_port (Lifecycle.tcp env)))))
         (Some p) (Some ∅),
       {[Tcp.socket_result (Lifecycle.tcp env)]} ∪ sockets) /\
    wf_pollfds p /\ Pollfds.polled_fds p = 1 /\ Pollfds.total_fds p = 1024 /\
    Pollfds.watched p
    = [Pollfds.mk_pollfd (Tcp.socket_result (Lifecycle.tcp env)) 3 0].
Proof.
  intros Hh Hm Hc Hb Hg Hs.
  rewrite as_bind_unfold, Hh, Hm, Hc. cbn [negb].
  destruct (Pollfds.create_pollfds true true Server.MAX_CLIENTS) as [p|] eqn:Hcreate;
    [|done].
  destruct (TcpFacts.server_bind_ok _ _ _ Hb) as [Hbind Hfd]. rewrite Hbind.
  cbv zeta. cbn [fst snd Tcp.fd].
  destruct (Z.ltb_spec 0 0); [lia|].
  destruct (Z.ltb_spec (Lifecycle.getfl env) 0); [lia|].
  destruct (Z.ltb_spec (Lifecycle.setfl env) 0); [lia|]. cbn [orb].
  destruct (listener_registry p (Tcp.socket_result (Lifecycle.tcp env)) Hcreate Hfd)
    as (Hr & Hwf & Hpol & Hlen & Hwat).
  rewrite Hr. destruct (Z.ltb_spec 0 0); [lia|].
  eexists. split; [reflexivity|]. done.
Qed.

(** X12. When every step succeeds, [as_bind] returns 0 and leaves an
    empty table, the listener bound to the parsed address and open,
    and a registry of 1024 slots that watches the listener alone, in
    slot 0, for POLLIN | POLLPRI: [add_event] cannot fail on the
    registry just created. *)
Theorem as_bind_success env s sockets :
  Lifecycle.htable_ok env = true -> Lifecycle.malloc_ok env = true ->
  Lifecycle.calloc_ok env = true ->
  0 <= (Tcp.server_bind (Lifecycle.tcp env) (Lifecycle.info s) sockets).1.1 ->
  0 <= Lifecycle.getfl env -> 0 <= Lifecycle.setfl env ->
  exists p,
    Lifecycle.as_bind env s sockets =
      (0,
       Lifecycle.mk_server
         (Tcp.mk_server_info (Tcp.socket_result (Lifecycle.tcp env))
            (snd (Tcp.parse_address (Tcp.scanned_full (Lifecycle.tcp env))
                                    (Tcp.scanned_port (Lifecycle.tcp env)))))
         (Some p) (Some ∅),
       {[Tcp.socket_result (Lifecycle.tcp env)]} ∪ sockets) /\
    wf_pollfds p /\ Pollfds.polled_fds p = 1 /\ Pollfds.total_fds p = 1024 /\
    Pollfds.watched p
    = [Pollfds.mk_pollfd (Tcp.socket_result (Lifecycle.tcp env)) 3 0].
Proof. apply as_bind_all_steps. Qed.

Lemma as_bind_success_witness :
  exists p,
    Lifecycle.as_bind Scenarios.bound_env Scenarios.fresh_server ∅ =
      (0,
       Lifecycle.mk_server
         (Tcp.mk_server_info 3
            (snd (Tcp.parse_address Scenarios.loopback_full Scenarios.loopback_port)))
         (Some p) (Some ∅),
       {[3]} ∪ ∅) /\
    wf_pollfds p /\ Pollfds.polled_fds p = 1 /\ Pollfds.total_fds p = 1024 /\
    Pollfds.watched p = [Pollfds.mk_pollfd 3 3 0].
Proof.
  apply (as_bind_success Scenarios.bound_env Scenarios.fresh_server ∅);
    try reflexivity; by vm_compute.
Defined.

(** X13. [as_bind] returns -1 exactly when [htable_create],
    [create_pollfds] or [server_bind] fails, and 0 otherwise. When
    [server_bind] succeeded and one of the two [fcntl] calls fails, it
    returns 0 although the table and the registry have been destroyed
    and set to NULL, and the listener socket stays open. *)
Theorem as_bind_status env s sockets :
  let b := Tcp.server_bind (Lifecycle.tcp env) (Lifecycle.info s) sockets in
  let r := Lifecycle.as_bind env s sockets in
  (r.1.1 = 0 \/ r.1.1 = -1) /\
  (r.1.1 = -1 <->
   Lifecycle.htable_ok env = false \/ Lifecycle.malloc_ok env = false \/
   Lifecycle.calloc_ok env = false \/ b.1.1 < 0) /\
  (r.1.1 = -1 -> Lifecycle.contexts r.1.2 = None) /\
  (Lifecycle.htable_ok env = true -> Lifecycle.malloc_ok env = true ->
   Lifecycle.calloc_ok env = true -> 0 <= b.1.1 ->
   Lifecycle.getfl env < 0 \/ Lifecycle.setfl env < 0 ->
   r.1.1 = 0 /\ Lifecycle.polled r.1.2 = None /\ Lifecycle.contexts r.1.2 = None /\
   Tcp.fd (Lifecycle.info r.1.2) = Tcp.socket_result (Lifecycle.tcp env) /\
   Tcp.socket_result (Lifecycle.tcp env) ∈ r.2).
Proof.
  intros b r. unfold r. rewrite as_bind_unfold. fold b. cbv zeta.
  destruct (Lifecycle.htable_ok env); cbn [negb].
  2: { cbn. split; [by right|]. split; [split; [by left|done]|]. split; [done|]. done. }
  unfold Pollfds.create_pollfds.
  destruct (Lifecycle.malloc_ok env).
  2: { cbn. split; [by right|]. split; [split; [by (right; left)|done]|].
       split; [done|]. done. }
  destruct (Lifecycle.calloc_ok env).
  2: { cbn. split; [by right|]. split; [split; [by (right; right; left)|done]|].
       split; [done|]. done. }
  pose proof (TcpFacts.server_bind_status (Lifecycle.tcp env) (Lifecycle.info s) sockets) as Hst.
  fold b in Hst.
  destruct (Z.ltb_spec b.1.1 0) as [Hb|Hb].
  { cbn [fst snd Lifecycle.contexts]. split; [by right|].
    split; [split; [intros _; by (right; right; right)|done]|].
    split; [done|]. intros _ _ _ Hb'. lia. }
  assert (Hno : ~ (true = false \/ true = false \/ true = false \/ b.1.1 < 0)).
  { intros [|[|[|]]]; (done || lia). }
  destruct (TcpFacts.server_bind_ok _ _ _ Hb) as [Hbind Hfd]. fold b in Hbind.
  assert (Hopen : Tcp.socket_result (Lifecycle.tcp env) ∈ b.2)
    by (rewrite Hbind; cbn; apply elem_of_union_l, elem_of_singleton_2; reflexivity).
  assert (Hinfo : Tcp.fd b.1.2 = Tcp.socket_result (Lifecycle.tcp env))
    by (by rewrite Hbind).
  destruct (Z.ltb_spec (Lifecycle.getfl env) 0) as [Hg|Hg]; cbn [orb].
  { cbn [fst snd Lifecycle.contexts Lifecycle.polled Lifecycle.info].
    split; [by left|]. split; [split; [done|intros H; by destruct (Hno H)]|].
    split; [done|]. done. }
  destruct (Z.ltb_spec (Lifecycle.setfl env) 0) as [Hs|Hs].
  { cbn [fst snd Lifecycle.contexts Lifecycle.polled Lifecycle.info].
    split; [by left|]. split; [split; [done|intros H; by destruct (Hno H)]|].
    split; [done|]. done. }
  destruct (_ <? 0).
  all: cbn [fst snd Lifecycle.contexts Lifecycle.polled Lifecycle.info].
  all: split; [by left|]. 
  all: split; [split; [done|intros H; by destruct (Hno H)]|].
  all: split; [done|]. 
  all: intros _ _ _ _ [|]; lia.
Qed.

Lemma as_bind_status_witness :
  (Lifecycle.as_bind Scenarios.setfl_fails Scenarios.fresh_server ∅).1.1 = 0 /\
  Lifecycle.polled (Lifecycle.as_bind Scenarios.setfl_fails Scenarios.fresh_server ∅).1.2
  = None /\
  Lifecycle.contexts (Lifecycle.as_bind Scenarios.setfl_fails Scenarios.fresh_server ∅).1.2
  = None /\
  Tcp.fd (Lifecycle.info
            (Lifecycle.as_bind Scenarios.setfl_fails Scenarios.fresh_server ∅).1.2)
  = 3 /\
  3 ∈ (Lifecycle.as_bind Scenarios.setfl_fails Scenarios.fresh_server ∅).2.
Proof.
  apply (as_bind_status Scenarios.setfl_fails Scenarios.fresh_server ∅);
    first [reflexivity | by vm_compute | right; reflexivity].
Defined.

(** X14. [as_cleanup] closes exactly the descriptors the registry
    watches, and none when the registry pointer is NULL. After a
    successful [as_bind] it closes the listener, so the open
    descriptors are those from before [as_bind]. *)
Theorem as_cleanup_closes_watched env s sockets :
  (forall p, Lifecycle.polled s = Some p -> wf_pollfds p ->
     Lifecycle.as_cleanup s sockets
     = sockets ∖ list_to_set (Pollfds.fd <$> Pollfds.watched p)) /\
  (Lifecycle.polled s = None -> Lifecycle.as_cleanup s sockets = sockets) /\
  (Lifecycle.htable_ok env = true -> Lifecycle.malloc_ok env = true ->
   Lifecycle.calloc_ok env = true ->
   0 <= (Tcp.server_bind (Lifecycle.tcp env) (Lifecycle.info s) sockets).1.1 ->
   0 <= Lifecycle.getfl env -> 0 <= Lifecycle.setfl env ->
   Tcp.socket_result (Lifecycle.tcp env) ∉ sockets ->
   Lifecycle.as_cleanup (Lifecycle.as_bind env s sockets).1.2
     (Lifecycle.as_bind env s sockets).2 = sockets).
Proof.
  assert (Hclose : forall s sockets p, Lifecycle.polled s = Some p -> wf_pollfds p ->
            Lifecycle.as_cleanup s sockets
            = sockets ∖ list_to_set (Pollfds.fd <$> Pollfds.watched p)).
  { intros s' sockets' p Hp Hwf. unfold Lifecycle.as_cleanup. rewrite Hp.
    rewrite as_cleanup_loop. by rewrite watched_fds_seq. }
  split; [apply Hclose|]. split.
  { intros Hnone. unfold Lifecycle.as_cleanup. by rewrite Hnone. }
  intros Hh Hm Hc Hb Hg Hs Hfresh.
  destruct (as_bind_all_steps env s sockets Hh Hm Hc Hb Hg Hs)
    as (p & -> & Hwf & _ & _ & Hwat). cbn [fst snd].
  rewrite (Hclose _ _ p) by done. rewrite Hwat. cbn.
  rewrite union_empty_r_L. apply set_eq. intros x.
  rewrite elem_of_difference, elem_of_union, elem_of_singleton.
  split; [intros [[->|Hx] Hne]; done|intros Hx; split; [by right|by intros ->]].
Qed.

Lemma as_cleanup_closes_watched_witness :
  Lifecycle.as_cleanup (Lifecycle.as_bind Scenarios.bound_env Scenarios.fresh_server ∅).1.2
    (Lifecycle.as_bind Scenarios.bound_env Scenarios.fresh_server ∅).2 = ∅.
Proof.
  apply (as_cleanup_closes_watched Scenarios.bound_env Scenarios.fresh_server ∅);
    first [reflexivity | apply not_elem_of_empty | by vm_compute].
Defined.

End LifecycleFacts.

(** ** The circular buffer in use *)

Module BufferFacts.
Import CInt Inv IobuffFacts.

Lemma size_roundup_pow2 k : 0 <= k <= 63 -> Iobuff.size_roundup (2 ^ k) = 2 ^ k.
Proof.
  intros Hk. unfold Iobuff.size_roundup.
  assert (Hp : 0 < 2 ^ k <= 2 ^ 63).
  { split; [apply Z.pow_pos_nonneg; lia|apply Z.pow_le_mono_r; lia]. }
  rewrite wrap64_small by (unfold SIZE_MOD; lia).
  replace (2 ^ k - 1) with (Z.ones k) by (rewrite Z.ones_equiv; lia).
  rewrite Z.land_ones by lia. rewrite Z.mod_same by lia. done.
Qed.

(** [size_roundup] on 1 .. 2^63 *)
Lemma size_roundup_least x :
  0 < x <= 2 ^ 63 ->
  exists k, 0 <= k <= 63 /\ Iobuff.size_roundup x = 2 ^ k /\ x <= 2 ^ k < 2 * x.
Proof.
  intros Hx.
  assert (Hlog : 0 <= Z.log2 x < 64).
  { split; [apply Z.log2_nonneg|]. apply Z.log2_lt_pow2; lia. }
  pose proof (Z.log2_spec x ltac:(lia)) as [Hlo Hhi].
  destruct (decide (x = 2 ^ Z.log2 x)) as [Hpow|Hnpow].
  - exists (Z.log2 x). split; [lia|]. split; [|lia].
    transitivity (Iobuff.size_roundup (2 ^ Z.log2 x)); [by rewrite <- Hpow|].
    apply size_roundup_pow2. lia.
  - destruct (size_roundup_spec x) as [[Hp _]|[_ Hs]];
      [unfold SIZE_MOD; lia|done|].
    assert (Hl62 : Z.log2 x <= 62).
    { destruct (decide (Z.log2 x = 63)) as [E|E]; [|lia].
      rewrite E in Hlo, Hnpow. lia. }
    assert (Hsucc : 2 ^ (Z.log2 x + 1) = 2 * 2 ^ Z.log2 x).
    { rewrite Z.pow_add_r by lia. lia. }
    assert (Hle : 2 ^ (Z.log2 x + 1) <= 2 ^ 63) by (apply Z.pow_le_mono_r; lia).
    exists (Z.log2 x + 1). rewrite Hs.
    rewrite wrap64_small by (unfold SIZE_MOD; lia).
    split; [lia|]. split; [done|].
    replace (Z.succ (Z.log2 x)) with (Z.log2 x + 1) in Hhi by lia. lia.
Qed.

(** X15. [size_roundup] returns the least power of two that is not
    below its argument, for every argument from 1 to 2^63; it maps 0 to
    0, and an argument above 2^63 to 0 as well, the power 2^64 being
    lost to the 64-bit wrap-around. *)
Theorem size_roundup_least_pow2 x :
  Iobuff.size_roundup 0 = 0 /\
  (0 < x <= 2 ^ 63 ->
   exists k, 0 <= k <= 63 /\ Iobuff.size_roundup x = 2 ^ k /\ x <= 2 ^ k < 2 * x) /\
  (2 ^ 63 < x < SIZE_MOD -> Iobuff.size_roundup x = 0).
Proof.
  split; [reflexivity|]. split; [apply size_roundup_least|].
  intros Hx. unfold SIZE_MOD in Hx.
  assert (Hlog : Z.log2 x = 63).
  { apply Z.log2_unique; [lia|]. simpl. lia. }
  destruct (size_roundup_spec x) as [[Hp _]|[_ Hs]]; [unfold SIZE_MOD; lia| |].
  - rewrite Hlog in Hp. lia.
  - rewrite Hs, Hlog. reflexivity.
Qed.

Lemma size_roundup_least_pow2_witness :
  exists k, 0 <= k <= 63 /\ Iobuff.size_roundup 1500 = 2 ^ k /\ 1500 <= 2 ^ k < 2 * 1500.
Proof.
  apply (size_roundup_least_pow2 1500). lia.
Defined.

(** [iobuff_append] does not grow a buffer into which the data fits *)
Lemma iobuff_append_fits_copy re b data len can_reallocate :
  wf_buffer b -> cursors_ok b ->
  Iobuff.tail b <= Iobuff.head b -> Iobuff.size b < 2 ^ 31 ->
  0 < len <= Iobuff.size b - used b ->
  Iobuff.iobuff_append re b data len can_reallocate = Iobuff.append_copy b data len.
Proof.
  intros Hwf Hcur Hle Hsmall Hlen. unfold Iobuff.iobuff_append.
  destruct (Z.eqb_spec len 0); [lia|].
  destruct (Iobuff.iobuff_full b) eqn:Hfull.
  { apply iobuff_full_used in Hfull. lia. }
  cbn [orb]. rewrite iobuff_space_ahead by done.
  unfold cursors_ok in Hcur.
  rewrite wrap64_small by (unfold SIZE_MOD; lia).
  by destruct (Z.ltb_spec (Iobuff.size b - used b) len); [lia|].
Qed.

(** data that fits is appended whole *)
Lemma iobuff_append_fits_whole re b data len can_reallocate :
  wf_buffer b -> cursors_ok b ->
  Iobuff.tail b <= Iobuff.head b -> Iobuff.size b < 2 ^ 31 ->
  len = Z.of_nat (length data) -> 0 < len <= Iobuff.size b - used b ->
  let r := Iobuff.iobuff_append re b data len can_reallocate in
  fst r = len /\
  Iobuff.pending (snd r) = Iobuff.pending b ++ (Some <$> data) /\
  Iobuff.size (snd r) = Iobuff.size b /\ Iobuff.tail (snd r) = Iobuff.tail b /\
  Iobuff.head (snd r) = wrap64 (Iobuff.head b + len) /\
  wf_buffer (snd r) /\ cursors_ok (snd r).
Proof.
  intros Hwf Hcur Hle Hsmall Hlen Hfit r. unfold r.
  rewrite iobuff_append_fits_copy by done.
  pose proof Hcur as Hused. unfold cursors_ok in Hused.
  destruct (append_copy_spec b data len Hwf) as (Hr & Hs & Ht & Hh & Hl & Hu & Hp);
    [lia|done|unfold SIZE_MOD; lia|].
  rewrite Z.min_l in * by lia.
  split; [done|]. split.
  { rewrite Hp. rewrite take_ge by lia. done. }
  do 3 (split; [done|]).
  destruct Hwf as [Hpow Hsto Hhd Htl]. split.
  - constructor; rewrite ?Hs, ?Ht, ?Hh, ?Hl; try done. apply wrap64_range.
  - unfold cursors_ok in *. rewrite Hu, Hs. lia.
Qed.

(** X16. Data that fits into the free space of a buffer (one whose
    cursors have not wrapped past 2^64 and whose capacity is below
    2^31) is appended whole, behind the pending bytes and in order:
    the call returns the length, asks for no reallocation whatever
    [can_reallocate] is, and leaves the capacity and [tail] alone. *)
Theorem iobuff_append_fits re b data len can_reallocate :
  wf_buffer b -> cursors_ok b ->
  Iobuff.tail b <= Iobuff.head b -> Iobuff.size b < 2 ^ 31 ->
  len = Z.of_nat (length data) -> 0 < len <= Iobuff.size b - used b ->
  let r := Iobuff.iobuff_append re b data len can_reallocate in
  fst r = len /\
  Iobuff.pending (snd r) = Iobuff.pending b ++ (Some <$> data) /\
  Iobuff.size (snd r) = Iobuff.size b /\ Iobuff.tail (snd r) = Iobuff.tail b /\
  Iobuff.head (snd r) = wrap64 (Iobuff.head b + len) /\
  wf_buffer (snd r) /\ cursors_ok (snd r).
Proof. apply iobuff_append_fits_whole. Qed.

Lemma iobuff_append_fits_witness :
  fst (Iobuff.iobuff_append Iobuff.ReallocNull Examples.ring4_drained ["c"; "d"]%byte 2 true)
  = 2 /\
  Iobuff.pending
    (snd (Iobuff.iobuff_append Iobuff.ReallocNull Examples.ring4_drained ["c"; "d"]%byte 2 true))
  = Iobuff.pending Examples.ring4_drained ++ (Some <$> ["c"; "d"]%byte).
Proof.
  assert (Hle : Iobuff.tail Examples.ring4_drained <= Iobuff.head Examples.ring4_drained)
    by (by vm_compute).
  assert (Hsmall : Iobuff.size Examples.ring4_drained < 2 ^ 31) by reflexivity.
  assert (Hfit : 0 < 2 <= Iobuff.size Examples.ring4_drained - used Examples.ring4_drained)
    by (by vm_compute).
  destruct (iobuff_append_fits Iobuff.ReallocNull Examples.ring4_drained ["c"; "d"]%byte 2 true
              ring4_drained_wf ring4_drained_cursors Hle Hsmall eq_refl Hfit)
    as (H1 & H2 & _).
  split; [exact H1|exact H2].
Defined.


(** the first lap: both cursors are still offsets into the storage *)
Lemma first_lap_used b :
  wf_buffer b -> Iobuff.tail b <= Iobuff.head b <= Iobuff.size b ->
  used b = Iobuff.head b - Iobuff.tail b /\ cursors_ok b.
Proof.
  intros [_ _ Hh Ht] Hlap.
  assert (Hu : used b = Iobuff.head b - Iobuff.tail b).
  { unfold used. apply wrap64_small. lia. }
  split; [done|]. unfold cursors_ok. lia.
Qed.

(** in the first lap a larger storage holds the pending bytes where the
    cursors look for them *)
Lemma pending_regrown b N fresh k :
  wf_buffer b -> Iobuff.tail b <= Iobuff.head b <= Iobuff.size b ->
  0 <= k <= 62 -> N = 2 ^ k -> Iobuff.size b <= N ->
  Iobuff.pending (Iobuff.regrown b N fresh) = Iobuff.pending b.
Proof.
  intros Hwf Hlap Hk HN HbN.
  destruct (first_lap_used b Hwf Hlap) as [Hu Hcur].
  pose proof Hwf as [(kb & Hkb & Hsb) Hsto Hh Ht].
  assert (Hu' : used (Iobuff.regrown b N fresh) = used b) by reflexivity.
  apply list_eq. intros i.
  destruct (decide (Z.of_nat i < used b)) as [Hi|Hi].
  - rewrite (pending_lookup (Iobuff.regrown b N fresh) k) by (done || lia).
    rewrite (pending_lookup b kb) by done.
    cbn [Iobuff.regrown Iobuff.tail Iobuff.size Iobuff.buffer]. f_equal.
    assert (HtN : Iobuff.tail b mod N = Iobuff.tail b) by (apply Z.mod_small; lia).
    assert (Hts : Iobuff.tail b mod Iobuff.size b = Iobuff.tail b)
      by (apply Z.mod_small; lia).
    rewrite HtN, Hts.
    rewrite (Z.mod_small _ N) by lia.
    rewrite (Z.mod_small _ (Iobuff.size b)) by lia.
    unfold Iobuff.realloc.
    rewrite take_ge by lia.
    apply lookup_app_l. lia.
  - rewrite !(proj2 (lookup_ge_None _ _)); [done| |]; rewrite pending_length; lia.
Qed.

(** growth with the storage in a block of its own, while neither
    cursor has passed the capacity: the pending bytes stay and the data
    is appended whole; a failed [realloc] changes nothing *)
Lemma first_lap_growth b data len :
  wf_buffer b -> Iobuff.tail b <= Iobuff.head b <= Iobuff.size b ->
  Iobuff.size b < 2 ^ 31 -> used b < Iobuff.size b ->
  len = Z.of_nat (length data) -> Iobuff.size b - used b < len <= 2 ^ 61 ->
  Iobuff.iobuff_append Iobuff.ReallocNull b data len true = (0, b) /\
  (forall fresh,
     let r := Iobuff.iobuff_append (Iobuff.ReallocBlock fresh) b data len true in
     fst r = len /\
     Iobuff.pending (snd r) = Iobuff.pending b ++ (Some <$> data) /\
     Iobuff.size (snd r) = Iobuff.size_roundup (Iobuff.size b + len) /\
     Iobuff.size b + len <= Iobuff.size (snd r) < 2 * (Iobuff.size b + len) /\
     Iobuff.head (snd r) = Iobuff.head b + len /\ Iobuff.tail (snd r) = Iobuff.tail b).
Proof.
  intros Hwf Hlap Hsmall Hnotfull Hlen Hbig.
  destruct (first_lap_used b Hwf Hlap) as [Hu Hcur].
  pose proof Hwf as [(kb & Hkb & Hsb) Hsto Hh Ht].
  assert (Hpos : 0 < Iobuff.size b) by (rewrite Hsb; apply Z.pow_pos_nonneg; lia).
  assert (Hstep : forall re,
    Iobuff.iobuff_append re b data len true =
    match re with
    | Iobuff.ReallocNull => (0, b)
    | Iobuff.ReallocBlock fresh =>
        Iobuff.append_copy
          (Iobuff.regrown b (Iobuff.size_roundup (Iobuff.size b + len)) fresh) data len
    end).
  { intros re. unfold Iobuff.iobuff_append.
    destruct (Z.eqb_spec len 0); [lia|].
    destruct (Iobuff.iobuff_full b) eqn:Hfull.
    { apply iobuff_full_used in Hfull. lia. }
    cbn [orb]. rewrite iobuff_space_ahead by (done || lia).
    rewrite wrap64_small by (unfold SIZE_MOD; lia).
    destruct (Z.ltb_spec (Iobuff.size b - used b) len); [|lia]. cbn [andb].
    by rewrite (wrap64_small (Iobuff.size b + len)) by (unfold SIZE_MOD; lia). }
  split; [apply (Hstep Iobuff.ReallocNull)|].
  intros fresh r. unfold r. rewrite (Hstep (Iobuff.ReallocBlock fresh)).
  destruct (size_roundup_least (Iobuff.size b + len)) as (k & Hk & HN & Hle); [lia|].
  set (N := Iobuff.size_roundup (Iobuff.size b + len)) in *.
  assert (Hk62 : k <= 62).
  { destruct (decide (k = 63)) as [E|E]; [|lia]. rewrite E in Hle. lia. }
  assert (HNle : N <= 2 ^ 62) by (rewrite HN; apply Z.pow_le_mono_r; lia).
  assert (Hwf' : wf_buffer (Iobuff.regrown b N fresh)).
  { constructor; cbn [Iobuff.regrown Iobuff.size Iobuff.buffer Iobuff.head Iobuff.tail];
      try done.
    - exists k. split; [lia|done].
    - apply length_realloc. lia. }
  assert (Hu' : used (Iobuff.regrown b N fresh) = used b) by reflexivity.
  destruct (append_copy_spec (Iobuff.regrown b N fresh) data len Hwf')
    as (Hr & Hs & Htl & Hhd & _ & _ & Hp).
  { rewrite Hu'. cbn. lia. }
  { done. }
  { unfold SIZE_MOD. lia. }
  rewrite Hu' in *.
  cbn [Iobuff.regrown Iobuff.size Iobuff.buffer Iobuff.head Iobuff.tail] in Hr, Hs, Htl, Hhd, Hp.
  rewrite Z.min_l in * by lia.
  split; [done|]. split.
  { rewrite Hp. rewrite (pending_regrown b N fresh k) by (done || lia).
    by rewrite take_ge by lia. }
  rewrite Hs, Htl, Hhd.
  split; [done|]. split; [lia|]. split; [|done].
  apply wrap64_small. unfold SIZE_MOD. lia.
Qed.

(** a buffer whose storage lies inside the header's block keeps that
    place and its capacity through every call that returns *)
Lemma in_header_run_ops ops : forall pb pb',
  Placed.storage_at pb = Placed.InHeader ->
  Placed.run_ops ops pb = Some pb' ->
  Placed.storage_at pb' = Placed.InHeader /\
  Iobuff.size (Placed.ring pb') = Iobuff.size (Placed.ring pb).
Proof.
  induction ops as [|o ops IH]; intros pb pb' Hin Hrun.
  - cbn in Hrun. by injection Hrun as <-.
  - cbn [Placed.run_ops] in Hrun.
    destruct (Placed.run_op o pb) as [pb1|] eqn:Hstep; [|done].
    assert (Hone : Placed.storage_at pb1 = Placed.InHeader /\
                   Iobuff.size (Placed.ring pb1) = Iobuff.size (Placed.ring pb)).
    { destruct o as [re data can|calloc_ok sent]; cbn [Placed.run_op] in Hstep.
      - unfold Placed.iobuff_append in Hstep. rewrite Hin in Hstep.
        destruct (_ || _); [by injection Hstep as <-|].
        destruct (_ && _); [done|].
        injection Hstep as <-. cbn [Placed.storage_at Placed.ring]. split; [done|].
        unfold Iobuff.append_copy. by destruct (_ <=? _).
      - injection Hstep as <-. cbn [Placed.iobuff_send Placed.storage_at Placed.ring snd].
        split; [done|]. unfold Iobuff.iobuff_send.
        destruct (_ =? 0); [done|].
        destruct (_ <? _); [destruct calloc_ok; [|done]|]; by destruct (sent <? 0). }
    destruct Hone as [Hin1 Hs1].
    destruct (IH pb1 pb' Hin1 Hrun) as [H1 H2]. split; [done|]. congruence.
Qed.

(** [Placed.iobuff_append] where it reaches [realloc] *)
Lemma placed_append_grows re pb data len :
  grows (Placed.ring pb) len true = true ->
  Placed.iobuff_append re pb data len true =
    match Placed.storage_at pb with
    | Placed.InHeader => Placed.Aborts
    | Placed.OwnBlock =>
        Placed.Returns
          (fst (Iobuff.iobuff_append re (Placed.ring pb) data len true))
          (Placed.mk_io_buffer Placed.OwnBlock
             (snd (Iobuff.iobuff_append re (Placed.ring pb) data len true)))
    end.
Proof.
  unfold grows, Placed.iobuff_append, Iobuff.iobuff_append.
  destruct ((len =? 0) || Iobuff.iobuff_full (Placed.ring pb)); [done|].
  cbn [negb andb]. rewrite andb_true_r. intros ->. cbn [andb].
  destruct pb as [[|] b]; cbn [Placed.storage_at Placed.ring]; [done|].
  by destruct re.
Qed.

(** X17. Growth. A buffer from [iobuff_alloc] has its storage inside
    the header's block and keeps it there, with its capacity, through
    every call that returns; on such a buffer an append that has to
    grow (the data does not fit, the buffer is not full,
    [can_reallocate] is set) hands [realloc] a pointer no allocation
    returned and does not return. On a buffer whose storage is a block
    of its own and whose cursors have not passed the capacity yet, a
    successful [realloc] makes the capacity the least power of two
    holding the old capacity plus the data, the pending bytes stay as
    they were and the data is appended whole; if [realloc] fails, the
    call returns 0 and the buffer is unchanged. *)
Theorem iobuff_append_grows_first_lap pb data len :
  wf_buffer (Placed.ring pb) ->
  Iobuff.tail (Placed.ring pb) <= Iobuff.head (Placed.ring pb) <= Iobuff.size (Placed.ring pb) ->
  Iobuff.size (Placed.ring pb) < 2 ^ 31 -> used (Placed.ring pb) < Iobuff.size (Placed.ring pb) ->
  len = Z.of_nat (length data) ->
  Iobuff.size (Placed.ring pb) - used (Placed.ring pb) < len <= 2 ^ 61 ->
  (forall calloc_ok size pb0,
     Placed.iobuff_alloc calloc_ok size = Some pb0 ->
     Placed.storage_at pb0 = Placed.InHeader /\
     forall ops pb', Placed.run_ops ops pb0 = Some pb' ->
                     Placed.storage_at pb' = Placed.InHeader /\
                     Iobuff.size (Placed.ring pb') = size) /\
  (Placed.storage_at pb = Placed.InHeader ->
   forall re, Placed.iobuff_append re pb data len true = Placed.Aborts) /\
  (Placed.storage_at pb = Placed.OwnBlock ->
   Placed.iobuff_append Iobuff.ReallocNull pb data len true = Placed.Returns 0 pb /\
   forall fresh,
     exists b',
       Placed.iobuff_append (Iobuff.ReallocBlock fresh) pb data len true
       = Placed.Returns len (Placed.mk_io_buffer Placed.OwnBlock b') /\
       Iobuff.pending b' = Iobuff.pending (Placed.ring pb) ++ (Some <$> data) /\
       Iobuff.size b' = Iobuff.size_roundup (Iobuff.size (Placed.ring pb) + len) /\
       Iobuff.size (Placed.ring pb) + len <= Iobuff.size b'
         < 2 * (Iobuff.size (Placed.ring pb) + len) /\
       Iobuff.head b' = Iobuff.head (Placed.ring pb) + len /\
       Iobuff.tail b' = Iobuff.tail (Placed.ring pb)).
Proof.
  intros Hwf Hlap Hsmall Hroom Hlen Hbig.
  destruct (first_lap_growth (Placed.ring pb) data len Hwf Hlap Hsmall Hroom Hlen Hbig)
    as [Hnull Hblock].
  assert (Hgrow : grows (Placed.ring pb) len true = true).
  { unfold grows.
    destruct (Z.eqb_spec len 0); [lia|].
    destruct (Iobuff.iobuff_full (Placed.ring pb)) eqn:Hfull.
    { apply iobuff_full_used in Hfull. lia. }
    destruct (first_lap_used (Placed.ring pb) Hwf Hlap) as [Hu Hcur].
    pose proof Hcur as Hrange. unfold cursors_ok in Hrange.
    cbn [orb negb andb]. rewrite iobuff_space_ahead by (done || lia).
    rewrite wrap64_small by (unfold SIZE_MOD; lia).
    destruct (Z.ltb_spec (Iobuff.size (Placed.ring pb) - used (Placed.ring pb)) len); [done|lia]. }
  split; [|split].
  - intros calloc_ok size pb0 Halloc.
    assert (Hpb0 : Placed.storage_at pb0 = Placed.InHeader /\
                   Iobuff.size (Placed.ring pb0) = size).
    { unfold Placed.iobuff_alloc, Iobuff.iobuff_alloc in Halloc.
      destruct calloc_ok; [|done]. by injection Halloc as <-. }
    destruct Hpb0 as [Hin Hsize]. split; [done|].
    intros ops pb' Hrun.
    destruct (in_header_run_ops ops pb0 pb' Hin Hrun) as [H1 H2].
    split; [done|]. congruence.
  - intros Hin re. rewrite placed_append_grows by done. by rewrite Hin.
  - intros Hown. split.
    + rewrite placed_append_grows by done. rewrite Hown, Hnull. cbn [fst snd].
      destruct pb as [st b]. cbn in Hown. by subst st.
    + intros fresh. destruct (Hblock fresh) as (Hr & Hp & Hs & Hle & Hh & Ht).
      exists (snd (Iobuff.iobuff_append (Iobuff.ReallocBlock fresh) (Placed.ring pb)
                     data len true)).
      rewrite placed_append_grows by done. rewrite Hown, Hr. done.
Qed.

Lemma iobuff_append_grows_first_lap_witness :
  (forall re,
     Placed.iobuff_append re Scenarios.alloc4_ab ["c"; "d"; "e"]%byte 3 true = Placed.Aborts) /\
  (forall fresh,
     exists b',
       Placed.iobuff_append (Iobuff.ReallocBlock fresh) Scenarios.own4_ab
         ["c"; "d"; "e"]%byte 3 true
       = Placed.Returns 3 (Placed.mk_io_buffer Placed.OwnBlock b') /\
       Iobuff.pending b'
       = Iobuff.pending (Placed.ring Scenarios.own4_ab) ++ (Some <$> ["c"; "d"; "e"]%byte)).
Proof.
  assert (Hwf : wf_buffer (Iobuff.mk_io_buffer ["a"; "b"; x00; x00]%byte 4 2 0)).
  { constructor; [exists 2; by vm_compute|reflexivity|by vm_compute|by vm_compute]. }
  assert (Hlap : 0 <= 2 <= 4) by lia.
  assert (Hsmall : 4 < 2 ^ 31) by reflexivity.
  assert (Hroom : used (Iobuff.mk_io_buffer ["a"; "b"; x00; x00]%byte 4 2 0) < 4)
    by reflexivity.
  assert (Hbig : 4 - used (Iobuff.mk_io_buffer ["a"; "b"; x00; x00]%byte 4 2 0) < 3 <= 2 ^ 61)
    by (by vm_compute).
  split.
  - destruct (iobuff_append_grows_first_lap Scenarios.alloc4_ab ["c"; "d"; "e"]%byte 3
                Hwf Hlap Hsmall Hroom eq_refl Hbig) as (_ & Habort & _).
    apply Habort. reflexivity.
  - destruct (iobuff_append_grows_first_lap Scenarios.own4_ab ["c"; "d"; "e"]%byte 3
                Hwf Hlap Hsmall Hroom eq_refl Hbig) as (_ & _ & Hown).
    destruct (Hown eq_refl) as [_ Hblock].
    intros fresh. destruct (Hblock fresh) as (b' & Hret & Hpend & _).
    exists b'. split; [exact Hret|exact Hpend].
Defined.


(** what [send] is given does not depend on what it answers *)
Lemma given_any_sent calloc_ok sent sent' b :
  Iobuff.given (Iobuff.iobuff_send calloc_ok sent b)
  = Iobuff.given (Iobuff.iobuff_send calloc_ok sent' b).
Proof.
  unfold Iobuff.iobuff_send.
  destruct (_ =? 0); [done|].
  destruct (Iobuff.head b <? Iobuff.tail b); [destruct calloc_ok; [|done]|];
    by destruct (sent <? 0), (sent' <? 0).
Qed.

(** a failed or refused [send] *)
Lemma iobuff_send_failure calloc_ok sent b :
  sent < 0 ->
  Iobuff.after (Iobuff.iobuff_send calloc_ok sent b) = b /\
  (used b <> 0 -> Iobuff.ret (Iobuff.iobuff_send calloc_ok sent b) = -1).
Proof.
  intros Hneg. unfold Iobuff.iobuff_send. fold (used b).
  destruct (Z.eqb_spec (used b) 0); [done|].
  destruct (Iobuff.head b <? Iobuff.tail b); [destruct calloc_ok; [|done]|];
    by destruct (Z.ltb_spec sent 0); [|lia].
Qed.

(** nothing is sent from an empty buffer *)
Lemma iobuff_send_empty calloc_ok sent b :
  used b = 0 ->
  Iobuff.iobuff_send calloc_ok sent b = Iobuff.mk_send_outcome 0 Iobuff.NotCalled b.
Proof.
  intros Hu. unfold Iobuff.iobuff_send. fold (used b). by rewrite Hu.
Qed.

(** the buffer after a short write, when the pending bytes are
    contiguous in the storage *)
Lemma drained_contiguous b sent :
  wf_buffer b -> cursors_ok b ->
  Iobuff.tail b <= Iobuff.head b ->
  Iobuff.tail b mod Iobuff.size b + used b <= Iobuff.size b ->
  0 <= sent < used b ->
  let b' := Iobuff.mk_io_buffer (Iobuff.buffer b) (Iobuff.size b) (Iobuff.head b)
              (wrap64 (Iobuff.tail b + sent)) in
  wf_buffer b' /\ cursors_ok b' /\ Iobuff.tail b' <= Iobuff.head b' /\
  Iobuff.tail b' mod Iobuff.size b' + used b' <= Iobuff.size b' /\
  used b' = used b - sent.
Proof.
  intros Hwf Hcur Hle Hfit Hsent b'.
  pose proof Hwf as [(k & Hk & Hs) Hst Hh Ht].
  pose proof (pow2_le_62 k Hk) as Hp. unfold cursors_ok in Hcur.
  assert (Hu : used b = Iobuff.head b - Iobuff.tail b).
  { unfold used. apply wrap64_small. lia. }
  assert (Ht' : wrap64 (Iobuff.tail b + sent) = Iobuff.tail b + sent).
  { apply wrap64_small. lia. }
  assert (Hu' : used b' = used b - sent).
  { rewrite Hu. unfold used, b'. cbn [Iobuff.head Iobuff.tail]. rewrite Ht'.
    rewrite wrap64_small by lia. lia. }
  assert (Hwt : 0 <= Iobuff.tail b mod Iobuff.size b < Iobuff.size b)
    by (apply Z.mod_pos_bound; lia).
  split.
  { constructor; unfold b'; cbn [Iobuff.head Iobuff.tail Iobuff.size Iobuff.buffer];
      try done; [by exists k|apply wrap64_range]. }
  split; [unfold cursors_ok; rewrite Hu'; unfold b'; cbn [Iobuff.size]; lia|].
  split; [unfold b'; cbn [Iobuff.head Iobuff.tail]; lia|].
  split; [|done].
  rewrite Hu'. unfold b'. cbn [Iobuff.head Iobuff.tail Iobuff.size]. rewrite Ht'.
  rewrite <- Z.add_mod_idemp_l by lia.
  rewrite Z.mod_small by lia. lia.
Qed.

(** X18. What [send] is handed, for a buffer with bytes pending. If the
    pending bytes do not cross the end of the storage, it is handed
    exactly them. If they cross it while [tail <= head], it is handed
    the range from the wrapped tail that runs past the end of the
    storage, and no temporary region is used. If [head < tail] (the
    head cursor has wrapped past 2^64), the temporary region holds the
    pending bytes in order when [calloc] succeeds, and the call returns
    -1 without calling [send] and without touching the buffer when
    [calloc] fails. *)
Theorem iobuff_send_given calloc_ok sent b :
  wf_buffer b -> cursors_ok b -> 0 < used b ->
  (Iobuff.tail b <= Iobuff.head b ->
   Iobuff.tail b mod Iobuff.size b + used b <= Iobuff.size b ->
   exists l, Iobuff.given (Iobuff.iobuff_send calloc_ok sent b) = Iobuff.Bytes l /\
             Some <$> l = Iobuff.pending b) /\
  (Iobuff.tail b <= Iobuff.head b ->
   Iobuff.size b < Iobuff.tail b mod Iobuff.size b + used b ->
   Iobuff.given (Iobuff.iobuff_send calloc_ok sent b)
   = Iobuff.OutOfStorage (Iobuff.tail b mod Iobuff.size b) (used b)) /\
  (Iobuff.head b < Iobuff.tail b ->
   (exists l, Iobuff.given (Iobuff.iobuff_send true sent b) = Iobuff.Bytes l /\
              Some <$> l = Iobuff.pending b) /\
   Iobuff.iobuff_send false sent b = Iobuff.mk_send_outcome (-1) Iobuff.NotCalled b).
Proof.
  intros Hwf Hcur Hpos. split; [|split].
  - intros Hle Hfit. rewrite (given_any_sent calloc_ok sent 0 b).
    destruct (iobuff_send_contiguous calloc_ok 0 b Hwf Hcur Hle Hfit Hpos ltac:(lia))
      as (l & Hg & Hl & _).
    by exists l.
  - intros Hle Hover. by apply iobuff_send_wrapped_out_of_storage.
  - intros Hlt. split; [by apply iobuff_send_linearized|].
    unfold Iobuff.iobuff_send. fold (used b).
    destruct (Z.eqb_spec (used b) 0); [lia|].
    by destruct (Z.ltb_spec (Iobuff.head b) (Iobuff.tail b)); [|lia].
Qed.

Lemma ring4_wrapped_wf : wf_buffer Examples.ring4_wrapped.
Proof.
  constructor; [exists 2; by vm_compute|reflexivity|by vm_compute|by vm_compute].
Qed.

Lemma iobuff_send_given_witness :
  Iobuff.given (Iobuff.iobuff_send true 4 Examples.ring4_wrapped)
  = Iobuff.OutOfStorage (Iobuff.tail Examples.ring4_wrapped
                         mod Iobuff.size Examples.ring4_wrapped)
      (used Examples.ring4_wrapped).
Proof.
  assert (Hcur : cursors_ok Examples.ring4_wrapped) by (by vm_compute).
  assert (Hpos : 0 < used Examples.ring4_wrapped) by reflexivity.
  destruct (iobuff_send_given true 4 Examples.ring4_wrapped ring4_wrapped_wf Hcur Hpos)
    as (_ & Hout & _).
  apply Hout; by vm_compute.
Defined.

(** X19. A short write is resumed where it stopped. For a buffer whose
    pending bytes are contiguous: when [send] accepts [sent] bytes,
    fewer than are pending, [iobuff_send] returns [sent], the bytes
    still pending are the unsent ones, and the next call hands exactly
    those to [send]. When [send] accepts everything, the buffer is
    empty and the next call returns 0 without calling [send]. When
    [send] fails, the call returns -1 and the buffer is unchanged. *)
Theorem iobuff_send_resumes calloc_ok sent b :
  wf_buffer b -> cursors_ok b ->
  Iobuff.tail b <= Iobuff.head b ->
  Iobuff.tail b mod Iobuff.size b + used b <= Iobuff.size b ->
  0 < used b ->
  let o := Iobuff.iobuff_send calloc_ok sent b in
  (sent < 0 -> Iobuff.ret o = -1 /\ Iobuff.after o = b) /\
  (0 <= sent < used b ->
   Iobuff.ret o = sent /\
   Iobuff.pending (Iobuff.after o) = drop (Z.to_nat sent) (Iobuff.pending b) /\
   forall calloc_ok' sent',
     exists l,
       Iobuff.given (Iobuff.iobuff_send calloc_ok' sent' (Iobuff.after o)) = Iobuff.Bytes l /\
       Some <$> l = drop (Z.to_nat sent) (Iobuff.pending b)) /\
  (sent = used b ->
   Iobuff.ret o = sent /\ Iobuff.iobuff_empty (Iobuff.after o) = true /\
   forall calloc_ok' sent',
     Iobuff.iobuff_send calloc_ok' sent' (Iobuff.after o)
     = Iobuff.mk_send_outcome 0 Iobuff.NotCalled (Iobuff.after o)).
Proof.
  intros Hwf Hcur Hle Hfit Hpos o.
  pose proof Hwf as [(k & Hk & Hs) Hst Hh Ht].
  pose proof Hcur as Hrange. unfold cursors_ok in Hrange.
  assert (Hafter : 0 <= sent ->
            Iobuff.after o = Iobuff.mk_io_buffer (Iobuff.buffer b) (Iobuff.size b)
                               (Iobuff.head b) (wrap64 (Iobuff.tail b + sent))).
  { intros Hs0. unfold o, Iobuff.iobuff_send. fold (used b).
    destruct (Z.eqb_spec (used b) 0); [lia|].
    destruct (Z.ltb_spec (Iobuff.head b) (Iobuff.tail b)); [lia|].
    by destruct (Z.ltb_spec sent 0); [lia|]. }
  split; [|split].
  - intros Hneg. destruct (iobuff_send_failure calloc_ok sent b Hneg) as [Ha Hr].
    split; [apply Hr; lia|done].
  - intros Hsent.
    destruct (iobuff_send_contiguous calloc_ok sent b Hwf Hcur Hle Hfit Hpos ltac:(lia))
      as (l & _ & _ & Hret & Hpend).
    fold o in Hret, Hpend. split; [done|]. split; [done|].
    intros calloc_ok' sent'.
    destruct (drained_contiguous b sent Hwf Hcur Hle Hfit Hsent)
      as (Hwf' & Hcur' & Hle' & Hfit' & Hu').
    rewrite <- Hafter in * by lia.
    rewrite (given_any_sent calloc_ok' sent' 0).
    destruct (iobuff_send_contiguous calloc_ok' 0 (Iobuff.after o) Hwf' Hcur' Hle' Hfit'
                ltac:(lia) ltac:(lia)) as (l' & Hg' & Hl' & _).
    exists l'. split; [done|]. by rewrite Hl'.
  - intros Hall.
    destruct (iobuff_send_contiguous calloc_ok sent b Hwf Hcur Hle Hfit Hpos ltac:(lia))
      as (l & _ & _ & Hret & _).
    fold o in Hret. split; [done|].
    assert (Hu : used b = Iobuff.head b - Iobuff.tail b).
    { unfold used. apply wrap64_small. lia. }
    assert (Htail : wrap64 (Iobuff.tail b + sent) = Iobuff.head b).
    { rewrite wrap64_small by lia. lia. }
    rewrite Hafter by lia. rewrite Htail.
    split.
    + unfold Iobuff.iobuff_empty. cbn [Iobuff.head Iobuff.tail]. apply Z.eqb_refl.
    + intros calloc_ok' sent'. apply iobuff_send_empty.
      unfold used. cbn [Iobuff.head Iobuff.tail]. by rewrite Z.sub_diag.
Qed.

Lemma iobuff_send_resumes_witness :
  Iobuff.ret (Iobuff.iobuff_send true 1 (Iobuff.mk_io_buffer ["a"; "b"; "c"; x00]%byte 4 3 0))
  = 1 /\
  Iobuff.pending
    (Iobuff.after (Iobuff.iobuff_send true 1
                     (Iobuff.mk_io_buffer ["a"; "b"; "c"; x00]%byte 4 3 0)))
  = drop (Z.to_nat 1) (Iobuff.pending (Iobuff.mk_io_buffer ["a"; "b"; "c"; x00]%byte 4 3 0)).
Proof.
  assert (Hwf : wf_buffer (Iobuff.mk_io_buffer ["a"; "b"; "c"; x00]%byte 4 3 0)).
  { constructor; [exists 2; by vm_compute|reflexivity|by vm_compute|by vm_compute]. }
  assert (Hcur : cursors_ok (Iobuff.mk_io_buffer ["a"; "b"; "c"; x00]%byte 4 3 0))
    by (by vm_compute).
  assert (Hle : 0 <= 3) by lia.
  assert (Hfit : 0 mod 4 + used (Iobuff.mk_io_buffer ["a"; "b"; "c"; x00]%byte 4 3 0) <= 4)
    by (by vm_compute).
  assert (Hpos : 0 < used (Iobuff.mk_io_buffer ["a"; "b"; "c"; x00]%byte 4 3 0))
    by reflexivity.
  destruct (iobuff_send_resumes true 1 (Iobuff.mk_io_buffer ["a"; "b"; "c"; x00]%byte 4 3 0)
              Hwf Hcur Hle Hfit Hpos) as (_ & Hshort & _).
  assert (Hsent : 0 <= 1 < used (Iobuff.mk_io_buffer ["a"; "b"; "c"; x00]%byte 4 3 0))
    by (by vm_compute).
  destruct (Hshort Hsent) as (Hret & Hpend & _).
  split; [exact Hret|exact Hpend].
Defined.

(** X20. Round trip through a fresh buffer. [iobuff_alloc] returns NULL
    exactly when [calloc] fails; otherwise the buffer is empty, and
    data of at most its capacity (a power of two up to 2^30) is
    appended whole, handed to [send] unchanged by the next
    [iobuff_send], and the buffer is empty again once [send] has
    accepted it all. *)
Theorem alloc_append_send_round_trip k data re can_reallocate calloc_ok :
  0 <= k <= 30 -> 0 < Z.of_nat (length data) <= 2 ^ k ->
  Iobuff.iobuff_alloc false (2 ^ k) = None /\
  exists b,
    Iobuff.iobuff_alloc true (2 ^ k) = Some b /\
    Iobuff.iobuff_empty b = true /\
    let r := Iobuff.iobuff_append re b data (Z.of_nat (length data)) can_reallocate in
    let o := Iobuff.iobuff_send calloc_ok (Z.of_nat (length data)) (snd r) in
    fst r = Z.of_nat (length data) /\
    Iobuff.given o = Iobuff.Bytes data /\
    Iobuff.ret o = Z.of_nat (length data) /\
    Iobuff.iobuff_empty (Iobuff.after o) = true.
Proof.
  intros Hk Hlen. split; [reflexivity|].
  destruct (Iobuff.iobuff_alloc true (2 ^ k)) as [b|] eqn:Halloc; [|done].
  exists b. split; [done|].
  destruct (iobuff_alloc_wf k b ltac:(lia) Halloc) as (Hwf & Hcur & Hu).
  assert (Hfields : Iobuff.head b = 0 /\ Iobuff.tail b = 0 /\ Iobuff.size b = 2 ^ k).
  { unfold Iobuff.iobuff_alloc in Halloc. by injection Halloc as <-. }
  destruct Hfields as (Hh & Ht & Hs).
  assert (Hp : 2 ^ k <= 2 ^ 30) by (apply Z.pow_le_mono_r; lia).
  split; [unfold Iobuff.iobuff_empty; rewrite Hh, Ht; reflexivity|].
  intros r o.
  destruct (iobuff_append_fits_whole re b data (Z.of_nat (length data)) can_reallocate Hwf Hcur)
    as (Hr & Hpend & Hs' & Ht' & Hh' & Hwf' & Hcur'); [lia|lia|done|lia|].
  fold r in Hr, Hpend, Hs', Ht', Hh', Hwf', Hcur'.
  split; [done|].
  assert (Hempty : Iobuff.pending b = []).
  { apply length_zero_iff_nil. rewrite pending_length. lia. }
  rewrite Hempty in Hpend. cbn [app] in Hpend.
  rewrite Hh, Z.add_0_l in Hh'. rewrite wrap64_small in Hh' by (unfold SIZE_MOD; lia).
  assert (Hu' : used (snd r) = Z.of_nat (length data)).
  { unfold used. rewrite Hh', Ht', Ht. rewrite Z.sub_0_r.
    apply wrap64_small. unfold SIZE_MOD. lia. }
  destruct (iobuff_send_contiguous calloc_ok (Z.of_nat (length data)) (snd r) Hwf' Hcur')
    as (l & Hg & Hl & Hret & Hafter).
  { lia. }
  { rewrite Ht', Ht, Hu', Hs', Hs. rewrite Z.mod_0_l by lia. lia. }
  { lia. }
  { lia. }
  fold o in Hg, Hret, Hafter.
  rewrite Hpend in Hl. apply (inj (fmap Some)) in Hl. subst l.
  split; [done|]. split; [done|].
  assert (Hsame : Iobuff.head (Iobuff.after o) = Iobuff.head (snd r) /\
                  Iobuff.tail (Iobuff.after o) = wrap64 (Iobuff.tail (snd r)
                                                         + Z.of_nat (length data))).
  { unfold o, Iobuff.iobuff_send. fold (used (snd r)). rewrite Hu'.
    destruct (Z.eqb_spec (Z.of_nat (length data)) 0); [lia|].
    destruct (Z.ltb_spec (Iobuff.head (snd r)) (Iobuff.tail (snd r))); [lia|].
    by destruct (Z.ltb_spec (Z.of_nat (length data)) 0); [lia|]. }
  destruct Hsame as [Hha Hta].
  unfold Iobuff.iobuff_empty. rewrite Hha, Hta, Hh', Ht', Ht, Z.add_0_l.
  rewrite wrap64_small by (unfold SIZE_MOD; lia). apply Z.eqb_refl.
Qed.

Lemma alloc_append_send_round_trip_witness :
  exists b,
    Iobuff.iobuff_alloc true (2 ^ 2) = Some b /\
    Iobuff.iobuff_empty b = true /\
    let r := Iobuff.iobuff_append Iobuff.ReallocNull b ["a"; "b"; "c"]%byte
               (Z.of_nat (length ["a"; "b"; "c"]%byte)) false in
    let o := Iobuff.iobuff_send true (Z.of_nat (length ["a"; "b"; "c"]%byte)) (snd r) in
    fst r = Z.of_nat (length ["a"; "b"; "c"]%byte) /\
    Iobuff.given o = Iobuff.Bytes ["a"; "b"; "c"]%byte /\
    Iobuff.ret o = Z.of_nat (length ["a"; "b"; "c"]%byte) /\
    Iobuff.iobuff_empty (Iobuff.after o) = true.
Proof.
  assert (Hk : 0 <= 2 <= 30) by lia.
  assert (Hlen : 0 < Z.of_nat (length ["a"; "b"; "c"]%byte) <= 2 ^ 2) by (by vm_compute).
  apply (alloc_append_send_round_trip 2 ["a"; "b"; "c"]%byte Iobuff.ReallocNull false true
           Hk Hlen).
Defined.

End BufferFacts.

(** ** Connections: accepting, disconnecting, dispatching *)

Module ConnectionFacts.
Import CInt Inv PollfdsFacts ServerFacts Connections.

Ltac server_unfold :=
  cbv beta iota zeta delta
    [Server.error_disconnect Server.error_free Server.client_close
     Server.free Server.store Server.with_heap Server.with_polled
     Server.with_contexts Server.with_sockets
     Server.heap Server.polled Server.contexts Server.sockets
     Server.listener_fd Server.server_handler Server.returned Server.final
     Server.info_fd Server.input Server.output Server.event_handler
     Server.status Server.user_data fst snd].

Lemma buffer_block_some p s :
  Server.buffer_block (Some p) s
  = (Server.BufAt p,
     Server.with_heap s (<[p := Server.BBuffer fresh_buffer]> (Server.heap s))).
Proof.
  unfold Server.buffer_block, Iobuff.iobuff_alloc, fresh_buffer.
  assert (Hsize : Iobuff.size_roundup (wrap64 (Server.BUFFER_SIZE * 1)) = Server.BUFFER_SIZE)
    by (by vm_compute).
  by rewrite Hsize.
Qed.

Lemma difference_union_fresh (d : Z) (X : gset Z) : d ∉ X -> ({[d]} ∪ X) ∖ {[d]} = X.
Proof.
  intros Hd. apply set_eq. intros x.
  rewrite elem_of_difference, elem_of_union, elem_of_singleton.
  split; [intros [[->|Hx] Hne]; done|intros Hx; split; [by right|by intros ->]].
Qed.

(** X21. A failure of [as_accept] before [htable_insert] undoes
    everything. When [calloc], [accept] or one of the two [fcntl] calls
    fails, or the registry is full, [as_accept] returns NULL and the
    server is exactly as before: the context is freed, the new
    descriptor is closed, the registry and the table are untouched. *)
Theorem as_accept_rolls_back env handler s :
  (forall client, Server.client_mem env = Some client -> Server.heap s !! client = None) ->
  Server.accepted env ∉ Server.sockets s ->
  Server.client_mem env = None \/ Server.accepted env < 0 \/
  Server.getfl env < 0 \/ Server.setfl env < 0 \/
  Pollfds.polled (Server.polled s) = Pollfds.length (Server.polled s) ->
  Server.as_accept env handler s = Server.Returns None s.
Proof.
  intros Hfresh Hfd Hfail.
  destruct s as [lf p t sh hp so]. cbn [Server.heap Server.sockets Server.polled] in *.
  unfold Server.as_accept, Server.client_alloc.
  destruct (Server.client_mem env) as [client|] eqn:Hmem; [|done].
  specialize (Hfresh client eq_refl).
  server_unfold.
  destruct (Z.ltb_spec (Server.accepted env) 0) as [Hacc|Hacc].
  { server_unfold. by rewrite !delete_insert_eq, delete_id. }
  assert (Hclose : forall p',
    Server.error_disconnect
      (Server.mk_server_context lf p' t sh
         (<[client := Server.BClient
                        (Server.mk_client_context (Server.accepted env) Server.BufInside
                           Server.BufInside handler 0 0)]>
            (<[client := Server.BClient
                           (Server.mk_client_context 0 Server.BufInside Server.BufInside
                              handler 0 0)]>
               (<[client := Server.BClient
                              (Server.mk_client_context 0 Server.BufInside Server.BufInside
                                 0 0 0)]> hp)))
         ({[Server.accepted env]} ∪ so)) client
    = Server.Returns None (Server.mk_server_context lf p' t sh hp so)).
  { intros p'. server_unfold. rewrite lookup_insert_eq. server_unfold.
    by rewrite !delete_insert_eq, delete_id, difference_union_fresh. }
  destruct (Z.ltb_spec (Server.getfl env) 0) as [Hg|Hg]; [apply Hclose|].
  destruct (Z.ltb_spec (Server.setfl env) 0) as [Hs|Hs]; [apply Hclose|].
  destruct Hfail as [?|[?|[?|[?|Hfull]]]]; try (done || lia).
  rewrite add_event_full by done.
  change (-1 <? 0) with true. cbv iota. apply Hclose.
Qed.


Lemma as_accept_rolls_back_witness :
  Server.as_accept Scenarios.accept_getfl_fails 7 Examples.listening
  = Server.Returns None Examples.listening.
Proof.
  apply (as_accept_rolls_back Scenarios.accept_getfl_fails 7 Examples.listening).
  - intros client H. injection H as <-. reflexivity.
  - apply (bool_decide_unpack _). by vm_compute.
  - right. right. left. reflexivity.
Defined.

(** the heap after a successful [as_accept] *)
Lemma accepted_heap (hp : gmap nat Server.block) client i o c0 c1 c2 c3 c4 b :
  client <> i -> client <> o -> i <> o ->
  let h := <[client := Server.BClient c4]>
             (<[o := Server.BBuffer b]>
                (<[client := Server.BClient c3]>
                   (<[i := Server.BBuffer b]>
                      (<[client := Server.BClient c2]>
                         (<[client := Server.BClient c1]>
                            (<[client := Server.BClient c0]> hp)))))) in
  h !! client = Some (Server.BClient c4) /\
  h !! i = Some (Server.BBuffer b) /\
  h !! o = Some (Server.BBuffer b) /\
  (forall p, p <> client -> p <> i -> p <> o -> h !! p = hp !! p).
Proof.
  intros H1 H2 H3 h. unfold h. split; [by rewrite lookup_insert_eq|].
  split.
  { rewrite lookup_insert_ne by done. rewrite lookup_insert_ne by done.
    rewrite lookup_insert_ne by done. by rewrite lookup_insert_eq. }
  split.
  { rewrite lookup_insert_ne by done. by rewrite lookup_insert_eq. }
  intros p Hp1 Hp2 Hp3.
  by rewrite !lookup_insert_ne by done.
Qed.

(** every step of [as_accept] succeeds *)
Lemma as_accept_all_steps env handler s client i o :
  wf_pollfds (Server.polled s) ->
  Pollfds.polled (Server.polled s) < Pollfds.length (Server.polled s) ->
  ~ watches (Server.polled s) (Server.accepted env) ->
  Server.client_mem env = Some client -> 0 <= Server.accepted env ->
  0 <= Server.getfl env -> 0 <= Server.setfl env -> Server.insert_ok env = true ->
  Server.input_mem env = Some i -> Server.output_mem env = Some o ->
  Server.as_accept env handler s =
  Server.Returns (Some client)
    (Server.mk_server_context (Server.listener_fd s)
       (Pollfds.mk_pollfds
          (<[Z.to_nat (Pollfds.polled (Server.polled s)) :=
               Pollfds.mk_pollfd (Server.accepted env) client_events 0]>
             (Pollfds.fds (Server.polled s)))
          (Pollfds.polled (Server.polled s) + 1) (Pollfds.length (Server.polled s))
          (Pollfds.timeout (Server.polled s)))
       (<[Server.accepted env := client]> (Server.contexts s))
       (Server.server_handler s)
       (<[client := Server.BClient
                      (Server.mk_client_context (Server.accepted env) (Server.BufAt i)
                         (Server.BufAt o) handler 0 0)]>
          (<[o := Server.BBuffer fresh_buffer]>
             (<[client := Server.BClient
                            (Server.mk_client_context (Server.accepted env) (Server.BufAt i)
                               Server.BufInside handler 0 0)]>
                (<[i := Server.BBuffer fresh_buffer]>
                   (<[client := Server.BClient
                                  (Server.mk_client_context (Server.accepted env)
                                     Server.BufInside Server.BufInside handler 0 0)]>
                      (<[client := Server.BClient
                                     (Server.mk_client_context 0 Server.BufInside
                                        Server.BufInside handler 0 0)]>
                         (<[client := Server.BClient
                                        (Server.mk_client_context 0 Server.BufInside
                                           Server.BufInside 0 0 0)]>
                            (Server.heap s))))))))
       ({[Server.accepted env]} ∪ Server.sockets s)).
Proof.
  intros Hwf Hroom Hnew Hmem Hacc Hg Hs Hins Hin Hout.
  destruct s as [lf p t sh hp so]. cbn [Server.heap Server.sockets Server.polled
    Server.contexts Server.listener_fd Server.server_handler] in *.
  unfold Server.as_accept, Server.client_alloc. rewrite Hmem, Hin, Hout, Hins.
  server_unfold.
  destruct (Z.ltb_spec (Server.accepted env) 0); [lia|].
  destruct (Z.ltb_spec (Server.getfl env) 0); [lia|].
  destruct (Z.ltb_spec (Server.setfl env) 0); [lia|].
  fold client_events. rewrite add_event_unwatched by done.
  change (0 <? 0) with false. cbv iota.
  unfold Server.htable_insert. change (0 <? 0) with false. cbv iota.
  rewrite !buffer_block_some. server_unfold. reflexivity.
Qed.

(** X22. When every step succeeds, [as_accept] returns the new context.
    The connection's descriptor is open, watched in the slot after the
    ones watched before for POLLIN | POLLOUT | POLLHUP, and mapped by
    the table to the context; the context carries the descriptor, the
    handler given and two empty buffers of 1024 bytes in blocks of
    their own. No other allocation, entry or descriptor changes. *)
Theorem as_accept_connects env handler s client i o :
  wf_pollfds (Server.polled s) ->
  Pollfds.polled (Server.polled s) < Pollfds.length (Server.polled s) ->
  ~ watches (Server.polled s) (Server.accepted env) ->
  Server.client_mem env = Some client -> 0 <= Server.accepted env ->
  0 <= Server.getfl env -> 0 <= Server.setfl env -> Server.insert_ok env = true ->
  Server.input_mem env = Some i -> Server.output_mem env = Some o ->
  client <> i -> client <> o -> i <> o ->
  exists s',
    Server.as_accept env handler s = Server.Returns (Some client) s' /\
    Pollfds.watched (Server.polled s')
    = Pollfds.watched (Server.polled s) ++ [Pollfds.mk_pollfd (Server.accepted env) 21 0] /\
    wf_pollfds (Server.polled s') /\
    Server.contexts s' = <[Server.accepted env := client]> (Server.contexts s) /\
    Server.sockets s' = {[Server.accepted env]} ∪ Server.sockets s /\
    Server.heap s' !! client
    = Some (Server.BClient
              (Server.mk_client_context (Server.accepted env) (Server.BufAt i)
                 (Server.BufAt o) handler 0 0)) /\
    Server.heap s' !! i = Some (Server.BBuffer fresh_buffer) /\
    Server.heap s' !! o = Some (Server.BBuffer fresh_buffer) /\
    (forall p, p <> client -> p <> i -> p <> o -> Server.heap s' !! p = Server.heap s !! p) /\
    wf_buffer fresh_buffer /\ Iobuff.iobuff_empty fresh_buffer = true /\
    Iobuff.size fresh_buffer = 1024.
Proof.
  intros Hwf Hroom Hnew Hmem Hacc Hg Hs Hins Hin Hout H1 H2 H3.
  eexists. split; [by apply (as_accept_all_steps env handler s client i o)|].
  cbn [Server.polled Server.contexts Server.sockets Server.heap].
  split; [by apply watched_append|].
  split.
  { pose proof (add_event_wf (Server.polled s) (Server.accepted env) client_events Hwf Hacc)
      as Hwf'.
    by rewrite add_event_unwatched in Hwf' by done. }
  split; [done|]. split; [done|].
  pose proof (accepted_heap (Server.heap s) client i o
                (Server.mk_client_context 0 Server.BufInside Server.BufInside 0 0 0)
                (Server.mk_client_context 0 Server.BufInside Server.BufInside handler 0 0)
                (Server.mk_client_context (Server.accepted env) Server.BufInside
                   Server.BufInside handler 0 0)
                (Server.mk_client_context (Server.accepted env) (Server.BufAt i)
                   Server.BufInside handler 0 0)
                (Server.mk_client_context (Server.accepted env) (Server.BufAt i)
                   (Server.BufAt o) handler 0 0)
                fresh_buffer H1 H2 H3) as (Hc & Hi & Ho & Hrest).
  do 4 (split; [done|]).
  split; [|done].
  constructor; [exists 10; by vm_compute|reflexivity|by vm_compute|by vm_compute].
Qed.


Lemma listening_wf : wf_pollfds (Server.polled Examples.listening).
Proof.
  destruct listening_registry as [Hcreate _].
  assert (Hmax : 0 < Server.MAX_CLIENTS < UINT_MOD) by (vm_compute; split; reflexivity).
  destruct (create_pollfds_wf _ _ Hmax Hcreate) as (Hwf & _).
  unfold Examples.listening. cbn [Server.polled]. by apply add_event_wf.
Qed.

Lemma listening_unwatched d : d <> 3 -> ~ watches (Server.polled Examples.listening) d.
Proof.
  intros Hd. unfold watches. destruct listening_registry as [_ ->]. cbn.
  intros H. apply list_elem_of_singleton in H. done.
Qed.

Lemma as_accept_connects_witness :
  exists s',
    Server.as_accept Examples.accept_ok 7 Examples.listening
    = Server.Returns (Some 0%nat) s' /\
    Pollfds.watched (Server.polled s')
    = Pollfds.watched (Server.polled Examples.listening) ++ [Pollfds.mk_pollfd 5 21 0].
Proof.
  assert (Hroom : Pollfds.polled (Server.polled Examples.listening)
                  < Pollfds.length (Server.polled Examples.listening)) by reflexivity.
  assert (Hnew : ~ watches (Server.polled Examples.listening) 5)
    by (apply listening_unwatched; lia).
  assert (Hpos : 0 <= 5) by lia.
  assert (Hz : 0 <= 0) by lia.
  destruct (as_accept_connects Examples.accept_ok 7 Examples.listening 0 1 2
              listening_wf Hroom Hnew eq_refl Hpos Hz Hz eq_refl eq_refl eq_refl)
    as (s' & H1 & H2 & _); try lia.
  exists s'. split; [exact H1|exact H2].
Defined.

(** X23. Accepting a connection and disconnecting it again restores
    the registry, the table and the open descriptors, and frees the
    context; the two buffers [as_accept] allocated stay on the heap. *)
Theorem accept_disconnect_round_trip env handler s client i o :
  wf_pollfds (Server.polled s) ->
  Pollfds.polled (Server.polled s) < Pollfds.length (Server.polled s) ->
  ~ watches (Server.polled s) (Server.accepted env) ->
  Server.htable_get (Server.contexts s) (Server.accepted env) = None ->
  Server.accepted env ∉ Server.sockets s ->
  Server.client_mem env = Some client -> 0 <= Server.accepted env ->
  0 <= Server.getfl env -> 0 <= Server.setfl env -> Server.insert_ok env = true ->
  Server.input_mem env = Some i -> Server.output_mem env = Some o ->
  client <> i -> client <> o -> i <> o ->
  exists s1 s2,
    Server.as_accept env handler s = Server.Returns (Some client) s1 /\
    Server.as_disconnect s1 client = Server.Returns tt s2 /\
    Pollfds.watched (Server.polled s2) = Pollfds.watched (Server.polled s) /\
    Pollfds.polled_fds (Server.polled s2) = Pollfds.polled_fds (Server.polled s) /\
    Server.contexts s2 = Server.contexts s /\
    Server.sockets s2 = Server.sockets s /\
    Server.heap s2 !! client = None /\
    Server.heap s2 !! i = Some (Server.BBuffer fresh_buffer) /\
    Server.heap s2 !! o = Some (Server.BBuffer fresh_buffer) /\
    (forall p, p <> client -> p <> i -> p <> o -> Server.heap s2 !! p = Server.heap s !! p).
Proof.
  intros Hwf Hroom Hnew Htab Hsock Hmem Hacc Hg Hs Hins Hin Hout H1 H2 H3.
  eexists. eexists.
  split; [by apply (as_accept_all_steps env handler s client i o)|].
  unfold Server.as_disconnect. server_unfold. rewrite lookup_insert_eq. server_unfold.
  split; [reflexivity|]. server_unfold.
  destruct (RegistryFacts.add_remove_watched (Server.polled s) (Server.accepted env)
              client_events Hwf Hroom Hacc Hnew) as (_ & Hwat & Hpol).
  rewrite add_event_unwatched in Hwat, Hpol by done. cbn [snd] in Hwat, Hpol.
  split; [done|]. split; [done|].
  split.
  { unfold Server.htable_remove. rewrite delete_insert_eq. by apply delete_id. }
  split; [by apply difference_union_fresh|].
  pose proof (accepted_heap (Server.heap s) client i o
                (Server.mk_client_context 0 Server.BufInside Server.BufInside 0 0 0)
                (Server.mk_client_context 0 Server.BufInside Server.BufInside handler 0 0)
                (Server.mk_client_context (Server.accepted env) Server.BufInside
                   Server.BufInside handler 0 0)
                (Server.mk_client_context (Server.accepted env) (Server.BufAt i)
                   Server.BufInside handler 0 0)
                (Server.mk_client_context (Server.accepted env) (Server.BufAt i)
                   (Server.BufAt o) handler 0 0)
                fresh_buffer H1 H2 H3) as (Hc & Hi & Ho & Hrest).
  split; [by rewrite lookup_delete_eq|].
  split; [rewrite lookup_delete_ne, lookup_insert_ne by done; exact Hi|].
  split; [rewrite lookup_delete_ne, lookup_insert_ne by done; exact Ho|].
  intros p Hp1 Hp2 Hp3.
  rewrite lookup_delete_ne, lookup_insert_ne by done. by apply Hrest.
Qed.

Lemma accept_disconnect_round_trip_witness :
  exists s1 s2,
    Server.as_accept Examples.accept_ok 7 Examples.listening
    = Server.Returns (Some 0%nat) s1 /\
    Server.as_disconnect s1 0 = Server.Returns tt s2 /\
    Pollfds.watched (Server.polled s2) = Pollfds.watched (Server.polled Examples.listening).
Proof.
  assert (Hroom : Pollfds.polled (Server.polled Examples.listening)
                  < Pollfds.length (Server.polled Examples.listening)) by reflexivity.
  assert (Hnew : ~ watches (Server.polled Examples.listening) 5)
    by (apply listening_unwatched; lia).
  assert (Hsock : 5 ∉ Server.sockets Examples.listening).
  { apply (bool_decide_unpack _). by vm_compute. }
  assert (Hpos : 0 <= 5) by lia.
  assert (Hz : 0 <= 0) by lia.
  destruct (accept_disconnect_round_trip Examples.accept_ok 7 Examples.listening 0 1 2
              listening_wf Hroom Hnew eq_refl Hsock eq_refl Hpos Hz Hz eq_refl eq_refl eq_refl)
    as (s1 & s2 & H1 & H2 & H3 & _); try lia.
  exists s1, s2. split; [exact H1|]. split; [exact H2|exact H3].
Defined.


Section QuietDispatch.

Variable run_handler :
  nat -> Server.context_arg -> Z -> Server.server_context -> Server.server_context.
Hypothesis Hquiet : quiet run_handler.

Lemma quiet_registered h a ev s : registered s -> registered (run_handler h a ev s).
Proof.
  intros Hreg i Hi. destruct (Hquiet h a ev s) as (Hp & Ht & Hc).
  rewrite Hp, Ht in *. destruct (Hreg i Hi) as (client & Hget & Hcl).
  exists client. split; [done|]. by apply Hc.
Qed.

(** the client loop under quiet callbacks: it returns, and it has
    called back exactly the slots from [i] on that report events *)
Lemma poll_clients_quiet todo : forall (i : nat) s calls,
  registered s ->
  Pollfds.polled (Server.polled s) <= Z.of_nat todo + Z.of_nat i ->
  (1 <= i)%nat ->
  exists s' calls',
    Server.poll_clients run_handler todo i s calls
    = Server.PollReturns 0 s' (calls ++ calls') /\
    (forall j : nat,
       (i <= j)%nat -> Z.of_nat j < Pollfds.polled (Server.polled s) ->
       Pollfds.revents (Pollfds.slot (Pollfds.fds (Server.polled s)) j) <> 0 ->
       exists client,
         Server.htable_get (Server.contexts s)
           (Pollfds.fd (Pollfds.slot (Pollfds.fds (Server.polled s)) j)) = Some client /\
         Server.ClientCall j client
           (Pollfds.revents (Pollfds.slot (Pollfds.fds (Server.polled s)) j)) ∈ calls') /\
    (forall c, c ∈ calls' ->
       exists (j : nat) client,
         c = Server.ClientCall j client
               (Pollfds.revents (Pollfds.slot (Pollfds.fds (Server.polled s)) j)) /\
         (i <= j)%nat /\
         Pollfds.revents (Pollfds.slot (Pollfds.fds (Server.polled s)) j) <> 0).
Proof.
  induction todo as [|todo IH]; intros i s calls Hreg Hbound Hi.
  - cbn [Server.poll_clients].
    destruct (Z.ltb_spec (Z.of_nat i) (Pollfds.polled (Server.polled s))); [lia|].
    exists s, []. rewrite app_nil_r. split; [done|]. split.
    + intros j Hj Hlt. lia.
    + intros c Hc. by apply elem_of_nil in Hc.
  - cbn [Server.poll_clients].
    destruct (Z.ltb_spec (Z.of_nat i) (Pollfds.polled (Server.polled s))) as [Hlt|Hge].
    2: { exists s, []. rewrite app_nil_r. split; [done|]. split.
         + intros j Hj Hjlt. lia.
         + intros c Hc. by apply elem_of_nil in Hc. }
    destruct (Z.eqb_spec (Pollfds.revents (Pollfds.slot (Pollfds.fds (Server.polled s)) i)) 0)
      as [Hz|Hnz].
    + destruct (IH (S i) s calls Hreg ltac:(lia) ltac:(lia)) as (s' & calls' & Heq & Hall & Hsound).
      exists s', calls'. split; [done|]. split.
      * intros j Hj Hjlt Hrev. destruct (decide (j = i)) as [->|Hne]; [done|].
        apply Hall; (done || lia).
      * intros c Hc. destruct (Hsound c Hc) as (j & client & -> & Hj & Hrev).
        exists j, client. split; [done|]. split; [lia|done].
    + destruct (Hreg i ltac:(lia)) as (client & Hget & (c & Hheap)).
      rewrite Hget, Hheap.
      set (ev := Pollfds.revents (Pollfds.slot (Pollfds.fds (Server.polled s)) i)) in *.
      set (s1 := run_handler (Server.event_handler c) (Server.OfClient client) ev s).
      destruct (Hquiet (Server.event_handler c) (Server.OfClient client) ev s)
        as (Hp & Ht & _). fold s1 in Hp, Ht.
      destruct (IH (S i) s1 (calls ++ [Server.ClientCall i client ev]))
        as (s' & calls' & Heq & Hall & Hsound).
      { by apply quiet_registered. }
      { rewrite Hp. lia. }
      { lia. }
      rewrite Hp, Ht in *.
      exists s', (Server.ClientCall i client ev :: calls').
      split; [by rewrite Heq, <- app_assoc|]. split.
      * intros j Hj Hjlt Hrev. destruct (decide (j = i)) as [->|Hne].
        -- exists client. split; [done|]. apply list_elem_of_here.
        -- destruct (Hall j ltac:(lia) Hjlt Hrev) as (cl & Hcl & Hin).
           exists cl. split; [done|]. by apply list_elem_of_further.
      * intros c' Hc'. apply elem_of_cons in Hc' as [->|Hc'].
        -- exists i, client. split; [done|]. split; [lia|done].
        -- destruct (Hsound c' Hc') as (j & cl & -> & Hj & Hrev).
           exists j, cl. split; [done|]. split; [lia|done].
Qed.


End QuietDispatch.


Lemma idle_handler_quiet : quiet Examples.idle_handler.
Proof. intros h a ev s. unfold Examples.idle_handler. done. Qed.

Lemma two_connected_wf : wf_pollfds (Server.polled Examples.two_connected).
Proof. constructor; apply (bool_decide_unpack _); by vm_compute. Qed.

Lemma two_connected_registered : registered Examples.two_connected.
Proof.
  assert (Hpol : Pollfds.polled (Server.polled Examples.two_connected) = 3)
    by (by vm_compute).
  intros i Hi. rewrite Hpol in Hi.
  assert (Hcase : i = 1%nat \/ i = 2%nat) by lia.
  destruct Hcase as [-> | ->].
  - exists 0%nat. split; [by vm_compute|]. eexists. by vm_compute.
  - exists 3%nat. split; [by vm_compute|]. eexists. by vm_compute.
Qed.


End ConnectionFacts.

(** ** The buffer as a bounded queue *)

Module QueueFacts.
Import CInt Inv IobuffFacts Queue.

Lemma iobuff_send_after sent b :
  Iobuff.after (Iobuff.iobuff_send true sent b)
  = if (used b =? 0) || (sent <? 0) then b
    else Iobuff.mk_io_buffer (Iobuff.buffer b) (Iobuff.size b) (Iobuff.head b)
           (wrap64 (Iobuff.tail b + sent)).
Proof.
  unfold Iobuff.iobuff_send. fold (used b).
  destruct (used b =? 0); [done|]. cbn [orb].
  by destruct (Iobuff.head b <? Iobuff.tail b), (sent <? 0).
Qed.

Lemma pending_nil b : used b = 0 -> Iobuff.pending b = [].
Proof. intros Hu. apply length_zero_iff_nil. rewrite pending_length. lia. Qed.

(** one plain operation acts on the pending bytes as on a queue *)
Lemma run_op_queue o b q :
  wf_buffer b -> cursors_ok b -> op_ok o b -> plain o ->
  Iobuff.pending b = Some <$> q ->
  Iobuff.pending (run_op o b) = Some <$> queue_step (Iobuff.size b) q o /\
  Iobuff.size (run_op o b) = Iobuff.size b.
Proof.
  intros Hwf Hcur Hok Hplain Hq.
  assert (Hlen : Z.of_nat (length q) = used b).
  { pose proof (pending_length b) as Hl. rewrite Hq, length_fmap in Hl.
    pose proof (used_range b). lia. }
  pose proof Hcur as Hrange. unfold cursors_ok in Hrange.
  destruct o as [re data can|c sent]; cbn [plain] in Hplain; subst.
  - cbn [run_op queue_step]. destruct Hok as [Hdata _].
    unfold PTRDIFF_MAX in Hdata.
    destruct (decide (Z.of_nat (length data) = 0 \/ Iobuff.iobuff_full b = true)) as [He|He].
    + assert (Hsame : Iobuff.iobuff_append re b data (Z.of_nat (length data)) false = (0, b)).
      { unfold Iobuff.iobuff_append.
        destruct He as [-> | ->]; [done|]. by rewrite orb_true_r. }
      rewrite Hsame. cbn [snd]. split; [|done].
      rewrite Hq. f_equal.
      destruct He as [He|He].
      * assert (data = []) as -> by (apply length_zero_iff_nil; lia).
        by rewrite take_nil, app_nil_r.
      * apply iobuff_full_used in He.
        replace (Z.to_nat (Iobuff.size b - Z.of_nat (length q))) with 0%nat by lia.
        by rewrite take_0, app_nil_r.
    + assert (Hne : Z.of_nat (length data) <> 0) by tauto.
      assert (Hnf : Iobuff.iobuff_full b = false).
      { destruct (Iobuff.iobuff_full b); [tauto|done]. }
      assert (Hroom : used b < Iobuff.size b).
      { destruct (decide (used b = Iobuff.size b)) as [E|E]; [|lia].
        apply iobuff_full_used in E. congruence. }
      rewrite iobuff_append_no_growth by done.
      destruct (append_copy_spec b data (Z.of_nat (length data)) Hwf Hroom eq_refl)
        as (_ & Hs & _ & _ & _ & _ & Hp); [unfold SIZE_MOD; lia|].
      split; [|done]. rewrite Hp, Hq, fmap_app. f_equal. f_equal.
      destruct (Z.min_spec (Z.of_nat (length data)) (Iobuff.size b - used b))
        as [[Hlt ->]|[Hge ->]].
      * rewrite !take_ge by lia. done.
      * by rewrite Hlen.
  - cbn [run_op queue_step]. rewrite iobuff_send_after.
    cbn [op_ok] in Hok.
    destruct (Z.eqb_spec (used b) 0) as [Hz|Hnz]; cbn [orb].
    { split; [|done]. rewrite Hq.
      assert (q = []) as -> by (apply length_zero_iff_nil; lia). by rewrite drop_nil. }
    destruct (Z.ltb_spec sent 0) as [Hneg|Hpos].
    { split; [|done]. rewrite Hq.
      replace (Z.to_nat sent) with 0%nat by lia. done. }
    split; [|done].
    rewrite pending_after_drain by (done || lia).
    by rewrite Hq, fmap_drop.
Qed.

(** X25. Without reallocation the buffer is a bounded first-in
    first-out queue. Over any sequence of [iobuff_append] calls with
    [can_reallocate] false and [iobuff_send] calls, the pending bytes
    are those of a queue of the buffer's capacity: an append adds the
    longest prefix of the data that fits, a send that reports [sent]
    bytes removes that many from the front, and a failed send removes
    nothing. The capacity never changes. *)
Theorem ring_is_bounded_fifo ops : forall b q,
  wf_buffer b -> cursors_ok b -> ops_ok ops b -> Forall plain ops ->
  Iobuff.pending b = Some <$> q ->
  Iobuff.pending (run_ops ops b) = Some <$> queue_run (Iobuff.size b) ops q /\
  Iobuff.size (run_ops ops b) = Iobuff.size b.
Proof.
  induction ops as [|o ops IH]; intros b q Hwf Hcur Hok Hplain Hq; [done|].
  destruct Hok as [Ho Hops]. apply Forall_cons in Hplain as [Hpo Hpops].
  destruct (run_op_queue o b q Hwf Hcur Ho Hpo Hq) as [Hq' Hs'].
  assert (Hinv : wf_buffer (run_op o b) /\ cursors_ok (run_op o b)).
  { destruct o; [by apply iobuff_append_inv|by apply iobuff_send_inv]. }
  destruct Hinv as [Hwf' Hcur'].
  destruct (IH (run_op o b) _ Hwf' Hcur' Hops Hpops Hq') as [Hfin Hsize].
  change (run_ops (o :: ops) b) with (run_ops ops (run_op o b)).
  change (queue_run (Iobuff.size b) (o :: ops) q)
    with (queue_run (Iobuff.size b) ops (queue_step (Iobuff.size b) q o)).
  rewrite Hs' in Hfin. split; [done|]. by rewrite Hsize.
Qed.

Lemma ring_is_bounded_fifo_witness :
  Iobuff.pending
    (run_ops [Append Iobuff.ReallocNull ["a"; "b"; "c"]%byte false; Drain true 2;
              Append Iobuff.ReallocNull ["d"; "e"; "f"; "g"]%byte false]
       Examples.ring4_fresh)
  = Some <$> queue_run (Iobuff.size Examples.ring4_fresh)
               [Append Iobuff.ReallocNull ["a"; "b"; "c"]%byte false; Drain true 2;
                Append Iobuff.ReallocNull ["d"; "e"; "f"; "g"]%byte false] [].
Proof.
  apply (ring_is_bounded_fifo
           [Append Iobuff.ReallocNull ["a"; "b"; "c"]%byte false; Drain true 2;
            Append Iobuff.ReallocNull ["d"; "e"; "f"; "g"]%byte false]
           Examples.ring4_fresh []).
  - apply ring4_fresh_wf.
  - apply ring4_fresh_cursors.
  - cbn. repeat split; try discriminate; by vm_compute.
  - repeat (apply Forall_cons; split; [reflexivity|]). by apply Forall_nil.
  - reflexivity.
Defined.

(** X26. [iobuff_headptr] and [iobuff_tailptr] add the raw cursor to
    the start of the storage. The pointer is the position
    [iobuff_append] writes at (for the tail: the position of the oldest
    pending byte) exactly while the cursor is below the capacity; from
    then on it lies at or past the end of the storage. *)
Theorem raw_pointers_first_lap b :
  wf_buffer b ->
  (iobuff_headptr b = Z.land (Iobuff.head b) (wrap64 (Iobuff.size b - 1))
   <-> Iobuff.head b < Iobuff.size b) /\
  (iobuff_tailptr b = Z.land (Iobuff.tail b) (wrap64 (Iobuff.size b - 1))
   <-> Iobuff.tail b < Iobuff.size b) /\
  (Iobuff.size b <= Iobuff.head b ->
   Z.of_nat (length (Iobuff.buffer b)) <= iobuff_headptr b) /\
  (Iobuff.size b <= Iobuff.tail b ->
   Z.of_nat (length (Iobuff.buffer b)) <= iobuff_tailptr b).
Proof.
  intros [(k & Hk & Hs) Hst Hh Ht].
  pose proof (pow2_le_62 k Hk) as Hp.
  unfold iobuff_headptr, iobuff_tailptr.
  rewrite !(mask_size b k) by done.
  assert (Hmod : forall x, 0 <= x -> (x = x mod Iobuff.size b <-> x < Iobuff.size b)).
  { intros x Hx. split.
    - intros ->. apply Z.mod_pos_bound. lia.
    - intros Hlt. symmetry. apply Z.mod_small. lia. }
  split; [apply Hmod; lia|]. split; [apply Hmod; lia|]. lia.
Qed.

Lemma raw_pointers_first_lap_witness :
  iobuff_tailptr Examples.ring4_wrapped
  = Z.land (Iobuff.tail Examples.ring4_wrapped)
      (wrap64 (Iobuff.size Examples.ring4_wrapped - 1))
  <-> Iobuff.tail Examples.ring4_wrapped < Iobuff.size Examples.ring4_wrapped.
Proof.
  apply (raw_pointers_first_lap Examples.ring4_wrapped). apply BufferFacts.ring4_wrapped_wf.
Defined.

End QueueFacts.

(** ** One dispatch iteration *)

Module PollFacts.
Import CInt Inv PollfdsFacts ServerFacts Connections.

Section AnyCallbacks.

Variable run_handler :
  nat -> Server.context_arg -> Z -> Server.server_context -> Server.server_context.

(** the client loop only adds client callbacks to the record *)
Lemma poll_clients_appends todo : forall (i : nat) s calls,
  exists more,
    Server.calls_of (Server.poll_clients run_handler todo i s calls) = calls ++ more /\
    Forall is_client_call more.
Proof.
  induction todo as [|todo IH]; intros i s calls; cbn [Server.poll_clients].
  - exists []. rewrite app_nil_r. split; [by destruct (_ <? _)|done].
  - destruct (Z.of_nat i <? Pollfds.polled (Server.polled s));
      [|exists []; by rewrite app_nil_r].
    destruct (Pollfds.revents (Pollfds.slot (Pollfds.fds (Server.polled s)) i) =? 0);
      [apply IH|].
    destruct (Server.htable_get _ _) as [client|]; [|exists []; by rewrite app_nil_r].
    destruct (Server.heap s !! client) as [[c|b]|]; try (exists []; by rewrite app_nil_r).
    destruct (IH (S i)
                (run_handler (Server.event_handler c) (Server.OfClient client)
                   (Pollfds.revents (Pollfds.slot (Pollfds.fds (Server.polled s)) i)) s)
                (calls ++ [Server.ClientCall i client
                             (Pollfds.revents (Pollfds.slot (Pollfds.fds (Server.polled s)) i))]))
      as (more & Heq & Hall).
    exists (Server.ClientCall i client
              (Pollfds.revents (Pollfds.slot (Pollfds.fds (Server.polled s)) i)) :: more).
    split; [by rewrite Heq, <- app_assoc|]. by apply Forall_cons.
Qed.

End AnyCallbacks.

Lemma client_calls_from_lower lo calls j client ev :
  client_calls_from lo calls -> Server.ClientCall j client ev ∈ calls -> (lo <= j)%nat.
Proof.
  revert lo. induction calls as [|c calls IH]; intros lo Hfrom Hin.
  - by apply elem_of_nil in Hin.
  - destruct c as [ev0|i cl ev0]; [done|]. cbn in Hfrom. destruct Hfrom as (Hlo & _ & Hrest).
    apply elem_of_cons in Hin as [Heq|Hin].
    + injection Heq as -> _ _. done.
    + specialize (IH (S i) Hrest Hin). lia.
Qed.

Lemma watched_fd_lookup p (i : nat) :
  wf_pollfds p -> Z.of_nat i < Pollfds.polled p ->
  (Pollfds.fd <$> Pollfds.watched p) !! i
  = Some (Pollfds.fd (Pollfds.slot (Pollfds.fds p) i)).
Proof.
  intros [H1 _ H3 _ _] Hi.
  rewrite list_lookup_fmap, watched_lookup by done.
  by rewrite (slot_lt (Pollfds.fds p) i) by lia.
Qed.

(** client callbacks for increasing slots of a registry whose table is
    injective are for distinct contexts *)
Lemma called_clients_nodup p t : forall calls lo,
  wf_pollfds p -> table_injective t ->
  client_calls_from lo calls ->
  (forall c, c ∈ calls ->
     exists (j : nat) client ev,
       c = Server.ClientCall j client ev /\ Z.of_nat j < Pollfds.polled p /\
       Server.htable_get t (Pollfds.fd (Pollfds.slot (Pollfds.fds p) j)) = Some client) ->
  NoDup (called_clients calls).
Proof.
  intros calls lo Hwf Hinj. revert lo.
  induction calls as [|c calls IH]; intros lo Hfrom Hsound; [apply NoDup_nil_2|].
  destruct c as [ev0|i cl ev0]; [done|]. cbn in Hfrom. destruct Hfrom as (_ & _ & Hrest).
  change (called_clients (Server.ClientCall i cl ev0 :: calls))
    with (cl :: called_clients calls).
  apply NoDup_cons. split.
  - intros Hin. unfold called_clients in Hin. apply list_elem_of_omap in Hin as (c & Hc & Hf).
    destruct c as [ev1|j cl' ev1]; [done|]. injection Hf as ->.
    pose proof (client_calls_from_lower _ _ _ _ _ Hrest Hc) as Hlt.
    destruct (Hsound (Server.ClientCall i cl ev0)) as (i' & c1 & e1 & Heq1 & Hi & Hti);
      [apply list_elem_of_here|]. injection Heq1 as <- <- <-.
    destruct (Hsound (Server.ClientCall j cl ev1)) as (j' & c2 & e2 & Heq2 & Hj & Htj);
      [by apply list_elem_of_further|]. injection Heq2 as <- <- <-.
    pose proof (Hinj _ _ _ Hti Htj) as Hfd.
    pose proof (watched_fd_lookup p i Hwf Hi) as Li.
    pose proof (watched_fd_lookup p j Hwf Hj) as Lj.
    rewrite <- Hfd in Lj.
    destruct Hwf as [_ _ _ _ Hnodup].
    pose proof (NoDup_lookup _ _ _ _ Hnodup Li Lj). lia.
  - apply (IH (S i) Hrest). intros c Hc. apply Hsound. by apply list_elem_of_further.
Qed.

Section QuietCallbacks.

Variable run_handler :
  nat -> Server.context_arg -> Z -> Server.server_context -> Server.server_context.
Hypothesis Hquiet : quiet run_handler.

(** under quiet callbacks every recorded client callback is for a
    watched slot, with the context the table holds for its descriptor *)
Lemma poll_clients_quiet_table todo : forall (i : nat) s calls,
  registered s ->
  exists more,
    Server.calls_of (Server.poll_clients run_handler todo i s calls) = calls ++ more /\
    forall c, c ∈ more ->
      exists (j : nat) client ev,
        c = Server.ClientCall j client ev /\
        Z.of_nat j < Pollfds.polled (Server.polled s) /\
        Server.htable_get (Server.contexts s)
          (Pollfds.fd (Pollfds.slot (Pollfds.fds (Server.polled s)) j)) = Some client.
Proof.
  induction todo as [|todo IH]; intros i s calls Hreg; cbn [Server.poll_clients].
  - exists []. rewrite app_nil_r. split; [by destruct (_ <? _)|].
    intros c Hc. by apply elem_of_nil in Hc.
  - assert (Hnone : forall o, Server.calls_of o = calls ->
              exists more, Server.calls_of o = calls ++ more /\
                forall c, c ∈ more ->
                  exists (j : nat) client ev,
                    c = Server.ClientCall j client ev /\
                    Z.of_nat j < Pollfds.polled (Server.polled s) /\
                    Server.htable_get (Server.contexts s)
                      (Pollfds.fd (Pollfds.slot (Pollfds.fds (Server.polled s)) j))
                    = Some client).
    { intros o Ho. exists []. rewrite app_nil_r. split; [done|].
      intros c Hc. by apply elem_of_nil in Hc. }
    destruct (Z.ltb_spec (Z.of_nat i) (Pollfds.polled (Server.polled s))) as [Hlt|Hge];
      [|by apply Hnone].
    destruct (Pollfds.revents (Pollfds.slot (Pollfds.fds (Server.polled s)) i) =? 0);
      [by apply IH|].
    destruct (Server.htable_get _ _) as [client|] eqn:Hget; [|by apply Hnone].
    destruct (Server.heap s !! client) as [[c|b]|]; try (by apply Hnone).
    set (ev := Pollfds.revents (Pollfds.slot (Pollfds.fds (Server.polled s)) i)) in *.
    set (s1 := run_handler (Server.event_handler c) (Server.OfClient client) ev s).
    destruct (Hquiet (Server.event_handler c) (Server.OfClient client) ev s)
      as (Hp & Ht & _). fold s1 in Hp, Ht.
    destruct (IH (S i) s1 (calls ++ [Server.ClientCall i client ev]))
      as (more & Heq & Hsound).
    { by apply ConnectionFacts.quiet_registered. }
    rewrite Hp, Ht in Hsound.
    exists (Server.ClientCall i client ev :: more).
    split; [by rewrite Heq, <- app_assoc|].
    intros c' Hc'. apply elem_of_cons in Hc' as [->|Hc']; [|by apply Hsound].
    by exists i, client, ev.
Qed.

End QuietCallbacks.


(** the record of a listener callback, if any, followed by client
    callbacks is in dispatch order only if the client callbacks are *)
Lemma dispatch_order_clients ev more :
  Forall is_client_call more ->
  dispatch_order ((if ev =? 0 then [] else [Server.ListenerCall ev]) ++ more) ->
  client_calls_from 1 more.
Proof.
  intros Hall. destruct (ev =? 0); cbn [app].
  - destruct more as [|c rest]; [done|].
    apply Forall_cons in Hall as [Hc _]. by destruct c.
  - by intros [_ H].
Qed.

(** [as_poll] after a poll that did not fail: the listener's callback
    if slot 0 reports events, then the client loop from slot 1 *)
Lemma as_poll_unfold run_handler bound result observed s :
  wf_pollfds (Server.polled s) -> 1 <= Pollfds.polled (Server.polled s) -> 0 <= result ->
  let s1 := Server.with_polled s (snd (Pollfds.poll_events result observed (Server.polled s))) in
  Server.as_poll run_handler bound result observed s
  = Server.poll_clients run_handler bound 1
      (if observed 0%nat =? 0 then s1
       else run_handler (Server.server_handler s1) Server.OfServer (observed 0%nat) s1)
      (if observed 0%nat =? 0 then [] else [Server.ListenerCall (observed 0%nat)]).
Proof.
  intros Hwf Hone Hres s1.
  pose proof (RegistryFacts.poll_events_fds_lookup result observed (Server.polled s) 0 Hres)
    as Hslot.
  assert (Hfst : fst (Pollfds.poll_events result observed (Server.polled s)) = result).
  { unfold Pollfds.poll_events. by destruct (result <? 0). }
  unfold Server.as_poll. unfold s1.
  destruct (Pollfds.poll_events result observed (Server.polled s)) as [r p].
  cbn [fst snd] in *. subst r.
  destruct (Z.ltb_spec result 0); [lia|].
  assert (Hs1 : Server.polled (Server.with_polled s p) = p) by reflexivity.
  rewrite Hs1, Hslot.
  destruct (Z.ltb_spec (Z.of_nat 0) (Pollfds.polled (Server.polled s))); [|lia].
  destruct Hwf as [H1 _ H3 _ _]. rewrite decide_True by lia.
  cbn [Pollfds.revents]. by destruct (observed 0%nat =? 0).
Qed.


Lemma two_connected_table : table_injective (Server.contexts Examples.two_connected).
Proof.
  assert (Ht : Server.contexts Examples.two_connected
               = <[6 := 3%nat]> (<[5 := 0%nat]> (∅ : gmap Z nat))) by (by vm_compute).
  intros d1 d2 client. unfold Server.htable_get. rewrite Ht.
  rewrite !lookup_insert_Some, !lookup_empty. intros H1 H2.
  destruct H1 as [[E1 C1]|[N1 [[E1 C1]|[_ F1]]]]; [| |done];
    destruct H2 as [[E2 C2]|[N2 [[E2 C2]|[_ F2]]]]; try done; congruence.
Qed.



End PollFacts.
